(** * open-exa: crawler and hybrid retrieval, embedded in Rocq

    A shallow embedding of the Go sources of the repository
    (internal/indexer, internal/retriever, internal/crawler,
    internal/parser, internal/server, internal/chunker,
    internal/embeddings, internal/llm, internal/cli) together with the
    properties of the natural-language specification that concern
    them, and further properties of the code.

    Conventions used throughout.
    - Go's [int] is a 64-bit two's complement integer: it is a [Z] and
      every arithmetic result goes through [wrap64].
    - A Go call that can panic or return an [error] returns an
      [outcome]: [Ok v], [Err msg] or [Panic msg].
    - [float32] scores are IEEE binary32 numbers, as the Standard
      Library's [SpecFloat] defines them (precision 24, exponent bound
      128): every operation rounds to nearest, ties to even, and
      overflows to an infinity; no two operations are fused, as on
      amd64.
    - [float64] values are the kernel's binary64 floats, which are Go's.
    - A time is a number of nanoseconds on the clock of the process,
      and a [time.Duration] a number of nanoseconds. *)

From Stdlib Require Import ZArith QArith Lia Permutation Sorted.
From Stdlib Require Import Floats.
From Stdlib Require Ascii.
From stdpp Require Import gmap strings list fin_maps pretty.

Open Scope Z_scope.

(** ** Go runtime conventions *)

Inductive outcome (A : Type) : Type :=
| Ok (a : A)
| Err (e : string)
| Panic (p : string).
Arguments Ok {A} a.
Arguments Err {A} e.
Arguments Panic {A} p.

Definition wrap64 (z : Z) : Z := (z + 2 ^ 63) mod 2 ^ 64 - 2 ^ 63.

Definition int_mul (a b : Z) : Z := wrap64 (a * b).

Definition int_add (a b : Z) : Z := wrap64 (a + b).

(** [len(s)] as a Go int. *)
Definition len {A : Type} (s : list A) : Z := Z.of_nat (length s).

(** The slice expression [s[:hi]] on a slice whose capacity equals its
    length: it panics unless [0 <= hi <= len(s)]. *)
Definition slice_to {A : Type} (s : list A) (hi : Z) : outcome (list A) :=
  if (0 <=? hi) && (hi <=? len s)
  then Ok (take (Z.to_nat hi) s)
  else Panic "slice bounds out of range".

(** ** Go's [strings] package, on byte strings

    The functions the sources call, for ASCII text: a string is its
    sequence of bytes. *)

Module Strings.

Definition HasPrefix (s prefix : string) : bool := String.prefix prefix s.

Definition HasSuffix (s suffix : string) : bool :=
  String.prefix (String.rev suffix) (String.rev s).

Definition TrimSuffix (s suffix : string) : string :=
  if HasSuffix s suffix
  then String.substring 0 (String.length s - String.length suffix) s
  else s.

Definition lowerByte (c : Ascii.ascii) : Ascii.ascii :=
  let n := Ascii.nat_of_ascii c in
  if ((65 <=? n) && (n <=? 90))%nat then Ascii.ascii_of_nat (n + 32) else c.

Fixpoint ToLower (s : string) : string :=
  match s with
  | EmptyString => EmptyString
  | String c s' => String (lowerByte c) (ToLower s')
  end.

Fixpoint Contains (s substr : string) : bool :=
  String.prefix substr s ||
  match s with
  | EmptyString => false
  | String _ s' => Contains s' substr
  end.

Definition isSpace (c : Ascii.ascii) : bool :=
  let n := Ascii.nat_of_ascii c in
  ((n =? 32) || ((9 <=? n) && (n <=? 13)))%nat.

Fixpoint trimLeft (s : string) : string :=
  match s with
  | EmptyString => EmptyString
  | String c s' => if isSpace c then trimLeft s' else s
  end.

Definition TrimSpace (s : string) : string :=
  String.rev (trimLeft (String.rev (trimLeft s))).

(** [strings.LastIndexByte]: the index of the last [c] in [s]. *)
Fixpoint LastIndexByte (s : string) (c : Ascii.ascii) : option nat :=
  match s with
  | EmptyString => None
  | String d s' =>
      match LastIndexByte s' c with
      | Some i => Some (S i)
      | None => if Ascii.eqb d c then Some O else None
      end
  end.

(** [s[i:]] for [i <= len(s)]. *)
Definition from (i : nat) (s : string) : string :=
  String.substring i (String.length s - i) s.

End Strings.

(** ** Go's [strconv] package *)

Module Strconv.

(** [strconv.Atoi] on a decimal literal with an optional sign; [None]
    is a syntax or range error. *)
Definition digitValue (c : Ascii.ascii) : option Z :=
  let n := Z.of_N (Ascii.N_of_ascii c) in
  if (48 <=? n) && (n <=? 57) then Some (n - 48) else None.

Fixpoint digitsValue (acc : Z) (s : string) : option Z :=
  match s with
  | EmptyString => Some acc
  | String c s' =>
      match digitValue c with
      | Some d => digitsValue (acc * 10 + d) s'
      | None => None
      end
  end.

Definition Atoi (s : string) : option Z :=
  let signed (neg : bool) (body : string) :=
    match body with
    | EmptyString => None
    | _ =>
        match digitsValue 0 body with
        | Some n =>
            let v := if neg then - n else n in
            if (- (2 ^ 63) <=? v) && (v <? 2 ^ 63) then Some v else None
        | None => None
        end
    end in
  match s with
  | String c body =>
      if Ascii.eqb c (Ascii.ascii_of_nat 45) then signed true body
      else if Ascii.eqb c (Ascii.ascii_of_nat 43) then signed false body
      else signed false s
  | EmptyString => None
  end.

End Strconv.

(** ** internal/indexer: the hybrid merge *)

Module Indexer.

(** *** [float32] *)

Definition float32 : Type := spec_float.

Definition f32mul (x y : float32) : float32 := SFmul 24 128 x y.
Definition f32add (x y : float32) : float32 := SFadd 24 128 x y.
Definition f32sub (x y : float32) : float32 := SFsub 24 128 x y.

(** [x < y] and [x <= y]: false when either is a NaN. *)
Definition f32lt (x y : float32) : bool := SFltb x y.


(** The binary32 number nearest to [num / den]: what a constant such
    as [0.7] becomes when it is used as a [float32]. *)
Definition f32 (num den : Z) : float32 :=
  SFdiv 24 128 (binary_normalize 24 128 num 0 false) (binary_normalize 24 128 den 0 false).

(** The conversion [float32(x)] of a [float64]. *)
Definition toFloat32 (x : float) : float32 :=
  match Prim2SF x with
  | S754_finite s m e => binary_normalize 24 128 (if s then Z.neg m else Z.pos m) e s
  | other => other
  end.

(** [SearchResult]; the metadata map is carried along untouched. *)
Record SearchResult : Type := mkSearchResult {
  DocumentID : string;
  ChunkID : string;
  Score : float32;
  Text : string;
  Metadata : list (string * string)
}.

(** Assignment to the [Score] field. *)
Definition setScore (r : SearchResult) (s : float32) : SearchResult :=
  {| DocumentID := DocumentID r; ChunkID := ChunkID r; Score := s;
     Text := Text r; Metadata := Metadata r |}.

(** The constants [0.7] and [0.3], as [float32]. *)
Definition vectorWeight : float32 := f32 7 10.
Definition bm25Weight : float32 := f32 3 10.

(** [a < b] on scores, as a boolean. *)
Definition scoreLt (a b : float32) : bool := f32lt a b.

(** Body of the first loop of [combineResults]. The slices hold
    pointers; [Search] passes the results that [searchChroma] and
    [searchElasticsearch] have just allocated, one new object per
    element, so no object is reached twice: the map from chunk id to
    pointer is a map from chunk id to value, and [existing.Score = ...]
    is an update of the entry. *)
Definition addVector (resultMap : gmap string SearchResult) (result : SearchResult)
  : gmap string SearchResult :=
  let key := ChunkID result in
  match resultMap !! key with
  | Some existing =>
      <[key := setScore existing (f32add (f32mul (Score existing) bm25Weight)
                                         (f32mul (Score result) vectorWeight))]> resultMap
  | None =>
      <[key := setScore result (f32mul (Score result) vectorWeight)]> resultMap
  end.

(** Body of the second loop. *)
Definition addBM25 (resultMap : gmap string SearchResult) (result : SearchResult)
  : gmap string SearchResult :=
  let key := ChunkID result in
  match resultMap !! key with
  | Some existing =>
      <[key := setScore existing (f32add (f32mul (Score existing) vectorWeight)
                                         (f32mul (Score result) bm25Weight))]> resultMap
  | None =>
      <[key := setScore result (f32mul (Score result) bm25Weight)]> resultMap
  end.

(** The map after both loops. *)
Definition mergeResults (vectorResults bm25Results : list SearchResult)
  : gmap string SearchResult :=
  foldl addBM25 (foldl addVector ∅ vectorResults) bm25Results.

(** [if a[i].Score < a[j].Score { a[i], a[j] = a[j], a[i] }] *)
Definition swapIfLess (a : list SearchResult) (i j : nat) : list SearchResult :=
  match a !! i, a !! j with
  | Some x, Some y =>
      if scoreLt (Score x) (Score y) then <[i := y]> (<[j := x]> a) else a
  | _, _ => a
  end.

(** [for j := ...; j < len(a); j++], with [n] iterations left. *)
Fixpoint innerLoop (a : list SearchResult) (i j n : nat) : list SearchResult :=
  match n with
  | O => a
  | S n' => innerLoop (swapIfLess a i j) i (S j) n'
  end.

(** [for i := ...; i < len(a); i++], with [n] iterations left. *)
Fixpoint outerLoop (a : list SearchResult) (i n : nat) : list SearchResult :=
  match n with
  | O => a
  | S n' => outerLoop (innerLoop a i (S i) (length a - S i)) (S i) n'
  end.

Definition sortByScore (a : list SearchResult) : list SearchResult :=
  outerLoop a 0 (length a).

(** The values of the map, in the order of stdpp's [map_to_list]. *)
Definition mapValues (m : gmap string SearchResult) : list SearchResult :=
  (map_to_list m).*2.

(** [combineResults]. Go ranges over a map in an unspecified order:
    [range] is that order, any function returning the map's values. *)
Definition combineResults (range : gmap string SearchResult -> list SearchResult)
    (vectorResults bm25Results : list SearchResult) (limit : Z)
  : outcome (list SearchResult) :=
  let resultMap := mergeResults vectorResults bm25Results in
  let combinedResults := sortByScore (range resultMap) in
  if (len combinedResults >? limit)
  then slice_to combinedResults limit
  else Ok combinedResults.

(** The slice before truncation. *)
Definition fusedResults (range : gmap string SearchResult -> list SearchResult)
    (vectorResults bm25Results : list SearchResult) : list SearchResult :=
  sortByScore (range (mergeResults vectorResults bm25Results)).

(** A legal iteration order. *)
Definition rangeOrder (range : gmap string SearchResult -> list SearchResult) : Prop :=
  forall m, range m ≡ₚ mapValues m.

(** *** The two backends and [Search] *)

(** What [searchChroma] reads of the answer of the collection; the
    distances of the client library are [float32]. *)
Record QueryResult : Type := mkQueryResult {
  DocumentsGroups : list (list string);
  MetadatasGroups : list (list (list (string * string)));
  DistancesGroups : list (list float32)
}.

(** The loop of [searchChroma] from index [j] on: one new
    [SearchResult] per document that has a metadata entry and a
    distance, with the chunk id [chunk_<j>]. *)
Fixpoint chromaLoop (j : nat) (documents : list string)
    (metadatas : list (list (string * string))) (distances : list float32)
  : list SearchResult :=
  match documents with
  | [] => []
  | document :: rest =>
      match decide (j < length metadatas)%nat, distances !! j with
      | left _, Some distance =>
          [mkSearchResult "unknown" ("chunk_" +:+ pretty j) (f32sub (f32 1 1) distance) document
             [("chunk_id", "chunk_" +:+ pretty j)]]
      | _, _ => []
      end ++ chromaLoop (S j) rest metadatas distances
  end.

(** [searchChroma] after the query returned. *)
Definition chromaResults (queryResult : QueryResult) : outcome (list SearchResult) :=
  match DocumentsGroups queryResult with
  | (_ :: _) as documents :: _ =>
      match MetadatasGroups queryResult, DistancesGroups queryResult with
      | metadatas :: _, distances :: _ => Ok (chromaLoop 0 documents metadatas distances)
      | _, _ => Panic "index out of range [0] with length 0"
      end
  | _ => Ok []
  end.

(** A hit of the Elasticsearch response: [_score], a [float64], and
    [_source]. *)
Record Hit : Type := mkHit {
  HitScore : float;
  SourceDocumentID : string;
  SourceChunkID : string;
  SourceText : string;
  SourceMetadata : list (string * string)
}.

(** The loop of [searchElasticsearch] over the hits. *)
Definition elasticResults (hits : list Hit) : list SearchResult :=
  (fun hit => mkSearchResult (SourceDocumentID hit) (SourceChunkID hit)
                             (toFloat32 (HitScore hit))
                             (SourceText hit) (SourceMetadata hit)) <$> hits.

Section Search.

(** The embedder, the Chroma collection ([None] when it was never
    created) and the Elasticsearch index: each answers a call with a
    value or an error. *)
Variable Embed : string -> outcome (list Q).
Variable collection : option (Z -> outcome QueryResult).
Variable elasticHits : string -> Z -> outcome (list Hit).
Variable range : gmap string SearchResult -> list SearchResult.

Definition searchChroma (queryEmbedding : list Q) (limit : Z)
  : outcome (list SearchResult) :=
  match collection with
  | None => Err "ChromaDB collection not initialized"
  | Some query =>
      match query limit with
      | Ok queryResult => chromaResults queryResult
      | Err e => Err ("ChromaDB query failed: " +:+ e)
      | Panic p => Panic p
      end
  end.

Definition searchElasticsearch (query : string) (limit : Z)
  : outcome (list SearchResult) :=
  match elasticHits query limit with
  | Ok hits => Ok (elasticResults hits)
  | Err e => Err e
  | Panic p => Panic p
  end.

(** [hybridIndexer.Search] *)
Definition Search (query : string) (limit : Z) : outcome (list SearchResult) :=
  match Embed query with
  | Err e => Err ("failed to get query embedding: " +:+ e)
  | Panic p => Panic p
  | Ok queryEmbedding =>
      match searchChroma queryEmbedding (int_mul limit 2) with
      | Err e => Err ("failed to search ChromaDB: " +:+ e)
      | Panic p => Panic p
      | Ok vectorResults =>
          match searchElasticsearch query (int_mul limit 2) with
          | Err e => Err ("failed to search Elasticsearch: " +:+ e)
          | Panic p => Panic p
          | Ok bm25Results => combineResults range vectorResults bm25Results limit
          end
      end
  end.

End Search.

(** *** The sort, read as a recursion on the slice

    One run of the inner loop carries the current [a[i]] along the rest
    of the slice, exchanging it with every strictly larger element it
    meets; the outer loop does so for each position in turn. *)

Fixpoint carry (x : SearchResult) (rest : list SearchResult)
  : SearchResult * list SearchResult :=
  match rest with
  | [] => (x, [])
  | y :: ys =>
      if scoreLt (Score x) (Score y)
      then let '(c, r) := carry y ys in (c, x :: r)
      else let '(c, r) := carry x ys in (c, y :: r)
  end.

Fixpoint selectAll (n : nat) (l : list SearchResult) : list SearchResult :=
  match n, l with
  | S n', x :: xs => let '(c, r) := carry x xs in c :: selectAll n' r
  | _, _ => l
  end.




(** *** The merge, as the properties speak of it *)

(** The results of [l] whose chunk id is [k], in order. *)
Definition withChunk (k : string) (l : list SearchResult) : list SearchResult :=
  filter (fun r => ChunkID r = k) l.

(** First-seen insertion: the score weighted by the backend's weight. *)
Definition weighted (w : float32) (r : SearchResult) : SearchResult :=
  setScore r (f32mul (Score r) w).

(** The two lists share no chunk id. *)
Definition disjointIds (vs bs : list SearchResult) : Prop :=
  forall r1 r2, r1 ∈ vs -> r2 ∈ bs -> ChunkID r1 <> ChunkID r2.


(** Both loop bodies are instances of one step. *)
Definition addWith (own other : float32) (m : gmap string SearchResult)
    (result : SearchResult) : gmap string SearchResult :=
  match m !! ChunkID result with
  | Some existing =>
      <[ChunkID result := setScore existing (f32add (f32mul (Score existing) other)
                                                    (f32mul (Score result) own))]> m
  | None => <[ChunkID result := weighted own result]> m
  end.

(** *** Example results *)

(** The example of the specification: [v = 0.9] and [b = 0.6] for one chunk. *)
Definition vector09 : SearchResult := mkSearchResult "doc1" "chunk_0" (f32 9 10) "text" [].
Definition bm25_06 : SearchResult := mkSearchResult "doc1" "chunk_0" (f32 6 10) "text" [].

(** Two backends with one chunk each. *)
Definition vectorA : SearchResult := mkSearchResult "doc1" "a" (f32 8 10) "alpha" [].
Definition bm25B : SearchResult := mkSearchResult "doc2" "b" (f32 5 10) "beta" [].

(** The rational a finite binary32 number stands for. *)
Definition f32Value (x : float32) : Q :=
  match x with
  | S754_finite s m e =>
      let v := if s then Z.neg m else Z.pos m in
      if 0 <=? e then inject_Z (v * 2 ^ e) else v # Z.to_pos (2 ^ (- e))
  | _ => 0
  end.

(** *** The order of [float32] *)







(** *** The sort *)

Lemma carry_length x rest : length (carry x rest).2 = length rest.
Proof.
  revert x. induction rest as [|y ys IH]; intros x; simpl; [done|].
  destruct (scoreLt (Score x) (Score y)).
  - specialize (IH y). destruct (carry y ys) as [c r]. simpl in *. by rewrite IH.
  - specialize (IH x). destruct (carry x ys) as [c r]. simpl in *. by rewrite IH.
Qed.

Lemma carry_perm x rest : (carry x rest).1 :: (carry x rest).2 ≡ₚ x :: rest.
Proof.
  revert x. induction rest as [|y ys IH]; intros x; simpl; [done|].
  destruct (scoreLt (Score x) (Score y)).
  - specialize (IH y). destruct (carry y ys) as [c r]. simpl in *.
    etrans; [apply perm_swap|]. by constructor.
  - specialize (IH x). destruct (carry x ys) as [c r]. simpl in *.
    etrans; [apply perm_swap|]. etrans; [apply perm_skip, IH|]. apply perm_swap.
Qed.


Lemma selectAll_perm n l : selectAll n l ≡ₚ l.
Proof.
  revert l. induction n as [|n IH]; intros [|x xs]; simpl; try done.
  pose proof (carry_perm x xs) as Hp. destruct (carry x xs) as [c r]. simpl in *.
  by rewrite IH.
Qed.


(** The inner loop, started at [j] just past [mid], is one [carry]. *)
Lemma innerLoop_carry pre x mid rest :
  innerLoop (pre ++ x :: mid ++ rest) (length pre) (S (length pre + length mid)) (length rest)
  = pre ++ (carry x rest).1 :: mid ++ (carry x rest).2.
Proof.
  revert x mid. induction rest as [|y ys IH]; intros x mid; simpl; [done|].
  assert (Hi : (pre ++ x :: mid ++ y :: ys) !! length pre = Some x)
    by (by rewrite list_lookup_middle).
  assert (Hj : (pre ++ x :: mid ++ y :: ys) !! S (length pre + length mid) = Some y).
  { rewrite lookup_app_r by lia.
    replace (S (length pre + length mid) - length pre)%nat with (S (length mid)) by lia.
    simpl. by rewrite list_lookup_middle. }
  unfold swapIfLess. rewrite Hi, Hj.
  destruct (scoreLt (Score x) (Score y)) eqn:E.
  - assert (Hs : <[length pre := y]> (<[S (length pre + length mid) := x]>
                   (pre ++ x :: mid ++ y :: ys)) = pre ++ y :: (mid ++ [x]) ++ ys).
    { rewrite (insert_app_r_alt pre _ (S (length pre + length mid))) by lia.
      replace (S (length pre + length mid) - length pre)%nat with (S (length mid)) by lia.
      simpl. rewrite (insert_app_r_alt mid _ (length mid)) by lia.
      rewrite Nat.sub_diag. simpl.
      rewrite (insert_app_r_alt pre _ (length pre)) by lia.
      rewrite Nat.sub_diag. simpl. by rewrite <- app_assoc. }
    rewrite Hs.
    replace (S (S (length pre + length mid))) with (S (length pre + length (mid ++ [x])))
      by (rewrite length_app; simpl; lia).
    rewrite IH. destruct (carry y ys) as [c r]. simpl. by rewrite <- app_assoc.
  - replace (pre ++ x :: mid ++ y :: ys) with (pre ++ x :: (mid ++ [y]) ++ ys)
      by (by rewrite <- app_assoc).
    replace (S (S (length pre + length mid))) with (S (length pre + length (mid ++ [y])))
      by (rewrite length_app; simpl; lia).
    rewrite IH. destruct (carry x ys) as [c r]. simpl. by rewrite <- app_assoc.
Qed.

(** The outer loop, started at the end of [pre], selects on the rest. *)
Lemma outerLoop_selectAll pre suf :
  outerLoop (pre ++ suf) (length pre) (length suf) = pre ++ selectAll (length suf) suf.
Proof.
  revert pre. remember (length suf) as n eqn:Hn. revert suf Hn.
  induction n as [|n IH]; intros suf Hn pre; simpl; [by destruct suf|].
  destruct suf as [|x xs]; simpl in *; [lia|].
  assert (Hlen : (length (pre ++ x :: xs) - S (length pre))%nat = length xs)
    by (rewrite length_app; simpl; lia).
  rewrite Hlen.
  pose proof (innerLoop_carry pre x [] xs) as Hin. simpl in Hin.
  rewrite Nat.add_0_r in Hin. rewrite Hin.
  pose proof (carry_length x xs) as Hl.
  destruct (carry x xs) as [c r]. simpl in *.
  replace (pre ++ c :: r) with ((pre ++ [c]) ++ r) by (by rewrite <- app_assoc).
  replace (S (length pre)) with (length (pre ++ [c])) by (rewrite length_app; simpl; lia).
  rewrite (IH r) by lia. by rewrite <- app_assoc.
Qed.

Lemma sortByScore_selectAll a : sortByScore a = selectAll (length a) a.
Proof. unfold sortByScore. apply (outerLoop_selectAll [] a). Qed.

Lemma sortByScore_perm a : sortByScore a ≡ₚ a.
Proof. rewrite sortByScore_selectAll. apply selectAll_perm. Qed.


Lemma sortByScore_length a : length (sortByScore a) = length a.
Proof. apply Permutation_length, sortByScore_perm. Qed.


(** *** The merge loops *)

Lemma addVector_addWith : addVector = addWith vectorWeight bm25Weight.
Proof. reflexivity. Qed.

Lemma addBM25_addWith : addBM25 = addWith bm25Weight vectorWeight.
Proof. reflexivity. Qed.

Section MergeLoop.
Variables own other : float32.

Lemma addWith_other m r k : ChunkID r <> k -> addWith own other m r !! k = m !! k.
Proof.
  intros Hne. unfold addWith.
  destruct (m !! ChunkID r); by rewrite lookup_insert_ne.
Qed.

Lemma foldl_addWith_other m l k :
  k ∉ ChunkID <$> l -> foldl (addWith own other) m l !! k = m !! k.
Proof.
  revert m. induction l as [|x xs IH]; intros m Hk; simpl; [done|].
  rewrite fmap_cons, not_elem_of_cons in Hk. destruct Hk as [Hx Hxs].
  rewrite IH by done. by apply addWith_other.
Qed.

Lemma withChunk_nil k l : withChunk k l = [] -> k ∉ ChunkID <$> l.
Proof.
  intros Hf Hin. apply list_elem_of_fmap in Hin as (r & Hk & Hr).
  exact (filter_nil_not_elem_of (fun x => ChunkID x = k) l r Hf (eq_sym Hk) Hr).
Qed.

(** A chunk first seen in this pass. *)
Lemma foldl_addWith_first m l k r :
  withChunk k l = [r] -> m !! k = None ->
  foldl (addWith own other) m l !! k = Some (weighted own r).
Proof.
  revert m. induction l as [|x xs IH]; intros m Hf Hm; [done|].
  unfold withChunk in Hf. rewrite filter_cons in Hf. simpl.
  destruct (decide (ChunkID x = k)) as [Hx|Hx].
  - injection Hf as -> Hnil. apply withChunk_nil in Hnil.
    rewrite foldl_addWith_other by done.
    unfold addWith. rewrite Hx, Hm. apply lookup_insert_eq.
  - apply IH; [done|]. by rewrite addWith_other.
Qed.

(** A chunk the map already holds. *)
Lemma foldl_addWith_seen m l k r existing :
  withChunk k l = [r] -> m !! k = Some existing ->
  foldl (addWith own other) m l !! k
  = Some (setScore existing (f32add (f32mul (Score existing) other) (f32mul (Score r) own))).
Proof.
  revert m. induction l as [|x xs IH]; intros m Hf Hm; [done|].
  unfold withChunk in Hf. rewrite filter_cons in Hf. simpl.
  destruct (decide (ChunkID x = k)) as [Hx|Hx].
  - injection Hf as -> Hnil. apply withChunk_nil in Hnil.
    rewrite foldl_addWith_other by done.
    unfold addWith. rewrite Hx, Hm. apply lookup_insert_eq.
  - apply IH; [done|]. by rewrite addWith_other.
Qed.

(** A pass over results with fresh, pairwise distinct chunk ids records
    each of them weighted. *)
Lemma foldl_addWith_fresh m l r :
  NoDup (ChunkID <$> l) -> (forall x, x ∈ l -> m !! ChunkID x = None) -> r ∈ l ->
  foldl (addWith own other) m l !! ChunkID r = Some (weighted own r).
Proof.
  revert m. induction l as [|x xs IH]; intros m Hnd Hfresh Hr; [by apply elem_of_nil in Hr|].
  rewrite fmap_cons in Hnd. apply NoDup_cons in Hnd as [Hx Hnd]. simpl.
  apply elem_of_cons in Hr as [->|Hr].
  - rewrite foldl_addWith_other by done.
    unfold addWith. rewrite (Hfresh x) by left. apply lookup_insert_eq.
  - apply IH; [done| |done].
    intros y Hy. rewrite addWith_other; [apply Hfresh; by right|].
    intros Heq. apply Hx. rewrite Heq. by apply list_elem_of_fmap_2.
Qed.

Lemma foldl_addWith_size m l :
  NoDup (ChunkID <$> l) -> (forall x, x ∈ l -> m !! ChunkID x = None) ->
  size (foldl (addWith own other) m l) = (size m + length l)%nat.
Proof.
  revert m. induction l as [|x xs IH]; intros m Hnd Hfresh; simpl; [lia|].
  rewrite fmap_cons in Hnd. apply NoDup_cons in Hnd as [Hx Hnd].
  rewrite IH; [|done|].
  - unfold addWith. rewrite (Hfresh x) by left.
    rewrite map_size_insert_None by (apply Hfresh; left). lia.
  - intros y Hy. rewrite addWith_other; [apply Hfresh; by right|].
    intros Heq. apply Hx. rewrite Heq. by apply list_elem_of_fmap_2.
Qed.

End MergeLoop.

Lemma mapValues_lookup (m : gmap string SearchResult) k r :
  m !! k = Some r -> r ∈ mapValues m.
Proof.
  intros H. unfold mapValues. apply list_elem_of_fmap.
  exists (k, r). split; [done|]. by apply elem_of_map_to_list.
Qed.

Lemma fusedResults_lookup range vs bs k r :
  rangeOrder range -> mergeResults vs bs !! k = Some r -> r ∈ fusedResults range vs bs.
Proof.
  intros Hr Hk. unfold fusedResults.
  rewrite sortByScore_perm, (Hr _). by eapply mapValues_lookup.
Qed.

Lemma fusedResults_length range vs bs :
  rangeOrder range ->
  length (fusedResults range vs bs) = size (mergeResults vs bs).
Proof.
  intros Hr. unfold fusedResults.
  rewrite sortByScore_length, (Permutation_length (Hr _)).
  unfold mapValues. by rewrite length_fmap, length_map_to_list.
Qed.


(** *** Properties of the merge *)





(** C1. A chunk id that each backend returns once, with raw vector
    score [v] and raw BM25 score [b], leaves the merge with the score
    [existing * 0.7 + b * 0.3], where [existing = v * 0.7] is the score
    its first-seen insertion recorded in the vector pass; products and
    sum are those of [float32]. The entry is in the fused slice for
    every iteration order of the map. *)
Theorem fused_score_of_shared_chunk vs bs k rv rb :
  withChunk k vs = [rv] -> withChunk k bs = [rb] ->
  let existing := f32mul (Score rv) vectorWeight in
  exists fused,
    mergeResults vs bs !! k = Some fused /\
    Score fused = f32add (f32mul existing vectorWeight) (f32mul (Score rb) bm25Weight) /\
    (forall range, rangeOrder range -> fused ∈ fusedResults range vs bs).
Proof.
  intros Hv Hb existing.
  assert (H1 : foldl addVector ∅ vs !! k = Some (weighted vectorWeight rv)).
  { rewrite addVector_addWith. by apply foldl_addWith_first. }
  assert (H2 : mergeResults vs bs !! k
               = Some (setScore (weighted vectorWeight rv)
                         (f32add (f32mul (Score (weighted vectorWeight rv)) vectorWeight)
                                 (f32mul (Score rb) bm25Weight)))).
  { unfold mergeResults. rewrite addBM25_addWith.
    by apply foldl_addWith_seen. }
  eexists. split; [exact H2|]. split; [reflexivity|].
  intros range Hr. by eapply fusedResults_lookup.
Qed.

(** The example of the specification: [v = 0.9], [b = 0.6], vector pass
    first. The fused score is the [float32] [10418651 * 2^-24], which
    is [0.621] to within [10^-8]. *)
Lemma fused_score_of_shared_chunk_witness :
  exists fused,
    mergeResults [vector09] [bm25_06] !! "chunk_0" = Some fused /\
    Score fused = S754_finite false 10418651 (-24) /\
    (f32Value (Score fused) - (621 # 1000) == - 17 # 2097152000)%Q.
Proof.
  destruct (fused_score_of_shared_chunk [vector09] [bm25_06] "chunk_0"
              vector09 bm25_06 eq_refl eq_refl) as (fused & Hm & Hs & _).
  exists fused. split; [exact Hm|]. rewrite Hs.
  split; vm_compute; reflexivity.
Defined.





(** With a negative limit the slice expression panics, whatever the
    results are. *)
Lemma combineResults_negative_limit range vs bs limit :
  limit < 0 -> combineResults range vs bs limit = Panic "slice bounds out of range".
Proof.
  intros Hl. unfold combineResults, slice_to.
  assert ((len (sortByScore (range (mergeResults vs bs))) >? limit) = true) as Hgt
    by (apply Z.gtb_lt; unfold len; lia).
  assert ((0 <=? limit) = false) as Hneg by (apply Z.leb_gt; lia).
  by rewrite Hgt, Hneg.
Qed.

Lemma rangeOrder_mapValues : rangeOrder mapValues.
Proof. intros m. reflexivity. Qed.



(** The vector backend never repeats a chunk id: its ids are the
    positions of the documents. *)
Lemma chromaLoop_ids j documents metadatas distances r :
  r ∈ chromaLoop j documents metadatas distances ->
  exists k, (j <= k)%nat /\ ChunkID r = "chunk_" +:+ pretty k.
Proof.
  revert j. induction documents as [|document rest IH]; intros j Hr; simpl in Hr.
  - by apply elem_of_nil in Hr.
  - apply elem_of_app in Hr as [Hr|Hr].
    + destruct (decide (j < length metadatas)%nat); [|by apply elem_of_nil in Hr].
      destruct (distances !! j); [|by apply elem_of_nil in Hr].
      apply list_elem_of_singleton in Hr as ->. exists j. by split.
    + destruct (IH _ Hr) as (k & Hk & Hid). exists k. split; [lia|done].
Qed.

Lemma chromaLoop_NoDup j documents metadatas distances :
  NoDup (ChunkID <$> chromaLoop j documents metadatas distances).
Proof.
  revert j. induction documents as [|document rest IH]; intros j; simpl; [constructor|].
  rewrite fmap_app. apply NoDup_app. split; [|split; [|apply IH]].
  - destruct (decide (j < length metadatas)%nat); [|constructor].
    destruct (distances !! j); [|constructor].
    simpl. apply NoDup_singleton.
  - intros id Hid Hrest.
    destruct (decide (j < length metadatas)%nat); [|by apply elem_of_nil in Hid].
    destruct (distances !! j); [|by apply elem_of_nil in Hid].
    simpl in Hid. apply list_elem_of_singleton in Hid as ->.
    apply list_elem_of_fmap in Hrest as (r & Heq & Hr).
    apply chromaLoop_ids in Hr as (k & Hk & Hid). rewrite Hid in Heq.
    injection Heq as Heq. apply pretty_nat_inj in Heq. lia.
Qed.

Lemma chromaResults_NoDup queryResult results :
  chromaResults queryResult = Ok results -> NoDup (ChunkID <$> results).
Proof.
  unfold chromaResults. intros H.
  destruct (DocumentsGroups queryResult) as [|[|d ds] ?]; simplify_eq; try constructor.
  destruct (MetadatasGroups queryResult), (DistancesGroups queryResult); simplify_eq.
  apply (chromaLoop_NoDup 0 (d :: ds)).
Qed.

End Indexer.

(** ** internal/retriever *)

Module Retriever.
Import Indexer.

(** The [Reranker] interface: [Rerank] returns a slice and an error. *)
Definition Reranker : Type :=
  string -> list SearchResult -> list SearchResult * option string.

(** Body of the goroutine [Retrieve] starts: it calls [Rerank] on the
    slice it observes, drops the returned slice and prints one line. *)
Definition rerankTask (reranker : Reranker) (query : string)
    (observed : list SearchResult) : string :=
  match (reranker query observed).2 with
  | Some err => "Warning: Async reranking failed: " +:+ err
  | None => "Async reranking completed for query: " +:+ query
  end.

Section Retrieve.

(** [r.config.Indexer.Search], the answer of the indexer to one call. *)
Variable Search : string -> Z -> outcome (list SearchResult).

(** [Retrieve]: the value returned to the caller, and the goroutines
    started on the way (each a function of the slice it will read). *)
Definition Retrieve (reranker : option Reranker) (query : string) (limit : Z)
  : outcome (list SearchResult) * list (list SearchResult -> string) :=
  match Search query (int_mul limit 2) with
  | Err e => (Err ("failed to search index: " +:+ e), [])
  | Panic p => (Panic p, [])
  | Ok results =>
      let started :=
        match reranker with
        | Some rr => if len results >? 0 then [rerankTask rr query] else []
        | None => []
        end in
      if len results >? limit
      then (slice_to results limit, started)
      else (Ok results, started)
  end.

End Retrieve.

(** An indexer that finds nothing, and the hybrid indexer over two
    empty backends. *)
Definition emptySearch (query : string) (limit : Z) : outcome (list SearchResult) := Ok [].

Definition quietSearch : string -> Z -> outcome (list SearchResult) :=
  Search (fun _ => Ok []) (Some (fun _ => Ok (mkQueryResult [] [] []))) (fun _ _ => Ok [])
         mapValues.

(** Three results, a limit of two and a reranker that fails. *)
Definition threeResults : list SearchResult :=
  [mkSearchResult "doc1" "c1" (f32 9 10) "one" [];
   mkSearchResult "doc1" "c2" (f32 5 10) "two" [];
   mkSearchResult "doc2" "c3" (f32 1 10) "three" []].

Definition fixedSearch (query : string) (limit : Z) : outcome (list SearchResult) :=
  Ok threeResults.

Definition failingReranker : Reranker :=
  fun query results => (results, Some "connection reset by peer").

Section RetrieveFacts.

Variable Search : string -> Z -> outcome (list SearchResult).

(** What [Retrieve] returns after a successful search. *)
Lemma Retrieve_ok reranker query limit results :
  Search query (int_mul limit 2) = Ok results ->
  (Retrieve Search reranker query limit).1
  = if len results >? limit then slice_to results limit else Ok results.
Proof.
  intros Hs. unfold Retrieve. rewrite Hs.
  by destruct (len results >? limit).
Qed.

Lemma Retrieve_ok_nonneg reranker query limit results :
  0 <= limit -> Search query (int_mul limit 2) = Ok results ->
  (Retrieve Search reranker query limit).1 = Ok (take (Z.to_nat limit) results).
Proof.
  intros Hl Hs. rewrite (Retrieve_ok _ _ _ _ Hs).
  destruct (len results >? limit) eqn:E.
  - unfold slice_to. apply Z.leb_le in Hl. rewrite Hl.
    assert ((limit <=? len results) = true) as -> by (apply Z.leb_le; lia). done.
  - rewrite take_ge; [done|]. unfold len in E. lia.
Qed.

End RetrieveFacts.

Lemma int_mul_2_small limit : - (2 ^ 62) <= limit < 2 ^ 62 -> int_mul limit 2 = 2 * limit.
Proof.
  intros H. unfold int_mul, wrap64.
  rewrite Z.mod_small by lia. lia.
Qed.

(** C5 as stated fails for a negative limit: after a successful search
    [results[:limit]] panics, and with the hybrid indexer the same
    slice expression panics inside [combineResults]; no list is
    returned. *)
Lemma Retrieve_negative_limit_panics :
  (Retrieve emptySearch None "q" (-1)).1 = Panic "slice bounds out of range" /\
  (Retrieve quietSearch None "q" (-1)).1 = Panic "slice bounds out of range".
Proof. split; reflexivity. Qed.

(** C5, amended. Whatever reranker is set, and whatever it returns, the
    value [Retrieve] returns is the one it returns with no reranker; for
    [0 <= limit < 2^62] and a successful search for [2 * limit]
    candidates it is the first [limit] entries of the search result,
    and a failed search is returned as an error. *)
Theorem Retrieve_ignores_reranker Search reranker query limit :
  (Retrieve Search reranker query limit).1 = (Retrieve Search None query limit).1 /\
  (forall results,
     0 <= limit < 2 ^ 62 -> Search query (2 * limit) = Ok results ->
     (Retrieve Search reranker query limit).1 = Ok (take (Z.to_nat limit) results)) /\
  (forall e,
     Search query (int_mul limit 2) = Err e ->
     (Retrieve Search reranker query limit).1 = Err ("failed to search index: " +:+ e)).
Proof.
  split; [|split].
  - unfold Retrieve. destruct (Search query (int_mul limit 2)); try done.
    by destruct (len a >? limit).
  - intros results Hl Hs. apply Retrieve_ok_nonneg; [lia|].
    rewrite int_mul_2_small by lia. done.
  - intros e Hs. unfold Retrieve. by rewrite Hs.
Qed.

Lemma Retrieve_ignores_reranker_witness :
  (Retrieve fixedSearch (Some failingReranker) "go" 2).1
  = (Retrieve fixedSearch None "go" 2).1 /\
  (Retrieve fixedSearch (Some failingReranker) "go" 2).1
  = Ok (take (Z.to_nat 2) threeResults).
Proof.
  destruct (Retrieve_ignores_reranker fixedSearch (Some failingReranker) "go" 2)
    as (Hsame & Hok & _).
  split; [exact Hsame|]. apply Hok; [lia|reflexivity].
Defined.

End Retriever.

(** ** internal/server: the search handler *)

Module Server.
Import Indexer.

Record SearchRequest : Type := mkSearchRequest {
  Query : string;
  Limit : Z
}.

(** What the handler reads of a request: the method, the decoded JSON
    body ([None] when decoding fails) and the [q] and [limit] query
    parameters ([""] when absent). *)
Record Request : Type := mkRequest {
  Method : string;
  Body : option SearchRequest;
  paramQ : string;
  paramLimit : string
}.

Inductive Response : Type :=
| Status (code : Z) (message : string)
| SearchResponse (query : string) (results : list SearchResult) (total : Z)
| Aborted (p : string).

(** The "Set defaults" block of [handleSearch]. *)
Definition setDefaults (limit : Z) : Z :=
  let limit := if limit =? 0 then 10 else limit in
  if limit >? 100 then 100 else limit.

Section Handler.

(** [s.retriever.Retrieve]. *)
Variable Retrieve : string -> Z -> outcome (list SearchResult).

(** The request after "Parse request", or the error response. *)
Definition parseRequest (r : Request) : Response + SearchRequest :=
  if decide (Method r = "POST") then
    match Body r with
    | Some req => inr req
    | None => inl (Status 400 "Invalid JSON")
    end
  else if decide (paramQ r = "") then
    inl (Status 400 "Missing query parameter 'q'")
  else
    let limit :=
      if decide (paramLimit r = "") then 0
      else match Strconv.Atoi (paramLimit r) with Some limit => limit | None => 0 end in
    inr (mkSearchRequest (paramQ r) limit).

Definition handleSearch (r : Request) : Response :=
  if decide (Method r = "OPTIONS") then Status 200 ""
  else if decide (Method r <> "GET" /\ Method r <> "POST") then
    Status 405 "Method not allowed"
  else
    match parseRequest r with
    | inl resp => resp
    | inr req =>
        let limit := setDefaults (Limit req) in
        match Retrieve (Query req) limit with
        | Err _ => Status 500 "Search failed"
        | Panic p => Aborted p
        | Ok results => SearchResponse (Query req) results (len results)
        end
    end.

End Handler.

(** A [GET /api/search?q=go&limit=-1] request. *)
Definition negativeLimitRequest : Request := mkRequest "GET" None "go" "-1".

(** The handler passes the limit [-1] of that request on, and the
    request is aborted by the panic of [Retrieve]. *)
Lemma handleSearch_negative_limit :
  parseRequest negativeLimitRequest = inr (mkSearchRequest "go" (-1)) /\
  handleSearch (fun q l => (Retriever.Retrieve Retriever.quietSearch None q l).1)
    negativeLimitRequest
  = Aborted "slice bounds out of range".
Proof. split; reflexivity. Qed.

(** C10. For [limit >= 0], whenever the search succeeds [Retrieve]
    returns normally: the truncating slice is in bounds and at most
    [limit] results come back. The handler passes the limit of the
    request on, whether it comes as the [limit] parameter of a [GET]
    or in the body of a [POST], after setting it to 10 when it is 0
    (or absent) and to 100 above 100: a non-negative request limit
    becomes one between 1 and 100, while a negative one reaches
    [Retrieve] as it is. *)
Theorem Retrieve_bounds_and_handler_limit :
  (forall Search reranker query limit results,
     0 <= limit -> Search query (int_mul limit 2) = Ok results ->
     exists out,
       (Retriever.Retrieve Search reranker query limit).1 = Ok out /\
       out = take (Z.to_nat limit) results /\ len out <= limit) /\
  (forall Retrieve body q s n,
     q <> "" -> Strconv.Atoi s = Some n ->
     handleSearch Retrieve (mkRequest "GET" body q s)
     = match Retrieve q (setDefaults n) with
       | Err _ => Status 500 "Search failed"
       | Panic p => Aborted p
       | Ok results => SearchResponse q results (len results)
       end) /\
  (forall Retrieve body q,
     q <> "" ->
     handleSearch Retrieve (mkRequest "GET" body q "")
     = match Retrieve q 10 with
       | Err _ => Status 500 "Search failed"
       | Panic p => Aborted p
       | Ok results => SearchResponse q results (len results)
       end) /\
  (forall Retrieve q n pq pl,
     handleSearch Retrieve (mkRequest "POST" (Some (mkSearchRequest q n)) pq pl)
     = match Retrieve q (setDefaults n) with
       | Err _ => Status 500 "Search failed"
       | Panic p => Aborted p
       | Ok results => SearchResponse q results (len results)
       end) /\
  setDefaults 0 = 10 /\
  (forall limit, 100 < limit -> setDefaults limit = 100) /\
  (forall limit, 0 <= limit -> 1 <= setDefaults limit <= 100) /\
  (forall limit, limit < 0 -> setDefaults limit = limit).
Proof.
  split; [|split; [|split; [|split; [|split; [|split; [|split]]]]]].
  - intros Search reranker query limit results Hl Hs.
    eexists. split; [by apply Retriever.Retrieve_ok_nonneg|]. split; [done|].
    unfold len. rewrite length_take. lia.
  - intros Retrieve body q s n Hq Ha. unfold handleSearch, parseRequest. simpl.
    destruct (decide ("GET" = "OPTIONS")) as [H|_]; [discriminate H|].
    destruct (decide ("GET" <> "GET" /\ "GET" <> "POST")) as [[H _]|_]; [done|].
    destruct (decide ("GET" = "POST")) as [H|_]; [discriminate H|].
    destruct (decide (q = "")) as [H|_]; [done|].
    destruct (decide (s = "")) as [->|_]; [discriminate Ha|].
    by rewrite Ha.
  - intros Retrieve body q Hq. unfold handleSearch, parseRequest. simpl.
    destruct (decide ("GET" = "OPTIONS")) as [H|_]; [discriminate H|].
    destruct (decide ("GET" <> "GET" /\ "GET" <> "POST")) as [[H _]|_]; [done|].
    destruct (decide ("GET" = "POST")) as [H|_]; [discriminate H|].
    destruct (decide (q = "")) as [H|_]; [done|].
    destruct (decide ("" = "")) as [_|H]; [|done].
    reflexivity.
  - intros Retrieve q n pq pl. unfold handleSearch, parseRequest. simpl.
    destruct (decide ("POST" = "OPTIONS")) as [H|_]; [discriminate H|].
    destruct (decide ("POST" <> "GET" /\ "POST" <> "POST")) as [[_ H]|_]; [done|].
    destruct (decide ("POST" = "POST")) as [_|H]; [|done].
    reflexivity.
  - reflexivity.
  - intros limit Hl. unfold setDefaults.
    destruct (limit =? 0) eqn:E; [lia|].
    destruct (limit >? 100) eqn:E'; lia.
  - intros limit Hl. unfold setDefaults.
    destruct (limit =? 0) eqn:E; [simpl; lia|].
    destruct (limit >? 100) eqn:E'; lia.
  - intros limit Hl. unfold setDefaults.
    destruct (limit =? 0) eqn:E; [lia|].
    destruct (limit >? 100) eqn:E'; lia.
Qed.

Lemma Retrieve_bounds_and_handler_limit_witness :
  (exists out,
     (Retriever.Retrieve Retriever.fixedSearch None "go" 2).1 = Ok out /\
     out = take (Z.to_nat 2) Retriever.threeResults /\ len out <= 2) /\
  handleSearch (fun q l => (Retriever.Retrieve Retriever.fixedSearch None q l).1)
               (mkRequest "GET" None "go" "250")
  = SearchResponse "go" Retriever.threeResults 3 /\
  handleSearch (fun q l => (Retriever.Retrieve Retriever.fixedSearch None q l).1)
               (mkRequest "POST" (Some (mkSearchRequest "go" 2)) "" "")
  = SearchResponse "go" (take 2 Retriever.threeResults) 2 /\
  handleSearch (fun q l => (Retriever.Retrieve Retriever.quietSearch None q l).1)
               negativeLimitRequest
  = Aborted "slice bounds out of range" /\
  1 <= setDefaults 250 <= 100 /\
  setDefaults (-1) = -1.
Proof.
  destruct Retrieve_bounds_and_handler_limit
    as (Hret & Hget & _ & Hpost & _ & _ & Hpos & Hneg).
  split; [|split; [|split; [|split; [|split]]]].
  - apply (Hret Retriever.fixedSearch None "go" 2 Retriever.threeResults); [lia|reflexivity].
  - rewrite (Hget _ None "go" "250" 250); [reflexivity|discriminate|reflexivity].
  - rewrite (Hpost _ "go" 2 "" ""). reflexivity.
  - unfold negativeLimitRequest.
    rewrite (Hget _ None "go" "-1" (-1)); [reflexivity|discriminate|reflexivity].
  - apply Hpos. lia.
  - apply Hneg. lia.
Defined.

End Server.

(** ** internal/parser: URL normalization *)

Module Parser.

(** The fields of [url.URL] that [Normalize] and [IsValid] read or
    write; the others ([Opaque], [User], [RawPath], ...) are left as
    [url.Parse] set them. *)
Record URL : Type := mkURL {
  Scheme : string;
  Host : string;
  Path : string;
  RawQuery : string;
  Fragment : string
}.

#[global] Instance URL_eq_dec : EqDecision URL.
Proof. solve_decision. Defined.

Definition setScheme (u : URL) (v : string) : URL :=
  mkURL v (Host u) (Path u) (RawQuery u) (Fragment u).
Definition setHost (u : URL) (v : string) : URL :=
  mkURL (Scheme u) v (Path u) (RawQuery u) (Fragment u).
Definition setPath (u : URL) (v : string) : URL :=
  mkURL (Scheme u) (Host u) v (RawQuery u) (Fragment u).
Definition setRawQuery (u : URL) (v : string) : URL :=
  mkURL (Scheme u) (Host u) (Path u) v (Fragment u).
Definition setFragment (u : URL) (v : string) : URL :=
  mkURL (Scheme u) (Host u) (Path u) (RawQuery u) v.

(** [net/url]'s [validOptionalPort]: empty, or a colon and digits. *)
Definition isDigit (c : Ascii.ascii) : bool :=
  let n := Ascii.nat_of_ascii c in ((48 <=? n) && (n <=? 57))%nat.

Fixpoint allDigits (s : string) : bool :=
  match s with
  | EmptyString => true
  | String c s' => isDigit c && allDigits s'
  end.

Definition validOptionalPort (port : string) : bool :=
  match port with
  | EmptyString => true
  | String c rest => Ascii.eqb c (Ascii.ascii_of_nat 58) && allDigits rest
  end.

(** [net/url]'s [splitHostPort]. *)
Definition splitHostPort (hostPort : string) : string * string :=
  let '(host, port) :=
    match Strings.LastIndexByte hostPort (Ascii.ascii_of_nat 58) with
    | Some colon =>
        if validOptionalPort (Strings.from colon hostPort)
        then (String.substring 0 colon hostPort, Strings.from (S colon) hostPort)
        else (hostPort, EmptyString)
    | None => (hostPort, EmptyString)
    end in
  let host :=
    if Strings.HasPrefix host "[" && Strings.HasSuffix host "]"
    then String.substring 1 (String.length host - 2) host
    else host in
  (host, port).

Definition Hostname (u : URL) : string := (splitHostPort (Host u)).1.
Definition Port (u : URL) : string := (splitHostPort (Host u)).2.

Section Normalizer.

(** The rest of [net/url] is taken as given: [url.Parse],
    [URL.ResolveReference], [u.Query().Encode()] and
    [u.Query().Get(key)], the last two as functions of [RawQuery]. *)
Variable Parse : string -> outcome URL.
Variable ResolveReference : URL -> URL -> URL.
Variable QueryEncode : string -> string.
Variable QueryGet : string -> string -> string.

Definition Normalize (rawURL : string) (baseURL : option URL) : outcome URL :=
  match Parse rawURL with
  | Err e => Err e
  | Panic p => Panic p
  | Ok u =>
      let u := match baseURL with
               | Some base => ResolveReference base u
               | None => u
               end in
      let u := if decide (Scheme u = "http") then setScheme u "https" else u in
      let u := setHost u (Strings.ToLower (Host u)) in
      let u :=
        if decide (Scheme u = "https" /\ Port u = "443") then setHost u (Hostname u)
        else if decide (Scheme u = "http" /\ Port u = "80") then setHost u (Hostname u)
        else u in
      let u := setPath u (Strings.TrimSuffix (Path u) "/") in
      let u := if decide (Path u = "") then setPath u "/" else u in
      let u := setFragment u "" in
      let u := setRawQuery u (QueryEncode (RawQuery u)) in
      Ok u
  end.

Definition skipExtensions : list string :=
  [".pdf"; ".doc"; ".docx"; ".xls"; ".xlsx"; ".ppt"; ".pptx"; ".zip"; ".rar";
   ".tar"; ".gz"; ".jpg"; ".jpeg"; ".png"; ".gif"; ".svg"; ".ico"; ".css";
   ".js"; ".xml"; ".json"].

Definition skipPaths : list string :=
  ["/admin"; "/login"; "/logout"; "/api/"; "/static/"; "/assets/"; "/images/";
   "/css/"; "/js/"].

Definition IsValid (u : URL) : bool :=
  if decide (Scheme u = "") then false
  else if decide (Scheme u <> "http" /\ Scheme u <> "https") then false
  else if decide (Host u = "") then false
  else
    let ext := Strings.ToLower (Path u) in
    if existsb (fun skipExt => Strings.HasSuffix ext skipExt) skipExtensions then false
    else if existsb (fun skipPath => Strings.HasPrefix (Path u) skipPath) skipPaths then false
    else if bool_decide (QueryGet (RawQuery u) "download" <> "")
            || bool_decide (QueryGet (RawQuery u) "attachment" <> "")
            || bool_decide (QueryGet (RawQuery u) "format" = "pdf") then false
    else true.

End Normalizer.

(** *** [net/url] on plain URLs

    [url.Parse], [URL.String] and [url.Values.Encode] for URLs of the
    shape [scheme://host/path?query#fragment] with no user
    information and no character that needs escaping: for them
    parsing is cutting the string at [#], [:], [?] and the first [/]
    after [//]. *)

(** [strings.Cut] at a byte. *)
Fixpoint cut (c : Ascii.ascii) (s : string) : option (string * string) :=
  match s with
  | EmptyString => None
  | String d s' =>
      if Ascii.eqb d c then Some (EmptyString, s')
      else match cut c s' with
           | Some (before, after) => Some (String d before, after)
           | None => None
           end
  end.

Definition isLetter (c : Ascii.ascii) : bool :=
  let n := Ascii.nat_of_ascii c in
  (((65 <=? n) && (n <=? 90)) || ((97 <=? n) && (n <=? 122)))%nat.

Definition isSchemeExtra (c : Ascii.ascii) : bool :=
  let n := Ascii.nat_of_ascii c in
  (isDigit c || (n =? 43) || (n =? 45) || (n =? 46))%nat.

(** [net/url]'s [getScheme]: the scheme and the rest, [None] for
    "missing protocol scheme". *)
Fixpoint getSchemeFrom (first : bool) (s : string) : option (option (string * string)) :=
  match s with
  | EmptyString => Some None
  | String c s' =>
      if isLetter c || (negb first && isSchemeExtra c) then
        match getSchemeFrom false s' with
        | Some (Some (scheme, rest)) => Some (Some (String c scheme, rest))
        | other => other
        end
      else if isSchemeExtra c then Some None
      else if Ascii.eqb c (Ascii.ascii_of_nat 58) then
        if first then None else Some (Some (EmptyString, s'))
      else Some None
  end.

Definition plainParse (rawURL : string) : outcome URL :=
  let '(rest, frag) :=
    match cut (Ascii.ascii_of_nat 35) rawURL with
    | Some (r, f) => (r, f)
    | None => (rawURL, EmptyString)
    end in
  match getSchemeFrom true rest with
  | None => Err "missing protocol scheme"
  | Some parsed =>
      let '(scheme, rest) :=
        match parsed with
        | Some (sch, r) => (Strings.ToLower sch, r)
        | None => (EmptyString, rest)
        end in
      let '(rest, query) :=
        match cut (Ascii.ascii_of_nat 63) rest with
        | Some (r, q) => (r, q)
        | None => (rest, EmptyString)
        end in
      if Strings.HasPrefix rest "//" then
        let authority := Strings.from 2 rest in
        match cut (Ascii.ascii_of_nat 47) authority with
        | Some (host, path) => Ok (mkURL scheme host (String (Ascii.ascii_of_nat 47) path) query frag)
        | None => Ok (mkURL scheme authority EmptyString query frag)
        end
      else if Strings.HasPrefix rest "/" || bool_decide (scheme = "") then
        Ok (mkURL scheme EmptyString rest query frag)
      else Err "opaque URL"
  end.

Definition plainString (u : URL) : string :=
  (if decide (Scheme u = "") then "" else Scheme u +:+ ":") +:+
  (if decide (Scheme u = "" /\ Host u = "") then ""
   else (if decide (Host u = "" /\ Path u = "") then "" else "//") +:+ Host u) +:+
  (if decide (Path u <> "" /\ Strings.HasPrefix (Path u) "/" = false /\ Host u <> "")
   then "/" else "") +:+
  Path u +:+
  (if decide (RawQuery u = "") then "" else "?" +:+ RawQuery u) +:+
  (if decide (Fragment u = "") then "" else "#" +:+ Fragment u).

(** [strings.Split] at a byte. *)
Fixpoint splitOn (c : Ascii.ascii) (s : string) : list string :=
  match s with
  | EmptyString => [EmptyString]
  | String d s' =>
      if Ascii.eqb d c then EmptyString :: splitOn c s'
      else match splitOn c s' with
           | w :: ws => String d w :: ws
           | [] => [String d EmptyString]
           end
  end.

Definition queryPair (kv : string) : string * string :=
  match cut (Ascii.ascii_of_nat 61) kv with
  | Some (k, v) => (k, v)
  | None => (kv, EmptyString)
  end.

Fixpoint insertByKey (p : string * string) (l : list (string * string))
  : list (string * string) :=
  match l with
  | [] => [p]
  | q :: l' => if String.leb q.1 p.1 then q :: insertByKey p l' else p :: l
  end.

(** [u.Query().Encode()]: the pairs, sorted by key, values of one key
    in their order. *)
Definition plainQueryEncode (rawQuery : string) : string :=
  let pairs := queryPair <$> filter (fun kv => kv <> EmptyString)
                               (splitOn (Ascii.ascii_of_nat 38) rawQuery) in
  let sorted := foldl (fun acc p => insertByKey p acc) [] pairs in
  String.concat "&" ((fun p => p.1 +:+ "=" +:+ p.2) <$> sorted).

(** [Normalize] with no base URL, on plain URLs. *)
Definition plainNormalize (rawURL : string) : outcome URL :=
  Normalize plainParse (fun _ u => u) plainQueryEncode rawURL None.

(** *** Properties of [Normalize] *)

Definition twoSlashes : string := "https://example.com/a//".

(** C8. [Normalize] is not idempotent. [strings.TrimSuffix] removes one
    trailing slash: [https://example.com/a//] is normalized to
    [https://example.com/a/], and normalizing that URL again gives
    [https://example.com/a]. *)
Theorem Normalize_not_idempotent :
  plainNormalize twoSlashes = Ok (mkURL "https" "example.com" "/a/" "" "") /\
  plainString (mkURL "https" "example.com" "/a/" "" "") = "https://example.com/a/" /\
  plainNormalize "https://example.com/a/" = Ok (mkURL "https" "example.com" "/a" "" "") /\
  mkURL "https" "example.com" "/a/" "" "" <> mkURL "https" "example.com" "/a" "" "".
Proof. repeat split; try reflexivity. discriminate. Qed.

(** The steps of [Normalize] other than the path step are stable on
    their own output; the path step is, once no slash is left to trim. *)
Lemma lowerByte_idemp c : Strings.lowerByte (Strings.lowerByte c) = Strings.lowerByte c.
Proof.
  destruct c as [[] [] [] [] [] [] [] []]; reflexivity.
Qed.

Lemma ToLower_idemp s : Strings.ToLower (Strings.ToLower s) = Strings.ToLower s.
Proof.
  induction s as [|c s IH]; simpl; [done|]. by rewrite lowerByte_idemp, IH.
Qed.

End Parser.

(** ** internal/crawler *)

Module Crawler.
Import Parser.

(** *** HTTP as the crawler sees it *)

(** A response body: its bytes, and the error reading it ends with,
    if any. *)
Record Body : Type := mkBody {
  content : string;
  readErr : option string
}.

Record Response : Type := mkResponse {
  StatusCode : Z;
  ContentType : string;
  RespBody : Body
}.

(** [http.StatusOK] *)
Definition StatusOK : Z := 200.

(** [time.Second], a [time.Duration] in nanoseconds. *)
Definition Second : Z := 1000000000.

(** [io.LimitReader(body, n)]: at most [n] bytes are read; the error
    behind them is met only when the body is shorter than [n]. *)
Definition LimitReader (b : Body) (n : Z) : Body :=
  mkBody (String.substring 0 (Z.to_nat n) (content b))
         (if Z.of_nat (String.length (content b)) <? n then readErr b else None).

(** *** robots.go *)

Record Robots : Type := mkRobots {
  UserAgent : string;
  Disallow : list string;
  CrawlDelay : Z
}.

(** The policy [GetRobots] builds when robots.txt cannot be had. *)
Definition permissive (userAgent : string) : Robots := mkRobots userAgent [] 0.

(** [bufio.Scanner] with the default line splitter: the lines of the
    body without their end-of-line markers, up to the first line that
    does not fit the 64 KiB buffer, and [scanner.Err()]. *)
Definition dropCR (line : string) : string := Strings.TrimSuffix line (String (Ascii.ascii_of_nat 13) "").

Definition splitLines (s : string) : list string :=
  let pieces := splitOn (Ascii.ascii_of_nat 10) s in
  match reverse pieces with
  | EmptyString :: rest => reverse rest
  | _ => pieces
  end.

Definition MaxScanTokenSize : Z := 64 * 1024.

Fixpoint scanTokens (lines : list string) : list string * option string :=
  match lines with
  | [] => ([], None)
  | l :: ls =>
      if MaxScanTokenSize <=? Z.of_nat (String.length l)
      then ([], Some "bufio.Scanner: token too long")
      else let '(rest, err) := scanTokens ls in (dropCR l :: rest, err)
  end.

Definition scanLines (b : Body) : list string * option string :=
  let '(lines, err) := scanTokens (splitLines (content b)) in
  (lines, match err with Some e => Some e | None => readErr b end).

(** State of the loop of [parseRobotsTxt]. *)
Record robotsScan : Type := mkRobotsScan {
  robots : Robots;
  currentUserAgent : string;
  inUserAgentSection : bool
}.

(** One iteration of the loop over the scanned lines. *)
Definition parseRobotsLine (userAgent : string) (st : robotsScan) (text : string)
  : robotsScan :=
  let line := Strings.TrimSpace text in
  if bool_decide (line = "") || Strings.HasPrefix line "#" then st
  else if Strings.HasPrefix (Strings.ToLower line) "user-agent:" then
    let cur := Strings.TrimSpace (Strings.from 11 line) in
    mkRobotsScan (robots st) cur (bool_decide (cur = "*") || bool_decide (cur = userAgent))
  else if negb (inUserAgentSection st) then st
  else if Strings.HasPrefix (Strings.ToLower line) "disallow:" then
    let path := Strings.TrimSpace (Strings.from 9 line) in
    if bool_decide (path <> "")
    then mkRobotsScan
           (mkRobots (UserAgent (robots st)) (Disallow (robots st) ++ [path])
                     (CrawlDelay (robots st)))
           (currentUserAgent st) (inUserAgentSection st)
    else st
  else if Strings.HasPrefix (Strings.ToLower line) "crawl-delay:" then
    let delayStr := Strings.TrimSpace (Strings.from 12 line) in
    match Strconv.Atoi delayStr with
    | Some delay =>
        mkRobotsScan
          (mkRobots (UserAgent (robots st)) (Disallow (robots st)) (int_mul delay Second))
          (currentUserAgent st) (inUserAgentSection st)
    | None => st
    end
  else st.

(** [parseRobotsTxt]: the policy and [scanner.Err()]. *)
Definition parseRobotsTxt (body : Body) (userAgent : string) : Robots * option string :=
  let '(lines, err) := scanLines body in
  let st := foldl (parseRobotsLine userAgent)
                  (mkRobotsScan (permissive userAgent) "" false) lines in
  (robots st, err).

Definition CanCrawl (r : Robots) (urlPath : string) : bool :=
  negb (existsb (fun disallowPath => Strings.HasPrefix urlPath disallowPath) (Disallow r)).

(** [RobotsCache.GetRobots] with the cache [cache]; [get] is
    [client.Get]. Returns the policy, the cache afterwards and the URLs
    requested. The error result of the source is always [nil]. *)
Definition GetRobots (cache : gmap string Robots) (get : string -> outcome Response)
    (domain userAgent : string) : Robots * gmap string Robots * list string :=
  match cache !! domain with
  | Some robots => (robots, cache, [])
  | None =>
      let robotsURL := "https://" +:+ domain +:+ "/robots.txt" in
      match get robotsURL with
      | Ok resp =>
          match parseRobotsTxt (RespBody resp) userAgent with
          | (robots, None) => (robots, <[domain := robots]> cache, [robotsURL])
          | (_, Some _) => (permissive userAgent, cache, [robotsURL])
          end
      | _ => (permissive userAgent, cache, [robotsURL])
      end
  end.

(** *** crawler.go: configuration *)

Record Config : Type := mkConfig {
  MaxWorkers : Z;
  RateLimit : float;
  MaxPageSize : Z;
  CfgUserAgent : string;
  Timeout : Z;
  RespectRobots : bool
}.

(** A [time.Ticker]: its period, the time it was created, the time its
    channel was last emptied (by a receive; at first, by its creation)
    and the time of its [Stop]. Times are in nanoseconds. The ticker
    sends a tick at [created + k * period] for k = 1, 2, ... until it is
    stopped; its channel holds one tick, and a tick that finds the
    channel full is dropped. *)
Record Ticker : Type := mkTicker {
  period : Z;
  created : Z;
  emptied : Z;
  stopped : option Z
}.

(** The mutable part of the [crawler] struct: the configuration, the
    robots cache and the per-domain tickers. A [*time.Ticker] is the
    index of the ticker among [tickers], the tickers created so far. *)
Record crawler : Type := mkCrawler {
  config : Config;
  robotsCache : gmap string Robots;
  rateLimiters : gmap string nat;
  tickers : list Ticker
}.

Definition NewCrawler (cfg : Config) : crawler :=
  let userAgent := if bool_decide (CfgUserAgent cfg = "") then "ai-search/1.0" else CfgUserAgent cfg in
  let maxWorkers := if MaxWorkers cfg =? 0 then 10 else MaxWorkers cfg in
  let rateLimit := if (RateLimit cfg =? 0)%float then 1%float else RateLimit cfg in
  let maxPageSize := if MaxPageSize cfg =? 0 then 1024 * 1024 else MaxPageSize cfg in
  let timeout := if Timeout cfg =? 0 then 30 else Timeout cfg in
  mkCrawler (mkConfig maxWorkers rateLimit maxPageSize userAgent timeout (RespectRobots cfg))
            ∅ ∅ [].

(** [ticker.Stop()] at [now]. *)
Definition stopTicker (now : Z) (tk : Ticker) : Ticker :=
  mkTicker (period tk) (created tk) (emptied tk)
           (match stopped tk with Some before => Some before | None => Some now end).

(** [SetRateLimit] called at [now]: the tickers in the map are stopped
    and the map is replaced by an empty one. *)
Definition SetRateLimit (c : crawler) (rate : float) (now : Z) : crawler :=
  mkCrawler
    (mkConfig (MaxWorkers (config c)) rate (MaxPageSize (config c))
              (CfgUserAgent (config c)) (Timeout (config c)) (RespectRobots (config c)))
    (robotsCache c) ∅
    (foldr (fun ticker all => alter (stopTicker now) ticker all) (tickers c)
           (map_to_list (rateLimiters c)).*2).

Definition SetMaxWorkers (c : crawler) (workers : Z) : crawler :=
  mkCrawler
    (mkConfig workers (RateLimit (config c)) (MaxPageSize (config c))
              (CfgUserAgent (config c)) (Timeout (config c)) (RespectRobots (config c)))
    (robotsCache c) (rateLimiters c) (tickers c).

(** *** crawler.go: rate limiting *)

(** The integer part of a finite float, when it is an [int64]. *)
Definition truncFloat (f : float) : option Z :=
  match Prim2SF f with
  | S754_zero _ => Some 0
  | S754_finite s m e =>
      let mag := if 0 <=? e then Z.pos m * 2 ^ e else Z.pos m / 2 ^ (- e) in
      let v := if s then - mag else mag in
      if (- (2 ^ 63) <=? v) && (v <? 2 ^ 63) then Some v else None
  | _ => None
  end.

Section RateLimit.

(** Go leaves the conversion of a float that is no [int64] to the
    implementation: [unrepresentable] is its answer. *)
Variable unrepresentable : float -> Z.

(** [time.Duration(x)] for a [float64] [x]. *)
Definition toDuration (x : float) : Z :=
  match truncFloat x with
  | Some v => v
  | None => unrepresentable x
  end.

(** The period of the ticker [rateLimit] creates for a new domain. *)
Definition tickerInterval (rate : float) : Z :=
  let interval := int_mul (toDuration (1 / rate)%float) Second in
  if interval <=? 0 then Second else interval.

End RateLimit.

(** Whether the float is the whole number [n]. *)
Definition wholeFloat (f : float) (n : Z) : bool :=
  match Prim2SF f with
  | S754_zero _ => n =? 0
  | S754_finite s m e =>
      let v := if s then Z.neg m else Z.pos m in
      if 0 <=? e then n =? v * 2 ^ e else v =? n * 2 ^ (- e)
  | _ => false
  end.

(** [time.NewTicker(interval)] at [now]: the new ticker is the last of
    [tickers]. *)
Definition NewTicker (c : crawler) (interval now : Z) : crawler * nat :=
  (mkCrawler (config c) (robotsCache c) (rateLimiters c)
             (tickers c ++ [mkTicker interval now now None]),
   length (tickers c)).

(** [c.rateLimiters[domain] = ticker] *)
Definition register (c : crawler) (domain : string) (ticker : nat) : crawler :=
  mkCrawler (config c) (robotsCache c) (<[domain := ticker]> (rateLimiters c)) (tickers c).

(** The first tick sent after the channel was last emptied. *)
Definition nextTick (tk : Ticker) : Z :=
  created tk + ((emptied tk - created tk) / period tk + 1) * period tk.

(** When a receive from [ticker.C] that starts at [since] gets a tick:
    at once when one is in the channel, else when the next one is
    sent; never when the ticker is stopped before that. *)
Definition tickAt (tk : Ticker) (since : Z) : option Z :=
  let tick := nextTick tk in
  let sent := match stopped tk with Some stop => tick <=? stop | None => true end in
  if sent then Some (Z.max since tick) else None.

(** [time.After(5 * time.Second)] *)
Definition limiterTimeout : Z := 5 * Second.

(** The case of the [select] of [rateLimit] that is taken. *)
Inductive selected : Type := ByTick | ByTimeout.

(** The [select] of [rateLimit], entered at [since]: when it is left
    and by which case, the one that is ready first; [preferTimeout] is
    the choice when both are ready at the same time. *)
Definition awaitTicker (tk : Ticker) (since : Z) (preferTimeout : bool) : Z * selected :=
  let deadline := since + limiterTimeout in
  match tickAt tk since with
  | Some tick =>
      if (tick <? deadline) || ((tick =? deadline) && negb preferTimeout)
      then (tick, ByTick)
      else (deadline, ByTimeout)
  | None => (deadline, ByTimeout)
  end.

(** The channel of the ticker is emptied at [release]. *)
Definition takeTick (release : Z) (tk : Ticker) : Ticker :=
  mkTicker (period tk) (created tk) release (stopped tk).

(** The crawler after the [select] is left. *)
Definition selectDone (c : crawler) (ticker : nat) (release : Z) (fired : selected) : crawler :=
  match fired with
  | ByTick =>
      mkCrawler (config c) (robotsCache c) (rateLimiters c)
                (alter (takeTick release) ticker (tickers c))
  | ByTimeout => c
  end.

(** [rateLimit] called at [now] by a goroutine that no other one
    interleaves with: the crawler afterwards, the time at which the
    call returns and the case of the [select] it returns by ([None]
    when it does not reach the [select]). *)
Definition rateLimit (unrepresentable : float -> Z) (c : crawler) (u : URL) (now : Z)
    (preferTimeout : bool) : crawler * Z * option selected :=
  if (RateLimit (config c) <=? 0)%float then (c, now, None)
  else
    let domain := Host u in
    let '(c, ticker) :=
      match rateLimiters c !! domain with
      | Some ticker => (c, ticker)
      | None =>
          let interval := tickerInterval unrepresentable (RateLimit (config c)) in
          let '(c, ticker) := NewTicker c interval now in
          (register c domain ticker, ticker)
      end in
    match tickers c !! ticker with
    | Some tk =>
        let '(release, fired) := awaitTicker tk now preferTimeout in
        (selectDone c ticker release fired, release, Some fired)
    | None => (c, now, None)
    end.

(** *** crawler.go: fetching a page *)

(** [parser.ParsedContent] *)
Record ParsedContent : Type := mkParsedContent {
  ParsedTitle : string;
  ParsedText : string;
  ParsedMetaDesc : string;
  ParsedLinks : list URL;
  ParsedHash : string
}.

Record Page : Type := mkPage {
  PageURL : URL;
  Title : string;
  Content : string;
  MetaDesc : string;
  Links : list URL;
  ContentHash : string;
  Depth : Z
}.

Definition setDepth (p : Page) (d : Z) : Page :=
  mkPage (PageURL p) (Title p) (Content p) (MetaDesc p) (Links p) (ContentHash p) d.

Section Fetch.

(** The collaborators of the crawler: its [parser.Parser] and
    [parser.URLNormalizer], [URL.String] and SHA-256 in hexadecimal. *)
Variable ParseHTML : Body -> URL -> outcome ParsedContent.
Variable Normalize : string -> option URL -> outcome URL.
Variable IsValid : URL -> bool.
Variable URLString : URL -> string.
Variable sha256hex : string -> string.

(** The "Normalize links" loop. *)
Definition normalizeLinks (links : list URL) (targetURL : URL) : list URL :=
  omap (fun link =>
          match Normalize (URLString link) (Some targetURL) with
          | Ok normalized => if IsValid normalized then Some normalized else None
          | _ => None
          end) links.

(** [fetchAndParse] from the content-type check on. *)
Definition parseResponse (c : crawler) (resp : Response) (targetURL : URL) : outcome Page :=
  if negb (Strings.Contains (ContentType resp) "text/html")
  then Err ("unsupported content type: " +:+ ContentType resp)
  else
    match ParseHTML (LimitReader (RespBody resp) (MaxPageSize (config c))) targetURL with
    | Err e => Err e
    | Panic p => Panic p
    | Ok parsed =>
        Ok (mkPage targetURL (ParsedTitle parsed) (ParsedText parsed)
                   (ParsedMetaDesc parsed)
                   (normalizeLinks (ParsedLinks parsed) targetURL)
                   (sha256hex (ParsedText parsed)) 0)
    end.

(** [fetchAndParse]; [do] is the result of building the request and of
    [c.client.Do]. *)
Definition fetchAndParse (c : crawler) (do : outcome Response) (targetURL : URL)
  : outcome Page :=
  match do with
  | Err e => Err e
  | Panic p => Panic p
  | Ok resp =>
      if bool_decide (StatusCode resp <> StatusOK)
      then Err ("HTTP " +:+ pretty (StatusCode resp))
      else parseResponse c resp targetURL
  end.

End Fetch.

(** *** crawler.go: the worker pool as a transition system

    One crawl is a set of workers running [worker] concurrently over
    the shared frontier channel, visited map and crawler. Each worker
    is at a point of its loop ([workerState]); a step is one worker
    moving to its next point, touching the shared state once. The
    schedule, the answers of the network and the choice [select] makes
    when two cases are ready come from outside, as a list of
    [action]s. *)

Record urlWithDepth : Type := mkTarget {
  url : URL;
  depth : Z
}.

Inductive workerState : Type :=
| AtSelect                                         (* at the [select] of the loop *)
| Received (t : urlWithDepth)                      (* holds [urlData], before [RLock] *)
| Unvisited (t : urlWithDepth)                     (* read [visited[urlStr]] as false, after [RUnlock] *)
| Marked (t : urlWithDepth)                        (* wrote [visited[urlStr] = true] *)
| Allowed (t : urlWithDepth)                       (* past the robots check *)
| NoTicker (t : urlWithDepth)                      (* read no ticker for the domain, after [RUnlock] *)
| Created (t : urlWithDepth) (ticker : nat)        (* holds its new ticker, before [Lock] *)
| Waiting (t : urlWithDepth) (ticker : nat) (since : Z) (* at the [select] of [rateLimit] since [since] *)
| RateLimited (t : urlWithDepth)                   (* past [rateLimit] *)
| Fetched (t : urlWithDepth) (r : outcome Page)    (* [fetchAndParse] returned *)
| Enqueueing (t : urlWithDepth) (links : list URL) (* in the loop over [page.Links] *)
| Returned.

Inductive event : Type :=
| EvReceive (t : urlWithDepth)
| EvAlreadyVisited (t : urlWithDepth)
| EvProcess (t : urlWithDepth)
| EvRobotsSkip (t : urlWithDepth)
| EvWait (t : urlWithDepth) (release : option (Z * selected))
| EvFetch (t : urlWithDepth)
| EvPage (p : Page)
| EvError (msg : string)
| EvEnqueue (parent child : urlWithDepth)
| EvReturn.

(** What the workers share: the crawler [c], [urlChan], [visited], the
    two output channels and whether [ctx] is done. *)
Record shared : Type := mkShared {
  self : crawler;
  urlChan : list urlWithDepth;
  visited : gset string;
  pageChan : list Page;
  errorChan : list string;
  ctxDone : bool
}.

Definition urlChanCap : Z := 1000.
Definition pageChanCap : Z := 100.
Definition errorChanCap : Z := 100.

(** What a step takes from outside: the case a [select] with two ready
    cases picks, the answer to the HTTP request the step sends, and the
    time at which the step happens. *)
Record oracle : Type := mkOracle {
  takeDone : bool;
  httpResponse : outcome Response;
  clock : Z;
  preferTimeout : bool
}.

Inductive action : Type :=
| Work (i : nat) (o : oracle) (* worker [i] moves *)
| Cancel                      (* [ctx] is cancelled or times out *)
| TakePage                    (* the consumer receives from [pageChan] *)
| TakeError.                  (* the consumer receives from [errorChan] *)

Definition state : Type := shared * list workerState.

Section Worker.

Variable ParseHTML : Body -> URL -> outcome ParsedContent.
Variable Normalize : string -> option URL -> outcome URL.
Variable IsValid : URL -> bool.
Variable URLString : URL -> string.
Variable sha256hex : string -> string.
Variable unrepresentable : float -> Z.

(** [maxDepth] of the call to [Crawl]. *)
Variable maxDepth : Z.

(** One step of [worker]. [None]: the worker cannot move (it is blocked
    on a channel or on the [select] of [rateLimit], has returned, or
    the program has panicked). The robots lookup is taken as one step;
    [rateLimit] is a step for each access to the map and one for its
    [select], which is left at the time it fires, however late the
    step is. *)
Definition workerStep (o : oracle) (s : shared) (w : workerState)
  : option (shared * workerState * list event) :=
  match w with
  | AtSelect =>
      if ctxDone s && (takeDone o || bool_decide (urlChan s = []))
      then Some (s, Returned, [EvReturn])
      else match urlChan s with
           | urlData :: rest =>
               Some (mkShared (self s) rest (visited s) (pageChan s) (errorChan s) (ctxDone s),
                     Received urlData, [EvReceive urlData])
           | [] => None
           end
  | Received t =>
      if bool_decide (URLString (url t) ∈ visited s)
      then Some (s, AtSelect, [EvAlreadyVisited t])
      else Some (s, Unvisited t, [])
  | Unvisited t =>
      Some (mkShared (self s) (urlChan s) ({[URLString (url t)]} ∪ visited s)
                     (pageChan s) (errorChan s) (ctxDone s),
            Marked t, [EvProcess t])
  | Marked t =>
      if RespectRobots (config (self s)) then
        let '(robots, cache, _) :=
          GetRobots (robotsCache (self s)) (fun _ => httpResponse o)
                    (Host (url t)) (CfgUserAgent (config (self s))) in
        let s' := mkShared (mkCrawler (config (self s)) cache (rateLimiters (self s))
                                      (tickers (self s)))
                           (urlChan s) (visited s) (pageChan s) (errorChan s) (ctxDone s) in
        if CanCrawl robots (Path (url t))
        then Some (s', Allowed t, [])
        else Some (s', AtSelect, [EvRobotsSkip t])
      else Some (s, Allowed t, [])
  | Allowed t =>
      if (RateLimit (config (self s)) <=? 0)%float
      then Some (s, RateLimited t, [EvWait t None])
      else match rateLimiters (self s) !! Host (url t) with
           | Some ticker => Some (s, Waiting t ticker (clock o), [])
           | None => Some (s, NoTicker t, [])
           end
  | NoTicker t =>
      let interval := tickerInterval unrepresentable (RateLimit (config (self s))) in
      let '(c, ticker) := NewTicker (self s) interval (clock o) in
      Some (mkShared c (urlChan s) (visited s) (pageChan s) (errorChan s) (ctxDone s),
            Created t ticker, [])
  | Created t ticker =>
      Some (mkShared (register (self s) (Host (url t)) ticker)
                     (urlChan s) (visited s) (pageChan s) (errorChan s) (ctxDone s),
            Waiting t ticker (clock o), [])
  | Waiting t ticker since =>
      match tickers (self s) !! ticker with
      | Some tk =>
          let '(release, fired) := awaitTicker tk since (preferTimeout o) in
          if release <=? clock o
          then Some (mkShared (selectDone (self s) ticker release fired)
                              (urlChan s) (visited s) (pageChan s) (errorChan s) (ctxDone s),
                     RateLimited t, [EvWait t (Some (release, fired))])
          else None
      | None => None
      end
  | RateLimited t =>
      Some (s,
            Fetched t (fetchAndParse ParseHTML Normalize IsValid URLString sha256hex
                         (self s) (httpResponse o) (url t)),
            [EvFetch t])
  | Fetched t (Err e) =>
      if len (errorChan s) <? errorChanCap then
        let msg := "failed to fetch " +:+ URLString (url t) +:+ ": " +:+ e in
        Some (mkShared (self s) (urlChan s) (visited s) (pageChan s)
                       (errorChan s ++ [msg]) (ctxDone s),
              AtSelect, [EvError msg])
      else None
  | Fetched t (Ok page) =>
      if len (pageChan s) <? pageChanCap then
        let page := setDepth page (depth t) in
        Some (mkShared (self s) (urlChan s) (visited s) (pageChan s ++ [page])
                       (errorChan s) (ctxDone s),
              (if depth t <? maxDepth then Enqueueing t (Links page) else AtSelect),
              [EvPage page])
      else None
  | Fetched t (Panic _) => None
  | Enqueueing t [] => Some (s, AtSelect, [])
  | Enqueueing t (link :: rest) =>
      let full := negb (len (urlChan s) <? urlChanCap) in
      if ctxDone s && (takeDone o || full)
      then Some (s, Returned, [EvReturn])
      else if full then None
      else
        let child := mkTarget link (int_add (depth t) 1) in
        Some (mkShared (self s) (urlChan s ++ [child]) (visited s) (pageChan s)
                       (errorChan s) (ctxDone s),
              Enqueueing t rest, [EvEnqueue t child])
  | Returned => None
  end.

Definition step (st : state) (a : action) : option (state * list event) :=
  let '(s, ws) := st in
  match a with
  | Work i o =>
      match ws !! i with
      | Some w =>
          match workerStep o s w with
          | Some (s', w', evs) => Some ((s', <[i := w']> ws), evs)
          | None => None
          end
      | None => None
      end
  | Cancel =>
      Some ((mkShared (self s) (urlChan s) (visited s) (pageChan s) (errorChan s) true, ws), [])
  | TakePage =>
      match pageChan s with
      | _ :: rest =>
          Some ((mkShared (self s) (urlChan s) (visited s) rest (errorChan s) (ctxDone s), ws), [])
      | [] => None
      end
  | TakeError =>
      match errorChan s with
      | _ :: rest =>
          Some ((mkShared (self s) (urlChan s) (visited s) (pageChan s) rest (ctxDone s), ws), [])
      | [] => None
      end
  end.

(** A run: the actions in turn, with the events they produce. *)
Fixpoint run (st : state) (acts : list action) : option (state * list event) :=
  match acts with
  | [] => Some (st, [])
  | a :: rest =>
      match step st a with
      | Some (st', evs) =>
          match run st' rest with
          | Some (st'', tr) => Some (st'', evs ++ tr)
          | None => None
          end
      | None => None
      end
  end.

(** [Crawl]: the workers are started and the start URL is sent at
    depth 0. *)
Definition Crawl (c : crawler) (startURL : URL) : state :=
  (mkShared c [mkTarget startURL 0] ∅ [] [] false,
   replicate (Z.to_nat (MaxWorkers (config c))) AtSelect).

End Worker.

(** The targets passed to [fetchAndParse], in order. *)
Definition fetches (tr : list event) : list urlWithDepth :=
  omap (fun ev => match ev with EvFetch t => Some t | _ => None end) tr.

(** No target waits in the frontier and no worker is inside an
    iteration of its loop. *)
Definition idle (w : workerState) : Prop := w = AtSelect \/ w = Returned.

Definition quiescent (st : state) : Prop :=
  urlChan st.1 = [] /\ Forall idle st.2.

(** *** A two-page site

    The start page [https://a.example/] links twice to
    [https://a.example/b], which links nowhere. Both are served as
    HTML with status 200. *)

Definition pageA : URL := mkURL "https" "a.example" "/" "" "".
Definition pageB : URL := mkURL "https" "a.example" "/b" "" "".

Definition siteParseHTML (body : Body) (targetURL : URL) : outcome ParsedContent :=
  Ok (mkParsedContent "title" (content body) ""
        (if decide (targetURL = pageA) then [pageB; pageB] else []) "").

Definition siteNormalize : string -> option URL -> outcome URL :=
  Parser.Normalize plainParse (fun _ ref => ref) plainQueryEncode.

Definition siteIsValid : URL -> bool := Parser.IsValid (fun _ _ => "").

Definition siteHash (text : string) : string := "sha256:" +:+ text.

(** The answer of the site, at [seconds] seconds. *)
Definition servedAt (seconds : Z) : oracle :=
  mkOracle false (Ok (mkResponse 200 "text/html; charset=utf-8" (mkBody "<html></html>" None)))
           (seconds * Second) false.

Definition siteRun (maxDepth : Z) : state -> list action -> option (state * list event) :=
  run siteParseHTML siteNormalize siteIsValid plainString siteHash (fun _ => 0) maxDepth.

(** A crawler with [workers] workers that ignores robots.txt. *)
Definition siteCrawler (workers : Z) : crawler :=
  NewCrawler (mkConfig workers 1 0 "" 0 false).

(** The workers [ws] move in this order, one move a second. *)
Definition schedule (ws : list nat) : list action :=
  imap (fun k i => Work i (servedAt (Z.of_nat k))) ws.

(** A crawler with the default rate of config.go, 0.1 requests a
    second, and two calls of [rateLimit] for the same host, at second
    0 and at second 6. *)
Definition defaultCrawler : crawler := NewCrawler (mkConfig 1 0.1 0 "" 0 false).

Definition firstCall : crawler * Z * option selected :=
  rateLimit (fun _ => 0) defaultCrawler pageA 0 false.

Definition secondCall : crawler * Z * option selected :=
  rateLimit (fun _ => 0) firstCall.1.1 pageB (6 * Second) false.

(** Worker [i] moves [n] times in a row. *)
Definition moves (i n : nat) : list action := schedule (replicate n i).

(** Worker 0 takes the start page through a whole iteration; then both
    workers receive [pageB], both read [visited] before either writes
    it, and both go on to fetch. *)
Definition raceSchedule : list action :=
  schedule (replicate 13 0%nat ++
            [0; 1;    (* both receive pageB *)
             0; 1;    (* both find it unvisited *)
             0; 1]%nat (* both mark it *)
            ++ replicate 4 0%nat ++ replicate 4 1%nat).

(** *** What the properties speak of *)

(** The depth of a target is within the bound. *)
Definition targetOK (maxDepth : Z) (t : urlWithDepth) : Prop := 0 <= depth t <= maxDepth.

(** A worker holds a target within the bound, and one it enqueues
    links for is strictly below it. *)
Definition workerOK (maxDepth : Z) (w : workerState) : Prop :=
  match w with
  | Received t | Unvisited t | Marked t | Allowed t | NoTicker t | Created t _
  | Waiting t _ _ | RateLimited t | Fetched t _ =>
      targetOK maxDepth t
  | Enqueueing t _ => 0 <= depth t < maxDepth
  | AtSelect | Returned => True
  end.

Definition depthOK (maxDepth : Z) (st : state) : Prop :=
  Forall (targetOK maxDepth) (urlChan st.1) /\ Forall (workerOK maxDepth) st.2.

Definition eventOK (maxDepth : Z) (ev : event) : Prop :=
  match ev with
  | EvReceive t | EvAlreadyVisited t | EvProcess t | EvRobotsSkip t | EvWait t _
  | EvFetch t => targetOK maxDepth t
  | EvEnqueue parent child =>
      0 <= depth parent < maxDepth /\ depth child = depth parent + 1 /\ targetOK maxDepth child
  | EvPage _ | EvError _ | EvReturn => True
  end.

(** With [maxDepth = 0] the start target is the only target there ever
    is. It is counted where it is: in the frontier, with a worker that
    has not yet fetched or dropped it ([pending]), or among the events
    that settle it. *)
Definition pending (w : workerState) : nat :=
  match w with
  | Received _ | Unvisited _ | Marked _ | Allowed _ | NoTicker _ | Created _ _
  | Waiting _ _ _ | RateLimited _ => 1
  | _ => 0
  end.

Fixpoint pendingCount (ws : list workerState) : nat :=
  match ws with
  | [] => 0
  | w :: ws' => pending w + pendingCount ws'
  end.

Definition robotsSkips (tr : list event) : list urlWithDepth :=
  omap (fun ev => match ev with EvRobotsSkip t => Some t | _ => None end) tr.

Definition visitedSkips (tr : list event) : list urlWithDepth :=
  omap (fun ev => match ev with EvAlreadyVisited t => Some t | _ => None end) tr.

Definition holds (seed : urlWithDepth) (w : workerState) : Prop :=
  match w with
  | Received t | Unvisited t | Marked t | Allowed t | NoTicker t | Created t _
  | Waiting t _ _ | RateLimited t | Fetched t _
  | Enqueueing t _ => t = seed
  | AtSelect | Returned => True
  end.

Definition notReceived (w : workerState) : Prop :=
  match w with
  | Received _ => False
  | _ => True
  end.

Record seedInv (seed : urlWithDepth) (st : state) (tr : list event) : Prop := mkSeedInv {
  inv_depth : depthOK 0 st;
  inv_queue : Forall (fun t => t = seed) (urlChan st.1);
  inv_workers : Forall (holds seed) st.2;
  inv_fetches : Forall (fun t => t = seed) (fetches tr);
  inv_token :
    (length (urlChan st.1) + pendingCount st.2
     + length (fetches tr) + length (robotsSkips tr) + length (visitedSkips tr) = 1)%nat;
  inv_unmarked : visited st.1 = ∅ \/ (urlChan st.1 = [] /\ Forall notReceived st.2);
  inv_noskip : visitedSkips tr = []
}.

(** With a single worker nothing happens between its read of [visited]
    and its write. *)

(** The URL strings passed to [fetchAndParse]. *)
Definition fetchedStrings (URLString : URL -> string) (tr : list event) : list string :=
  (fun t => URLString (url t)) <$> fetches tr.

(** The worker's own claim on its target. *)
Definition claimOK (URLString : URL -> string) (vis : gset string) (tr : list event)
    (w : workerState) : Prop :=
  match w with
  | Unvisited t => URLString (url t) ∉ vis
  | Marked t | Allowed t | NoTicker t | Created t _ | Waiting t _ _ | RateLimited t =>
      URLString (url t) ∈ vis /\ URLString (url t) ∉ fetchedStrings URLString tr
  | _ => True
  end.

Record soloInv (URLString : URL -> string) (st : state) (tr : list event) : Prop :=
  mkSoloInv {
  solo_worker : exists w, st.2 = [w] /\ claimOK URLString (visited st.1) tr w;
  solo_visited : forall u, u ∈ fetchedStrings URLString tr -> u ∈ visited st.1;
  solo_nodup : NoDup (fetchedStrings URLString tr)
}.

(** The two results of calling [GetRobots] twice in a row. *)
Definition GetRobotsTwice (cache : gmap string Robots) (get : string -> outcome Response)
    (domain userAgent : string)
  : (Robots * Robots) * gmap string Robots * list string :=
  let '(r1, cache1, reqs1) := GetRobots cache get domain userAgent in
  let '(r2, cache2, reqs2) := GetRobots cache1 get domain userAgent in
  ((r1, r2), cache2, reqs1 ++ reqs2).

(** A host that cannot be reached. *)
Definition unreachable (robotsURL : string) : outcome Response := Err "connection refused".

(** A robots.txt that closes the whole site. *)
Definition closedRobots : oracle :=
  mkOracle false
    (Ok (mkResponse 200 "text/plain"
           (mkBody ("User-agent: *" +:+ String (Ascii.ascii_of_nat 10) "Disallow: /") None)))
    (3 * Second) false.

(** *** The depth bound *)

Lemma int_add_1_small d m : 0 <= d < m -> m < 2 ^ 63 -> int_add d 1 = d + 1.
Proof.
  intros Hd Hm. unfold int_add, wrap64.
  rewrite Z.mod_small by lia. lia.
Qed.

(** The cases of a step of [rateLimit]. *)
Ltac limiter_step H :=
  unfold NewTicker in H;
  repeat lazymatch type of H with
  | context [if (RateLimit ?c <=? 0)%float then _ else _] =>
      destruct (RateLimit c <=? 0)%float
  | context [match rateLimiters ?c !! ?d with _ => _ end] =>
      destruct (rateLimiters c !! d)
  | context [match tickers ?c !! ?i with _ => _ end] =>
      destruct (tickers c !! i); [|done]
  | context [awaitTicker ?tk ?since ?prefer] =>
      destruct (awaitTicker tk since prefer)
  | context [if ?release <=? clock ?o then _ else _] =>
      destruct (release <=? clock o); [|done]
  end;
  simplify_eq.

(** Closes the conjuncts of a step lemma that hold as they stand. *)
Ltac split_ok :=
  repeat lazymatch goal with |- _ /\ _ => split end; simpl in *; auto;
  repeat (constructor; simpl; auto).

Section Depth.

Variable ParseHTML : Body -> URL -> outcome ParsedContent.
Variable Normalize : string -> option URL -> outcome URL.
Variable IsValid : URL -> bool.
Variable URLString : URL -> string.
Variable sha256hex : string -> string.
Variable unrepresentable : float -> Z.
Variable maxDepth : Z.

Abbreviation workerStep' :=
  (workerStep ParseHTML Normalize IsValid URLString sha256hex unrepresentable maxDepth).
Abbreviation step' :=
  (step ParseHTML Normalize IsValid URLString sha256hex unrepresentable maxDepth).
Abbreviation run' :=
  (run ParseHTML Normalize IsValid URLString sha256hex unrepresentable maxDepth).

Lemma workerStep_depthOK o s w s' w' evs :
  maxDepth < 2 ^ 63 ->
  Forall (targetOK maxDepth) (urlChan s) -> workerOK maxDepth w ->
  workerStep' o s w = Some (s', w', evs) ->
  Forall (targetOK maxDepth) (urlChan s') /\ workerOK maxDepth w' /\ Forall (eventOK maxDepth) evs.
Proof.
  intros Hmax Hq Hw Hstep.
  destruct w as [|t|t|t|t|t|t ticker|t ticker since|t|t r|t links|]; simpl in Hstep.
  - destruct (ctxDone s && (takeDone o || bool_decide (urlChan s = []))).
    + simplify_eq. split_ok.
    + destruct (urlChan s) as [|urlData rest] eqn:E; [done|]. simplify_eq. simpl.
      apply Forall_cons in Hq as [H1 H2]. split_ok.
  - case_bool_decide; simplify_eq; split_ok.
  - simplify_eq. split_ok.
  - destruct (RespectRobots (config (self s))); [|simplify_eq; split_ok].
    destruct (GetRobots _ _ _ _) as [[robots cache] reqs].
    destruct (CanCrawl robots (Path (url t))); simplify_eq; split_ok.
  - limiter_step Hstep; split_ok.
  - limiter_step Hstep; split_ok.
  - limiter_step Hstep; split_ok.
  - limiter_step Hstep; split_ok.
  - simplify_eq. split_ok.
  - destruct r as [page|e|p]; [| |done].
    + destruct (len (pageChan s) <? pageChanCap); [|done]. simplify_eq. simpl.
      split; [done|]. split; [|by repeat constructor].
      destruct (depth t <? maxDepth) eqn:E; simpl; [|done].
      simpl in Hw. unfold targetOK in Hw. lia.
    + destruct (len (errorChan s) <? errorChanCap); [|done]. simplify_eq. split_ok.
  - destruct links as [|link rest]; [simplify_eq; split_ok|].
    destruct (ctxDone s && (takeDone o || negb (len (urlChan s) <? urlChanCap)));
      [simplify_eq; split_ok|].
    destruct (negb (len (urlChan s) <? urlChanCap)); [done|]. simplify_eq. simpl in *.
    assert (Hc : int_add (depth t) 1 = depth t + 1) by (by eapply int_add_1_small).
    assert (Hchild : targetOK maxDepth (mkTarget link (int_add (depth t) 1)))
      by (unfold targetOK; simpl; lia).
    split; [apply Forall_app; split; [done|by constructor]|].
    split; [done|]. constructor; [|by constructor]. simpl.
    split; [lia|]. by split.
  - done.
Qed.

Lemma step_depthOK st a st' evs :
  maxDepth < 2 ^ 63 -> depthOK maxDepth st -> step' st a = Some (st', evs) ->
  depthOK maxDepth st' /\ Forall (eventOK maxDepth) evs.
Proof.
  intros Hmax [Hq Hws] Hstep. destruct st as [s ws]. simpl in *.
  destruct a as [i o| | |].
  - destruct (ws !! i) as [w|] eqn:Ei; [|done].
    destruct (workerStep' o s w) as [[[s1 w1] evs1]|] eqn:Ew; [|done]. simplify_eq.
    assert (workerOK maxDepth w) as Hw by (eapply Forall_lookup_1; eauto).
    destruct (workerStep_depthOK _ _ _ _ _ _ Hmax Hq Hw Ew) as (H1 & H2 & H3).
    split; [|done]. split; simpl; [done|]. by apply Forall_insert.
  - simplify_eq. by split.
  - destruct (pageChan s); [done|]. simplify_eq. by split.
  - destruct (errorChan s); [done|]. simplify_eq. by split.
Qed.

Lemma run_depthOK acts st st' tr :
  maxDepth < 2 ^ 63 -> depthOK maxDepth st -> run' st acts = Some (st', tr) ->
  depthOK maxDepth st' /\ Forall (eventOK maxDepth) tr.
Proof.
  intros Hmax. revert st tr. induction acts as [|a acts IH]; intros st tr Hst Hrun; simpl in Hrun.
  - simplify_eq. by split.
  - destruct (step' st a) as [[st1 evs]|] eqn:Es; [|done].
    destruct (run' st1 acts) as [[st2 tr2]|] eqn:Er; [|done]. simplify_eq.
    destruct (step_depthOK _ _ _ _ Hmax Hst Es) as [H1 H2].
    destruct (IH _ _ H1 Er) as [H3 H4].
    split; [done|]. by apply Forall_app.
Qed.

Lemma Crawl_depthOK c startURL : 0 <= maxDepth -> depthOK maxDepth (Crawl c startURL).
Proof.
  intros H. split; simpl.
  - constructor; [|done]. unfold targetOK. simpl. lia.
  - apply Forall_replicate. exact I.
Qed.

End Depth.

(** *** A crawl with [maxDepth = 0] *)

Lemma pending_le_count ws i w : ws !! i = Some w -> (pending w <= pendingCount ws)%nat.
Proof.
  revert i. induction ws as [|x xs IH]; intros [|i] H; simpl in H; simplify_eq; simpl.
  - lia.
  - specialize (IH _ H). lia.
Qed.

Lemma pendingCount_insert ws i w w' :
  ws !! i = Some w ->
  (pendingCount (<[i := w']> ws) + pending w = pendingCount ws + pending w')%nat.
Proof.
  revert i. induction ws as [|x xs IH]; intros [|i] H; simpl in H; simplify_eq; simpl.
  - lia.
  - specialize (IH _ H). lia.
Qed.

Lemma pending_alone ws i w :
  ws !! i = Some w -> pending w = 1%nat -> (pendingCount ws <= 1)%nat ->
  forall j w2, j <> i -> ws !! j = Some w2 -> pending w2 = 0%nat.
Proof.
  intros Hi Hw Hc j w2 Hj Hj2.
  pose proof (pendingCount_insert ws i w AtSelect Hi) as Hins. simpl in Hins.
  assert (<[i := AtSelect]> ws !! j = Some w2) as Hl by (by rewrite list_lookup_insert_ne).
  apply pending_le_count in Hl. lia.
Qed.

Lemma fetches_app tr1 tr2 : fetches (tr1 ++ tr2) = fetches tr1 ++ fetches tr2.
Proof. apply omap_app. Qed.

Lemma robotsSkips_app tr1 tr2 : robotsSkips (tr1 ++ tr2) = robotsSkips tr1 ++ robotsSkips tr2.
Proof. apply omap_app. Qed.

Lemma visitedSkips_app tr1 tr2 :
  visitedSkips (tr1 ++ tr2) = visitedSkips tr1 ++ visitedSkips tr2.
Proof. apply omap_app. Qed.

Section ZeroDepth.

Variable ParseHTML : Body -> URL -> outcome ParsedContent.
Variable Normalize : string -> option URL -> outcome URL.
Variable IsValid : URL -> bool.
Variable URLString : URL -> string.
Variable sha256hex : string -> string.
Variable unrepresentable : float -> Z.

Abbreviation workerStep0 :=
  (workerStep ParseHTML Normalize IsValid URLString sha256hex unrepresentable 0).
Abbreviation step0 :=
  (step ParseHTML Normalize IsValid URLString sha256hex unrepresentable 0).
Abbreviation run0 :=
  (run ParseHTML Normalize IsValid URLString sha256hex unrepresentable 0).

(** The fields of [seedInv] a step leaves as they are, up to the
    events it adds. *)
Ltac seed_fields Hf Hn :=
  try (rewrite fetches_app; apply Forall_app; split; [exact Hf|]; simpl; by repeat constructor);
  try (rewrite visitedSkips_app, Hn; reflexivity);
  try (apply Forall_insert; [assumption|simpl; done]);
  try (rewrite fetches_app, robotsSkips_app, visitedSkips_app, !length_app; simpl in *; lia).

Lemma step_seedInv seed st tr a st' evs :
  seedInv seed st tr -> step0 st a = Some (st', evs) -> seedInv seed st' (tr ++ evs).
Proof.
  intros [Hd Hq Hw Hf Ht Hu Hn] Hstep.
  assert (Hd' : depthOK 0 st')
    by (eapply (step_depthOK _ _ _ _ _ _ 0); [lia|exact Hd|exact Hstep]).
  destruct st as [s ws]. simpl in *. destruct a as [i o| | |].
  - destruct (ws !! i) as [w|] eqn:Ei; [|done].
    destruct (workerStep0 o s w) as [[[s1 w1] evs1]|] eqn:Ew; [|done]. simplify_eq.
    pose proof (Forall_lookup_1 _ _ _ _ Hw Ei) as Hhold.
    pose proof (Forall_lookup_1 _ _ _ _ (proj2 Hd) Ei) as Hok.
    pose proof (pendingCount_insert ws i w w1 Ei) as Hpc.
    pose proof (pending_le_count ws i w Ei) as Hle.
    destruct w as [|t|t|t|t|t|t ticker|t ticker since|t|t r|t links|]; simpl in Ew, Hhold, Hok, Hpc, Hle.
    + destruct (ctxDone s && (takeDone o || bool_decide (urlChan s = []))).
      * simplify_eq. split; simpl; seed_fields Hf Hn; try done.
        destruct Hu as [Hu|[Hu1 Hu2]]; [by left|right]. split; [done|].
        by apply Forall_insert.
      * destruct (urlChan s) as [|urlData rest] eqn:E; [done|]. simplify_eq.
        apply Forall_cons in Hq as [Hq1 Hq2].
        split; simpl; seed_fields Hf Hn; try done.
        left. by destruct Hu as [Hu|[Hu1 Hu2]].
    + case_bool_decide as Hv; simplify_eq.
      * exfalso. destruct Hu as [Hu|[_ Hu]].
        -- rewrite Hu in Hv. by apply not_elem_of_empty in Hv.
        -- by apply (Forall_lookup_1 _ _ _ _ Hu) in Ei.
      * split; simpl; seed_fields Hf Hn; try done.
        left. destruct Hu as [Hu|[_ Hu]]; [done|].
        by apply (Forall_lookup_1 _ _ _ _ Hu) in Ei.
    + simplify_eq. split; simpl; seed_fields Hf Hn; try done.
      right. assert (urlChan s = []) as Hnil by (destruct (urlChan s); [done|simpl in *; lia]).
      split; [done|]. apply Forall_insert; [|done].
      apply Forall_lookup_2. intros j w2 Hj.
      destruct (decide (j = i)) as [->|Hne]; [by simplify_eq|].
      assert (pending w2 = 0%nat) as Hp0
        by (eapply (pending_alone ws i _ Ei); simpl; [done|lia|done|done]).
      by destruct w2.
    + destruct (RespectRobots (config (self s))).
      * destruct (GetRobots _ _ _ _) as [[rb cache] reqs].
        destruct (CanCrawl rb (Path (url t))); simplify_eq;
          split; simpl; seed_fields Hf Hn; try done.
        -- destruct Hu as [Hu|[Hu1 Hu2]]; [by left|right]. split; [done|].
           by apply Forall_insert.
        -- destruct Hu as [Hu|[Hu1 Hu2]]; [by left|right]. split; [done|].
           by apply Forall_insert.
      * simplify_eq. split; simpl; seed_fields Hf Hn; try done.
        destruct Hu as [Hu|[Hu1 Hu2]]; [by left|right]. split; [done|].
        by apply Forall_insert.
    + limiter_step Ew;
        (split; simpl; seed_fields Hf Hn; try done;
         destruct Hu as [Hu|[Hu1 Hu2]]; [by left|right]; split; [done|];
         by apply Forall_insert).
    + limiter_step Ew;
        (split; simpl; seed_fields Hf Hn; try done;
         destruct Hu as [Hu|[Hu1 Hu2]]; [by left|right]; split; [done|];
         by apply Forall_insert).
    + limiter_step Ew;
        (split; simpl; seed_fields Hf Hn; try done;
         destruct Hu as [Hu|[Hu1 Hu2]]; [by left|right]; split; [done|];
         by apply Forall_insert).
    + limiter_step Ew;
        (split; simpl; seed_fields Hf Hn; try done;
         destruct Hu as [Hu|[Hu1 Hu2]]; [by left|right]; split; [done|];
         by apply Forall_insert).
    + simplify_eq. split; simpl; seed_fields Hf Hn; try done.
      destruct Hu as [Hu|[Hu1 Hu2]]; [by left|right]. split; [done|].
      by apply Forall_insert.
    + destruct r as [page|e|p]; [| |done].
      * destruct (len (pageChan s) <? pageChanCap); [|done]. simplify_eq.
        assert (Hpend : pending (if depth seed <? 0 then Enqueueing seed (Links (setDepth page (depth seed))) else AtSelect) = 0%nat)
          by (by destruct (depth seed <? 0)).
        split; simpl; seed_fields Hf Hn; try done.
        -- apply Forall_insert; [done|]. by destruct (depth seed <? 0).
        -- destruct Hu as [Hu|[Hu1 Hu2]]; [by left|right]. split; [done|].
           apply Forall_insert; [done|]. by destruct (depth seed <? 0).
      * destruct (len (errorChan s) <? errorChanCap); [|done]. simplify_eq.
        split; simpl; seed_fields Hf Hn; try done.
        destruct Hu as [Hu|[Hu1 Hu2]]; [by left|right]. split; [done|].
        by apply Forall_insert.
    + lia.
    + done.
  - simplify_eq. rewrite app_nil_r. by split.
  - destruct (pageChan s); [done|]. simplify_eq. rewrite app_nil_r. by split.
  - destruct (errorChan s); [done|]. simplify_eq. rewrite app_nil_r. by split.
Qed.

End ZeroDepth.

Section CrawlProperties.

Variable ParseHTML : Body -> URL -> outcome ParsedContent.
Variable Normalize : string -> option URL -> outcome URL.
Variable IsValid : URL -> bool.
Variable URLString : URL -> string.
Variable sha256hex : string -> string.
Variable unrepresentable : float -> Z.

Lemma run_seedInv seed acts st tr st' tr' :
  seedInv seed st tr ->
  run ParseHTML Normalize IsValid URLString sha256hex unrepresentable 0 st acts
  = Some (st', tr') ->
  seedInv seed st' (tr ++ tr').
Proof.
  revert st tr tr'. induction acts as [|a acts IH]; intros st tr tr' Hinv Hrun; simpl in Hrun.
  - simplify_eq. by rewrite app_nil_r.
  - destruct (step _ _ _ _ _ _ _ st a) as [[st1 evs]|] eqn:Es; [|done].
    destruct (run _ _ _ _ _ _ _ st1 acts) as [[st2 tr2]|] eqn:Er; [|done]. simplify_eq.
    rewrite app_assoc. eapply IH; [|exact Er]. by eapply step_seedInv.
Qed.

Lemma pendingCount_replicate n : pendingCount (replicate n AtSelect) = 0%nat.
Proof. induction n; simpl; done. Qed.

Lemma pendingCount_idle ws : Forall idle ws -> pendingCount ws = 0%nat.
Proof.
  induction 1 as [|w ws [->| ->] _ IH]; simpl; lia.
Qed.

Lemma Crawl_seedInv c startURL : seedInv (mkTarget startURL 0) (Crawl c startURL) [].
Proof.
  split; simpl.
  - by apply Crawl_depthOK.
  - by repeat constructor.
  - apply Forall_replicate. exact I.
  - constructor.
  - rewrite pendingCount_replicate. done.
  - by left.
  - done.
Qed.

End CrawlProperties.

(** C3, amended. In every run of a crawl with [0 <= maxDepth], every
    target a worker processes or fetches has a depth between 0 and
    [maxDepth], and a target is enqueued only by a worker whose own
    target is strictly below [maxDepth], at that depth plus one. With
    [maxDepth = 0] nothing is ever enqueued and at most one page is
    fetched, the start URL at depth 0, whatever links it has; it has
    been fetched exactly once whenever the frontier is empty and every
    worker is back at its [select] or has returned, unless robots.txt
    made the worker skip it. *)
Theorem crawl_depth_bounded ParseHTML Normalize IsValid URLString sha256hex unrepresentable
    maxDepth c startURL acts st tr :
  0 <= maxDepth < 2 ^ 63 ->
  run ParseHTML Normalize IsValid URLString sha256hex unrepresentable maxDepth
      (Crawl c startURL) acts = Some (st, tr) ->
  (forall t, EvProcess t ∈ tr -> 0 <= depth t <= maxDepth) /\
  (forall t, EvFetch t ∈ tr -> 0 <= depth t <= maxDepth) /\
  (forall parent child, EvEnqueue parent child ∈ tr ->
     depth parent < maxDepth /\ depth child = depth parent + 1) /\
  (maxDepth = 0 ->
     (forall parent child, EvEnqueue parent child ∉ tr) /\
     (fetches tr = [] \/ fetches tr = [mkTarget startURL 0]) /\
     (quiescent st -> robotsSkips tr = [] -> fetches tr = [mkTarget startURL 0])).
Proof.
  intros Hmax Hrun.
  destruct (run_depthOK _ _ _ _ _ _ _ _ _ _ _ (proj2 Hmax)
              (Crawl_depthOK maxDepth c startURL (proj1 Hmax)) Hrun) as [_ Hev].
  rewrite Forall_forall in Hev.
  split; [|split; [|split]].
  - intros t Ht. exact (Hev _ Ht).
  - intros t Ht. exact (Hev _ Ht).
  - intros parent child Hin. destruct (Hev _ Hin) as (H1 & H2 & _). split; [lia|done].
  - intros ->.
    pose proof (run_seedInv _ _ _ _ _ _ _ _ _ _ _ _ (Crawl_seedInv c startURL) Hrun)
      as [_ _ _ Hf Ht _ Hn].
    simpl in Hf, Ht, Hn. rewrite Hn in Ht. simpl in Ht.
    split; [|split].
    + intros parent child Hin. destruct (Hev _ Hin) as (H1 & _). lia.
    + destruct (fetches tr) as [|t [|t2 rest]]; [by left| |simpl in Ht; lia].
      right. apply Forall_cons in Hf as [-> _]. done.
    + intros [Hq Hidle] Hrs. rewrite Hq, (pendingCount_idle _ Hidle), Hrs in Ht.
      destruct (fetches tr) as [|t [|t2 rest]]; simpl in Ht; [lia| |lia].
      apply Forall_cons in Hf as [-> _]. done.
Qed.

(** One worker, [maxDepth = 0]: the start page has two links and is
    the one page fetched. *)
Lemma crawl_depth_bounded_witness :
  exists st tr,
    siteRun 0 (Crawl (siteCrawler 1) pageA) (moves 0 10) = Some (st, tr) /\
    quiescent st /\
    fetches tr = [mkTarget pageA 0].
Proof.
  eexists _, _. split; [vm_compute; reflexivity|].
  lazymatch goal with
  | |- quiescent ?st /\ fetches ?tr = _ =>
      assert (Hrun : siteRun 0 (Crawl (siteCrawler 1) pageA) (moves 0 10) = Some (st, tr))
        by (vm_compute; reflexivity);
      assert (Hq : quiescent st)
        by (split; simpl; [reflexivity|constructor; [left; reflexivity|constructor]])
  end.
  split; [exact Hq|].
  destruct (crawl_depth_bounded siteParseHTML siteNormalize siteIsValid plainString
              siteHash (fun _ => 0) 0 (siteCrawler 1) pageA (moves 0 10) _ _
              (conj (Z.le_refl 0) eq_refl) Hrun) as (_ & _ & _ & Hzero).
  destruct (Hzero eq_refl) as (_ & _ & Hone).
  apply Hone; [exact Hq|vm_compute; reflexivity].
Defined.

(** C3 as stated fails for a negative [maxDepth]: the start URL is sent
    at depth 0 whatever [maxDepth] is, and a worker processes and
    fetches it. *)
Lemma negative_maxDepth_seed_processed :
  exists st tr,
    siteRun (-1) (Crawl (siteCrawler 1) pageA) (moves 0 9) = Some (st, tr) /\
    EvProcess (mkTarget pageA 0) ∈ tr /\
    fetches tr = [mkTarget pageA 0] /\
    -1 < depth (mkTarget pageA 0).
Proof.
  eexists _, _. split; [vm_compute; reflexivity|].
  split; [|split; [vm_compute; reflexivity|simpl; lia]].
  apply list_elem_of_In. vm_compute. tauto.
Qed.

(** With [maxDepth = 0] and a start URL that robots.txt disallows, the
    crawl comes to rest with no page fetched. *)
Lemma disallowed_seed_not_fetched :
  exists st tr,
    siteRun 0 (Crawl (NewCrawler (mkConfig 1 1 0 "" 0 true)) pageA)
      (moves 0 3 ++ [Work 0 closedRobots]) = Some (st, tr) /\
    st.2 = [AtSelect] /\ urlChan st.1 = [] /\
    robotsSkips tr = [mkTarget pageA 0] /\ fetches tr = [].
Proof.
  eexists _, _. split; [vm_compute; reflexivity|].
  repeat split; vm_compute; reflexivity.
Qed.

(** *** One worker *)

Section SingleWorker.

Variable ParseHTML : Body -> URL -> outcome ParsedContent.
Variable Normalize : string -> option URL -> outcome URL.
Variable IsValid : URL -> bool.
Variable URLString : URL -> string.
Variable sha256hex : string -> string.
Variable unrepresentable : float -> Z.
Variable maxDepth : Z.

Lemma fetchedStrings_app tr1 tr2 :
  fetchedStrings URLString (tr1 ++ tr2) = fetchedStrings URLString tr1 ++ fetchedStrings URLString tr2.
Proof. unfold fetchedStrings. by rewrite fetches_app, fmap_app. Qed.

(** A step that fetches nothing and leaves [visited] as it is. *)
Ltac fetched_simpl :=
  rewrite ?fetchedStrings_app; simpl (fetchedStrings URLString (_ :: _)); rewrite ?app_nil_r.

Ltac solo_same :=
  split; simpl; fetched_simpl;
  [eexists; split; [reflexivity|simpl; fetched_simpl; try done]|done|done].

Lemma step_soloInv st tr a st' evs :
  soloInv URLString st tr ->
  step ParseHTML Normalize IsValid URLString sha256hex unrepresentable maxDepth st a
  = Some (st', evs) ->
  soloInv URLString st' (tr ++ evs).
Proof.
  intros [(w & Hws & Hw) Hv Hn] Hstep. destruct st as [s ws]. simpl in *. subst ws.
  destruct a as [i o| | |].
  - destruct i as [|i]; simpl in Hstep; [|done].
    destruct (workerStep _ _ _ _ _ _ _ o s w) as [[[s1 w1] evs1]|] eqn:Ew; [|done].
    simplify_eq. simpl.
    destruct w as [|t|t|t|t|t|t ticker|t ticker since|t|t r|t links|]; simpl in Ew, Hw.
    + destruct (ctxDone s && (takeDone o || bool_decide (urlChan s = []))).
      * simplify_eq. solo_same.
      * destruct (urlChan s); [done|]. simplify_eq. solo_same.
    + case_bool_decide; simplify_eq; solo_same.
    + simplify_eq.
      split; simpl; fetched_simpl.
      * eexists. split; [reflexivity|]. simpl. fetched_simpl. split; [set_solver|].
        intros Hin. apply Hw. by apply Hv.
      * intros u Hu. apply Hv in Hu. set_solver.
      * done.
    + destruct (RespectRobots (config (self s))).
      * destruct (GetRobots _ _ _ _) as [[rb cache] reqs].
        destruct (CanCrawl rb (Path (url t))); simplify_eq; solo_same.
      * simplify_eq. solo_same.
    + limiter_step Ew; solo_same.
    + limiter_step Ew; solo_same.
    + limiter_step Ew; solo_same.
    + limiter_step Ew; solo_same.
    + simplify_eq. destruct Hw as [Hin Hnot].
      split; simpl; rewrite ?fetchedStrings_app; simpl (fetchedStrings URLString (_ :: _)).
      * eexists. split; [reflexivity|done].
      * intros u Hu. apply elem_of_app in Hu as [Hu|Hu]; [by apply Hv|].
        apply list_elem_of_singleton in Hu as ->. done.
      * apply NoDup_app. split; [done|]. split; [|apply NoDup_singleton].
        intros u Hu Hu'. apply list_elem_of_singleton in Hu' as ->. done.
    + destruct r as [page|e|p]; [| |done].
      * destruct (len (pageChan s) <? pageChanCap); [|done]. simplify_eq.
        solo_same. by destruct (depth t <? maxDepth).
      * destruct (len (errorChan s) <? errorChanCap); [|done]. simplify_eq. solo_same.
    + destruct links as [|link rest].
      * simplify_eq. solo_same.
      * destruct (ctxDone s && (takeDone o || negb (len (urlChan s) <? urlChanCap))).
        -- simplify_eq. solo_same.
        -- destruct (negb (len (urlChan s) <? urlChanCap)); [done|]. simplify_eq.
           solo_same.
    + done.
  - simplify_eq. solo_same.
  - destruct (pageChan s); [done|]. simplify_eq. solo_same.
  - destruct (errorChan s); [done|]. simplify_eq. solo_same.
Qed.

Lemma run_soloInv acts st tr st' tr' :
  soloInv URLString st tr ->
  run ParseHTML Normalize IsValid URLString sha256hex unrepresentable maxDepth st acts
  = Some (st', tr') ->
  soloInv URLString st' (tr ++ tr').
Proof.
  revert st tr tr'. induction acts as [|a acts IH]; intros st tr tr' Hinv Hrun; simpl in Hrun.
  - simplify_eq. by rewrite app_nil_r.
  - destruct (step _ _ _ _ _ _ _ st a) as [[st1 evs]|] eqn:Es; [|done].
    destruct (run _ _ _ _ _ _ _ st1 acts) as [[st2 tr2]|] eqn:Er; [|done]. simplify_eq.
    rewrite app_assoc. eapply IH; [|exact Er]. by eapply step_soloInv.
Qed.

(** A crawl with [MaxWorkers = 1] fetches no URL string twice. *)
Lemma single_worker_fetches_once c startURL acts st tr :
  MaxWorkers (config c) = 1 ->
  run ParseHTML Normalize IsValid URLString sha256hex unrepresentable maxDepth
      (Crawl c startURL) acts = Some (st, tr) ->
  NoDup (fetchedStrings URLString tr).
Proof.
  intros Hone Hrun.
  assert (Hinit : soloInv URLString (Crawl c startURL) []).
  { split; simpl.
    - exists AtSelect. rewrite Hone. by split.
    - intros u Hu. by apply elem_of_nil in Hu.
    - constructor. }
  by destruct (run_soloInv _ _ _ _ _ Hinit Hrun).
Qed.

End SingleWorker.

(** *** The visited check *)

(** C4. The read of [visited] (under [RLock]) and the write (under
    [Lock]) are two steps of a worker: with two workers and a page
    that links twice to [pageB], both workers read [visited] before
    either writes it, and [pageB] is fetched twice. *)
Theorem visited_race_fetches_twice :
  exists st tr,
    siteRun 1 (Crawl (siteCrawler 2) pageA) raceSchedule = Some (st, tr) /\
    fetches tr = [mkTarget pageA 0; mkTarget pageB 1; mkTarget pageB 1] /\
    plainString <$> (url <$> fetches tr)
    = ["https://a.example/"; "https://a.example/b"; "https://a.example/b"].
Proof.
  eexists _, _. split; [vm_compute; reflexivity|].
  split; vm_compute; reflexivity.
Qed.

(** *** Rate limiting *)

(** The inverse of a rate that is a whole number of seconds is the
    period of the ticker. *)
Lemma truncFloat_whole f n :
  wholeFloat f n = true -> 1 <= n -> n < 2 ^ 63 -> truncFloat f = Some n.
Proof.
  unfold wholeFloat, truncFloat. intros Hw Hn Hmax.
  destruct (Prim2SF f) as [sz|sz| |sg m e]; try done; [lia|].
  assert (Hpow : 0 < 2 ^ (- e) \/ e >= 0).
  { destruct (Z.le_gt_cases 0 e); [right; lia|left; apply Z.pow_pos_nonneg; lia]. }
  destruct (0 <=? e) eqn:He.
  - apply Z.leb_le in He. apply Z.eqb_eq in Hw.
    assert (0 < 2 ^ e) by (apply Z.pow_pos_nonneg; lia).
    destruct sg; [nia|].
    replace (Z.pos m * 2 ^ e) with n by done.
    destruct ((- 2 ^ 63 <=? n) && (n <? 2 ^ 63)) eqn:Hr; [done|].
    apply andb_false_iff in Hr as [Hr|Hr]; lia.
  - apply Z.leb_gt in He. apply Z.eqb_eq in Hw.
    destruct Hpow as [Hpow|]; [|lia].
    destruct sg; [nia|].
    rewrite Hw, Z.div_mul by lia.
    destruct ((- 2 ^ 63 <=? n) && (n <? 2 ^ 63)) eqn:Hr; [done|].
    apply andb_false_iff in Hr as [Hr|Hr]; lia.
Qed.

Lemma tickerInterval_pos unrepresentable rate : 0 < tickerInterval unrepresentable rate.
Proof.
  unfold tickerInterval.
  destruct (int_mul _ Second <=? 0) eqn:El; [reflexivity|lia].
Qed.

Lemma tickerInterval_whole unrepresentable rate n :
  wholeFloat (1 / rate) n = true -> 1 <= n -> n * Second < 2 ^ 63 ->
  tickerInterval unrepresentable rate = n * Second.
Proof.
  intros Hw Hn Hmax. unfold tickerInterval, toDuration.
  rewrite (truncFloat_whole _ n Hw Hn) by (unfold Second in Hmax; lia).
  unfold int_mul, wrap64. unfold Second in *.
  rewrite Z.mod_small by lia.
  destruct (n * 1000000000 + 2 ^ 63 - 2 ^ 63 <=? 0) eqn:El; lia.
Qed.

(** The next tick is the first instant of the ticker's grid after the
    channel was emptied. *)
Lemma nextTick_grid tk :
  0 < period tk ->
  emptied tk < nextTick tk <= emptied tk + period tk /\
  (period tk | nextTick tk - created tk).
Proof.
  intros Hp. unfold nextTick.
  pose proof (Z.div_mod (emptied tk - created tk) (period tk) ltac:(lia)) as Hdm.
  pose proof (Z.mod_pos_bound (emptied tk - created tk) (period tk) Hp) as Hb.
  split; [nia|].
  exists ((emptied tk - created tk) / period tk + 1). lia.
Qed.

(** A tick taken leaves the next one a period later at least. *)
Lemma nextTick_takeTick tk release :
  0 < period tk -> nextTick tk <= release ->
  nextTick tk + period tk <= nextTick (takeTick release tk).
Proof.
  intros Hp Hr. unfold nextTick in *. simpl.
  set (k := (emptied tk - created tk) / period tk + 1) in *.
  assert (k <= (release - created tk) / period tk).
  { apply Z.div_le_lower_bound; lia. }
  nia.
Qed.

Lemma awaitTicker_bounds tk since prefer release fired :
  awaitTicker tk since prefer = (release, fired) ->
  since <= release <= since + limiterTimeout /\
  match fired with
  | ByTick => tickAt tk since = Some release
  | ByTimeout =>
      release = since + limiterTimeout /\
      forall tick, tickAt tk since = Some tick -> since + limiterTimeout <= tick
  end.
Proof.
  unfold awaitTicker. intros Ha.
  assert (Ht : 0 <= limiterTimeout) by (unfold limiterTimeout, Second; lia).
  destruct (tickAt tk since) as [tick|] eqn:Et.
  - assert (since <= tick).
    { unfold tickAt in Et. destruct (match stopped tk with Some _ => _ | None => _ end);
        simplify_eq. lia. }
    destruct ((tick <? since + limiterTimeout)
              || ((tick =? since + limiterTimeout) && negb prefer)) eqn:Eb; simplify_eq.
    + split; [|done].
      apply orb_true_iff in Eb as [Eb|Eb]; [lia|].
      apply andb_true_iff in Eb as [Eb _]. lia.
    + split; [lia|]. split; [done|]. intros ? ?. simplify_eq.
      apply orb_false_iff in Eb as [Eb _]. lia.
  - simplify_eq. split; [lia|]. split; [done|]. intros ? ?. done.
Qed.

(** [rateLimit] is what a worker does between [Allowed] and
    [RateLimited] when no other worker moves meanwhile: it takes its
    steps up to the [select] at [now], and the last one at any time
    [later] that is not before the [select] fires. *)
Lemma rateLimit_worker ParseHTML Normalize IsValid URLString sha256hex unrepresentable
    maxDepth s t now prefer later answer c' release fired :
  rateLimit unrepresentable (self s) (url t) now prefer = (c', release, Some fired) ->
  release <= later ->
  exists n : nat,
    run ParseHTML Normalize IsValid URLString sha256hex unrepresentable maxDepth
        (s, [Allowed t])
        (replicate n (Work 0 (mkOracle false answer now prefer))
         ++ [Work 0 (mkOracle false answer later prefer)])
    = Some ((mkShared c' (urlChan s) (visited s) (pageChan s) (errorChan s) (ctxDone s),
             [RateLimited t]),
            [EvWait t (Some (release, fired))]).
Proof.
  unfold rateLimit. intros Hcall Hlater.
  destruct (RateLimit (config (self s)) <=? 0)%float eqn:Hr; [done|].
  destruct (rateLimiters (self s) !! Host (url t)) as [ticker|] eqn:Hl.
  - destruct (tickers (self s) !! ticker) as [tk|] eqn:Htk; [|done].
    destruct (awaitTicker tk now prefer) as [release' fired'] eqn:Ha.
    injection Hcall as <- <- <-.
    exists 1%nat. apply Z.leb_le in Hlater.
    cbn [replicate app run step workerStep lookup list_lookup clock preferTimeout
         insert list_insert self].
    rewrite Hr, Hl.
    cbn [replicate app run step workerStep lookup list_lookup clock preferTimeout
         insert list_insert self].
    rewrite Htk, Ha, Hlater. reflexivity.
  - unfold NewTicker in Hcall.
    set (interval := tickerInterval unrepresentable (RateLimit (config (self s)))) in *.
    set (c1 := register
                 (mkCrawler (config (self s)) (robotsCache (self s)) (rateLimiters (self s))
                            (tickers (self s) ++ [mkTicker interval now now None]))
                 (Host (url t)) (length (tickers (self s)))) in *.
    destruct (tickers c1 !! length (tickers (self s))) as [tk|] eqn:Htk; [|done].
    destruct (awaitTicker tk now prefer) as [release' fired'] eqn:Ha.
    injection Hcall as <- <- <-.
    exists 3%nat. apply Z.leb_le in Hlater.
    cbn [replicate app run step workerStep lookup list_lookup clock preferTimeout
         insert list_insert self NewTicker].
    rewrite Hr, Hl.
    cbn [replicate app run step workerStep lookup list_lookup clock preferTimeout
         insert list_insert self NewTicker].
    fold interval. fold c1. rewrite Htk, Ha, Hlater. reflexivity.
Qed.

(** C6 as stated fails twice, each time by a choice the code makes. A
    configured rate of 0 is replaced by 1.0 in [NewCrawler], so the
    limiter is no no-op: the first call waits a second. And the
    [select] of [rateLimit] has a five-second case: at the default
    rate of 0.1 the period of the ticker is ten seconds, yet a call at
    second 0 returns at second 5 and a call for the same domain at
    second 6 returns at second 10, five seconds after the first. *)
Lemma zero_rate_waits_and_timeout_passes :
  RateLimit (config (NewCrawler (mkConfig 1 0 0 "" 0 false))) = 1%float /\
  (rateLimit (fun _ => 0) (NewCrawler (mkConfig 1 0 0 "" 0 false)) pageA 0 false).1.2 = Second /\
  RateLimit (config defaultCrawler) = 0.1%float /\
  wholeFloat (1 / 0.1) 10 = true /\
  tickerInterval (fun _ => 0) 0.1 = 10 * Second /\
  firstCall.1.2 = 5 * Second /\ firstCall.2 = Some ByTimeout /\
  secondCall.1.2 = 10 * Second /\ secondCall.2 = Some ByTick /\
  secondCall.1.2 - firstCall.1.2 < 10 * Second.
Proof. repeat split; vm_compute; reflexivity. Qed.

(** C6, amended. The rate in effect is the configured one, except that
    [NewCrawler] replaces 0 by 1.0 ([SetRateLimit] stores any rate as
    it is and drops the tickers). When the rate in effect is [<= 0],
    [rateLimit] returns at once and changes nothing. Otherwise the
    caller waits on the ticker of the URL's host, for its next tick or
    for five seconds, whichever comes first. The ticker is created by
    the first call for the host, with a positive period that is
    [1/rate] seconds when that is a whole number of seconds: this call
    returns after the period or after five seconds, whichever is less.
    A later call returns by a tick that the ticker sent after the last
    one taken, and the ticks left to take are a period later at
    least. *)
Theorem rateLimit_gate unrepresentable cfg c rate u now prefer :
  RateLimit (config (NewCrawler cfg))
  = (if (RateLimit cfg =? 0)%float then 1%float else RateLimit cfg) /\
  (forall at', RateLimit (config (SetRateLimit c rate at')) = rate /\
               rateLimiters (SetRateLimit c rate at') = ∅) /\
  ((RateLimit (config c) <=? 0)%float = true ->
   rateLimit unrepresentable c u now prefer = (c, now, None)) /\
  0 < tickerInterval unrepresentable (RateLimit (config c)) /\
  (forall n, wholeFloat (1 / RateLimit (config c)) n = true -> 1 <= n -> n * Second < 2 ^ 63 ->
     tickerInterval unrepresentable (RateLimit (config c)) = n * Second) /\
  ((RateLimit (config c) <=? 0)%float = false -> rateLimiters c !! Host u = None ->
   let interval := tickerInterval unrepresentable (RateLimit (config c)) in
   let byTick := (interval <? limiterTimeout) || ((interval =? limiterTimeout) && negb prefer) in
   rateLimit unrepresentable c u now prefer
   = (mkCrawler (config c) (robotsCache c) (<[Host u := length (tickers c)]> (rateLimiters c))
                (tickers c
                 ++ [mkTicker interval now (if byTick then now + interval else now) None]),
      now + Z.min interval limiterTimeout,
      Some (if byTick then ByTick else ByTimeout))) /\
  ((RateLimit (config c) <=? 0)%float = false ->
   forall ticker tk,
     rateLimiters c !! Host u = Some ticker -> tickers c !! ticker = Some tk ->
     0 < period tk ->
     emptied tk < nextTick tk <= emptied tk + period tk /\
     (period tk | nextTick tk - created tk) /\
     exists release fired,
       rateLimit unrepresentable c u now prefer
       = (selectDone c ticker release fired, release, Some fired) /\
       now <= release <= now + limiterTimeout /\
       match fired with
       | ByTick =>
           release = Z.max now (nextTick tk) /\
           tickers (selectDone c ticker release fired) !! ticker = Some (takeTick release tk) /\
           nextTick tk + period tk <= nextTick (takeTick release tk)
       | ByTimeout =>
           release = now + limiterTimeout /\
           selectDone c ticker release fired = c /\
           forall tick, tickAt tk now = Some tick -> now + limiterTimeout <= tick
       end).
Proof.
  split; [reflexivity|]. split; [by split|]. split.
  { intros Hr. unfold rateLimit. by rewrite Hr. }
  split; [apply tickerInterval_pos|].
  split; [intros n; apply tickerInterval_whole|].
  split.
  - intros Hr Hnone interval byTick. unfold rateLimit. rewrite Hr, Hnone.
    pose proof (tickerInterval_pos unrepresentable (RateLimit (config c))) as Hpos.
    fold interval in Hpos |- *.
    unfold NewTicker, register. cbn [tickers config robotsCache rateLimiters].
    rewrite lookup_app_r by lia. rewrite Nat.sub_diag. cbn [lookup list_lookup].
    unfold awaitTicker, tickAt, nextTick.
    cbn [period created emptied stopped].
    rewrite Z.sub_diag, Z.div_0_l by lia.
    replace (now + (0 + 1) * interval) with (now + interval) by lia.
    rewrite Z.max_r by lia.
    replace (now + interval <? now + limiterTimeout) with (interval <? limiterTimeout)
      by (destruct (Z.ltb_spec interval limiterTimeout), (Z.ltb_spec (now + interval) (now + limiterTimeout)); lia).
    replace (now + interval =? now + limiterTimeout) with (interval =? limiterTimeout)
      by (destruct (Z.eqb_spec interval limiterTimeout), (Z.eqb_spec (now + interval) (now + limiterTimeout)); lia).
    fold byTick. destruct byTick eqn:Eb; unfold selectDone;
      cbn [tickers config robotsCache rateLimiters].
    + assert (interval <= limiterTimeout).
      { subst byTick. apply orb_true_iff in Eb as [Eb|Eb]; [lia|].
        apply andb_true_iff in Eb as [Eb _]. lia. }
      rewrite Z.min_l by lia.
      replace (alter (takeTick (now + interval)) (length (tickers c))
                 (tickers c ++ [mkTicker interval now now None]))
        with (tickers c ++ [mkTicker interval now (now + interval) None]); [done|].
      replace (length (tickers c)) with (length (tickers c) + 0)%nat at 1 by lia.
      by rewrite alter_app_r.
    + assert (limiterTimeout <= interval).
      { subst byTick. apply orb_false_iff in Eb as [Eb _]. lia. }
      rewrite Z.min_r by lia. done.
  - intros Hr ticker tk Hsome Htk Hp.
    destruct (nextTick_grid tk Hp) as [Hgrid Hdiv].
    split; [done|]. split; [done|].
    unfold rateLimit. rewrite Hr, Hsome, Htk.
    destruct (awaitTicker tk now prefer) as [release fired] eqn:Ea.
    exists release, fired. split; [done|].
    destruct (awaitTicker_bounds _ _ _ _ _ Ea) as [Hb Hf]. split; [done|].
    destruct fired.
    + unfold tickAt in Hf.
      destruct (match stopped tk with Some _ => _ | None => _ end); simplify_eq.
      split; [done|]. split.
      * unfold selectDone. cbn [tickers]. rewrite list_lookup_alter_eq, Htk. done.
      * apply nextTick_takeTick; lia.
    + destruct Hf as [-> Hf]. done.
Qed.

(** A crawler with rate 1 at its first call and at a second call one
    and a half seconds later, the period at the default rate, and a
    crawler whose rate was set to [-1]. *)
Lemma rateLimit_gate_witness :
  (rateLimit (fun _ => 0) (siteCrawler 1) pageA 0 false).1.2 = Second /\
  (rateLimit (fun _ => 0) (siteCrawler 1) pageA 0 false).2 = Some ByTick /\
  (exists release fired,
     rateLimit (fun _ => 0) (rateLimit (fun _ => 0) (siteCrawler 1) pageA 0 false).1.1
               pageB 1500000000 false
     = (selectDone (rateLimit (fun _ => 0) (siteCrawler 1) pageA 0 false).1.1 0 release fired,
        release, Some fired) /\
     1500000000 <= release <= 1500000000 + limiterTimeout) /\
  tickerInterval (fun _ => 0) 0.1 = 10 * Second /\
  rateLimit (fun _ => 0) (SetRateLimit (siteCrawler 1) (-1)%float 0) pageA 7 false
  = (SetRateLimit (siteCrawler 1) (-1)%float 0, 7, None).
Proof.
  destruct (rateLimit_gate (fun _ => 0) (mkConfig 1 1 0 "" 0 false)
              (siteCrawler 1) 1%float pageA 0 false)
    as (_ & _ & _ & _ & _ & Hfirst & _).
  destruct (rateLimit_gate (fun _ => 0) (mkConfig 1 1 0 "" 0 false)
              (rateLimit (fun _ => 0) (siteCrawler 1) pageA 0 false).1.1 1%float pageB
              1500000000 false)
    as (_ & _ & _ & _ & _ & _ & Hlater).
  destruct (rateLimit_gate (fun _ => 0) (mkConfig 1 1 0 "" 0 false)
              defaultCrawler 1%float pageA 0 false)
    as (_ & _ & _ & _ & Hperiod & _).
  destruct (rateLimit_gate (fun _ => 0) (mkConfig 1 1 0 "" 0 false)
              (SetRateLimit (siteCrawler 1) (-1)%float 0) 1%float pageA 7 false)
    as (_ & _ & Hoff & _).
  rewrite (Hfirst eq_refl eq_refl).
  split; [vm_compute; reflexivity|]. split; [vm_compute; reflexivity|].
  split.
  - destruct (Hlater eq_refl 0%nat (mkTicker Second 0 Second None))
      as (_ & _ & release & fired & Hcall & Hb & _);
      [vm_compute; reflexivity|vm_compute; reflexivity|reflexivity|].
    exists release, fired. rewrite <- (Hfirst eq_refl eq_refl). by split.
  - split; [|apply Hoff; vm_compute; reflexivity].
    apply (Hperiod 10); [vm_compute; reflexivity|lia|vm_compute; reflexivity].
Defined.

(** *** The robots cache *)

(** C7. When robots.txt cannot be fetched or parsed, [GetRobots]
    returns the permissive policy without storing it: the cache is as
    it was, and the next call for the same domain requests robots.txt
    again. *)
Theorem GetRobots_failure_not_cached cache get domain userAgent :
  cache !! domain = None ->
  (forall resp, get ("https://" +:+ domain +:+ "/robots.txt") = Ok resp ->
     (parseRobotsTxt (RespBody resp) userAgent).2 <> None) ->
  GetRobotsTwice cache get domain userAgent
  = ((permissive userAgent, permissive userAgent), cache,
     ["https://" +:+ domain +:+ "/robots.txt"; "https://" +:+ domain +:+ "/robots.txt"]).
Proof.
  intros Hc Hfail. unfold GetRobotsTwice.
  assert (Hone : GetRobots cache get domain userAgent
                 = (permissive userAgent, cache, ["https://" +:+ domain +:+ "/robots.txt"])).
  { unfold GetRobots. rewrite Hc.
    destruct (get _) as [resp| |] eqn:E; [|done|done].
    specialize (Hfail resp eq_refl).
    by destruct (parseRobotsTxt (RespBody resp) userAgent) as [rb [e|]]. }
  by rewrite !Hone.
Qed.

Lemma GetRobots_failure_not_cached_witness :
  GetRobotsTwice ∅ unreachable "down.example" "ai-search/1.0"
  = ((permissive "ai-search/1.0", permissive "ai-search/1.0"), ∅,
     ["https://down.example/robots.txt"; "https://down.example/robots.txt"]).
Proof.
  apply (GetRobots_failure_not_cached ∅ unreachable "down.example" "ai-search/1.0").
  - reflexivity.
  - intros resp H. discriminate H.
Defined.

(** What does hold: a policy that was fetched and parsed is stored and
    answers the next call without a request. *)
Lemma GetRobots_success_cached cache get domain userAgent resp rb :
  cache !! domain = None ->
  get ("https://" +:+ domain +:+ "/robots.txt") = Ok resp ->
  parseRobotsTxt (RespBody resp) userAgent = (rb, None) ->
  GetRobotsTwice cache get domain userAgent
  = ((rb, rb), <[domain := rb]> cache, ["https://" +:+ domain +:+ "/robots.txt"]).
Proof.
  intros Hc Hg Hp. unfold GetRobotsTwice, GetRobots.
  rewrite Hc, Hg, Hp, lookup_insert_eq. done.
Qed.

(** *** The status check of [fetchAndParse] *)

(** C9 as stated fails: a response with status 204, a 2xx status, does
    not reach the content-type check; it is returned as an error. *)
Lemma status_204_rejected :
  fetchAndParse siteParseHTML siteNormalize siteIsValid plainString siteHash
    (siteCrawler 1) (Ok (mkResponse 204 "text/html" (mkBody "" None))) pageA
  = Err "HTTP 204" /\
  200 <= 204 < 300.
Proof. split; [vm_compute; reflexivity|lia]. Qed.

(** C9, amended. [fetchAndParse] goes on to the content-type check
    exactly for status 200, and returns every other status as the
    error [HTTP <status>]. *)
Theorem fetchAndParse_status_check ParseHTML Normalize IsValid URLString sha256hex
    c resp targetURL :
  (StatusCode resp = StatusOK ->
   fetchAndParse ParseHTML Normalize IsValid URLString sha256hex c (Ok resp) targetURL
   = parseResponse ParseHTML Normalize IsValid URLString sha256hex c resp targetURL) /\
  (StatusCode resp <> StatusOK ->
   fetchAndParse ParseHTML Normalize IsValid URLString sha256hex c (Ok resp) targetURL
   = Err ("HTTP " +:+ pretty (StatusCode resp))).
Proof.
  unfold fetchAndParse. split; intros H; case_bool_decide; done.
Qed.

(** A response with status 200 goes on to the content-type check,
    which rejects its type here; status 404 is rejected on the status. *)
Lemma fetchAndParse_status_check_witness :
  fetchAndParse siteParseHTML siteNormalize siteIsValid plainString siteHash
    (siteCrawler 1) (Ok (mkResponse 200 "application/json" (mkBody "{}" None))) pageA
  = parseResponse siteParseHTML siteNormalize siteIsValid plainString siteHash
      (siteCrawler 1) (mkResponse 200 "application/json" (mkBody "{}" None)) pageA /\
  fetchAndParse siteParseHTML siteNormalize siteIsValid plainString siteHash
    (siteCrawler 1) (Ok (mkResponse 404 "text/html" (mkBody "" None))) pageA
  = Err ("HTTP " +:+ pretty 404).
Proof.
  split.
  - apply (fetchAndParse_status_check siteParseHTML siteNormalize siteIsValid plainString
             siteHash (siteCrawler 1)
             (mkResponse 200 "application/json" (mkBody "{}" None)) pageA).
    reflexivity.
  - apply (fetchAndParse_status_check siteParseHTML siteNormalize siteIsValid plainString
             siteHash (siteCrawler 1) (mkResponse 404 "text/html" (mkBody "" None)) pageA).
    discriminate.
Defined.

End Crawler.

(** ** More of the Go runtime *)

Module Go.

(** [len(s)] of a string, as a Go int. *)
Definition strlen (s : string) : Z := Z.of_nat (String.length s).

Definition int_sub (a b : Z) : Z := wrap64 (a - b).

(** [s[i]] on a string: [None] is the index-out-of-range panic. *)
Definition byteAt (s : string) (i : Z) : option Ascii.ascii :=
  if i <? 0 then None else String.get (Z.to_nat i) s.

(** [s[lo:]] on a string. *)
Definition sliceFrom (s : string) (lo : Z) : outcome string :=
  if (0 <=? lo) && (lo <=? strlen s)
  then Ok (Strings.from (Z.to_nat lo) s)
  else Panic "slice bounds out of range".

(** [s[lo:hi]] on a slice whose capacity equals its length. *)
Definition slice {A : Type} (s : list A) (lo hi : Z) : outcome (list A) :=
  if (0 <=? lo) && (lo <=? hi) && (hi <=? len s)
  then Ok (take (Z.to_nat (hi - lo)) (drop (Z.to_nat lo) s))
  else Panic "slice bounds out of range".

Definition bindOutcome {A B : Type} (x : outcome A) (f : A -> outcome B) : outcome B :=
  match x with
  | Ok a => f a
  | Err e => Err e
  | Panic p => Panic p
  end.

(** A loop over a slice whose body can fail or panic. *)
Fixpoint foldOutcome {A S : Type} (f : S -> A -> outcome S) (st : S) (l : list A)
  : outcome S :=
  match l with
  | [] => Ok st
  | x :: xs => bindOutcome (f st x) (fun st' => foldOutcome f st' xs)
  end.

Lemma foldOutcome_app {A S : Type} (f : S -> A -> outcome S) st l1 l2 :
  foldOutcome f st (l1 ++ l2) = bindOutcome (foldOutcome f st l1) (fun st' => foldOutcome f st' l2).
Proof.
  revert st. induction l1 as [|x xs IH]; intros st; simpl; [done|].
  destruct (f st x); simpl; [apply IH|done|done].
Qed.

End Go.

(** ** internal/chunker *)

Module Chunker.
Import Go.

(** *** Go values the chunker works on *)

(** [unicode.IsSpace(rune(b))] for a byte [b]: the Latin-1 white space. *)
Definition IsSpace (b : Ascii.ascii) : bool :=
  let n := Ascii.nat_of_ascii b in
  ((n =? 32) || ((9 <=? n) && (n <=? 13)) || (n =? 133) || (n =? 160))%nat.

(** [strings.Index]: the first position of [substr] in [s]. *)
Fixpoint Index (s substr : string) : option nat :=
  if String.prefix substr s then Some O
  else match s with
       | EmptyString => None
       | String _ s' => match Index s' substr with
                        | Some i => Some (S i)
                        | None => None
                        end
       end.

(** [fmt.Sprintf("%x", b)] for a byte slice: two lower-case hexadecimal
    digits per byte. *)
Definition hexDigit (n : N) : Ascii.ascii :=
  if (n <? 10)%N then Ascii.ascii_of_N (48 + n) else Ascii.ascii_of_N (87 + n).

Fixpoint hexEncode (b : list Byte.byte) : string :=
  match b with
  | [] => EmptyString
  | x :: rest =>
      String (hexDigit (Byte.to_N x / 16)) (String (hexDigit (Byte.to_N x mod 16)) (hexEncode rest))
  end.

(** *** chunker.go *)

(** [Chunk]; the metadata map has the two integer entries
    [createChunk] gives it. *)
Record Chunk : Type := mkChunk {
  ID : string;
  Text : string;
  StartPos : Z;
  EndPos : Z;
  Metadata : list (string * Z)
}.

Record Config : Type := mkConfig {
  ChunkSize : Z;
  OverlapSize : Z;
  MinChunkSize : Z
}.

(** [NewTextChunker]: the chunker is its configuration. *)
Definition NewTextChunker (config : Config) : Config :=
  mkConfig (if ChunkSize config =? 0 then 1000 else ChunkSize config)
           (if OverlapSize config =? 0 then 200 else OverlapSize config)
           (if MinChunkSize config =? 0 then 100 else MinChunkSize config).

(** The loop of [getOverlapText] at index [i], with [n] iterations
    left: the overlap it returns, or [None] when it runs to the end. *)
Fixpoint overlapLoop (chunkText : string) (i : Z) (n : nat) : outcome (option string) :=
  match n with
  | O => Ok None
  | S n' =>
      match byteAt chunkText i with
      | None => Panic "index out of range"
      | Some b =>
          if IsSpace b
          then bindOutcome (sliceFrom chunkText (int_add i 1)) (fun overlap => Ok (Some overlap))
          else overlapLoop chunkText (int_add i 1) n'
      end
  end.

Definition getOverlapText (c : Config) (chunkText : string) : outcome string :=
  if strlen chunkText <=? OverlapSize c then Ok chunkText
  else
    let overlapStart := int_sub (strlen chunkText) (OverlapSize c) in
    bindOutcome
      (overlapLoop chunkText overlapStart (Z.to_nat (strlen chunkText - overlapStart)))
      (fun found =>
         match found with
         | Some overlap => Ok overlap
         | None => sliceFrom chunkText (int_sub (strlen chunkText) (OverlapSize c))
         end).

Definition calculateStartPos (originalText chunkText : string) : Z :=
  match Index originalText chunkText with
  | Some pos => Z.of_nat pos
  | None => 0
  end.

Section TextChunker.

(** SHA-256 and the two calls into [regexp] are taken as given:
    [ReplaceAllString pattern src repl] and [Split pattern s n] stand
    for [regexp.MustCompile(pattern).ReplaceAllString(src, repl)] and
    [regexp.MustCompile(pattern).Split(s, n)]. *)
Variable Sum256 : string -> list Byte.byte.
Variable ReplaceAllString : string -> string -> string -> string.
Variable Split : string -> string -> Z -> list string.

Definition createChunk (id : Z) (text : string) (startPos endPos : Z) : Chunk :=
  let hash := Sum256 (pretty id +:+ "-" +:+ text) in
  let chunkID := hexEncode (take 8 hash) in
  mkChunk chunkID text startPos endPos [("chunk_size", strlen text); ("chunk_id", id)].

Definition cleanText (text : string) : string :=
  let text := ReplaceAllString "\s+" text " " in
  let text := ReplaceAllString "[\x00-\x1F\x7F]" text "" in
  Strings.TrimSpace text.

Definition splitIntoSentences (text : string) : list string :=
  let sentences := Split "[.!?]+\s+" text (-1) in
  filter (fun sentence => sentence <> "") (Strings.TrimSpace <$> sentences).

(** The variables of the loop of [Chunk]. *)
Record chunkLoop : Type := mkLoop {
  chunks : list Chunk;
  currentChunk : string;
  startPos : Z;
  chunkID : Z
}.

(** One iteration of [for _, sentence := range sentences]. *)
Definition chunkSentence (c : Config) (text : string) (st : chunkLoop) (sentence : string)
  : outcome chunkLoop :=
  bindOutcome
    (if (int_add (strlen (currentChunk st)) (strlen sentence) >? ChunkSize c)
        && (strlen (currentChunk st) >? 0)
     then
       let chunkText := Strings.TrimSpace (currentChunk st) in
       let st :=
         if strlen chunkText >=? MinChunkSize c
         then mkLoop (chunks st ++ [createChunk (chunkID st) chunkText (startPos st)
                                      (int_add (startPos st) (strlen chunkText))])
                     (currentChunk st) (startPos st) (int_add (chunkID st) 1)
         else st in
       bindOutcome (getOverlapText c chunkText) (fun overlapText =>
         Ok (mkLoop (chunks st) overlapText (calculateStartPos text overlapText) (chunkID st)))
     else Ok st)
    (fun st =>
       let current :=
         if strlen (currentChunk st) >? 0 then currentChunk st +:+ " " else currentChunk st in
       Ok (mkLoop (chunks st) (current +:+ sentence) (startPos st) (chunkID st))).

(** "Add final chunk if it has content". *)
Definition finalChunk (c : Config) (st : chunkLoop) : list Chunk :=
  if strlen (currentChunk st) >? 0 then
    let chunkText := Strings.TrimSpace (currentChunk st) in
    if strlen chunkText >=? MinChunkSize c
    then chunks st ++ [createChunk (chunkID st) chunkText (startPos st)
                         (int_add (startPos st) (strlen chunkText))]
    else chunks st
  else chunks st.

(** [textChunker.Chunk] *)
Definition textChunker_Chunk (c : Config) (text : string) : outcome (list Chunk) :=
  if bool_decide (text = "") then Ok []
  else
    let text := cleanText text in
    let sentences := splitIntoSentences text in
    bindOutcome (foldOutcome (chunkSentence c text) (mkLoop [] "" 0 0) sentences)
                (fun st => Ok (finalChunk c st)).

End TextChunker.

(** *** The two regular expressions, on bytes

    Both patterns are sets of ASCII bytes, so matching them is
    scanning the bytes of the string. *)

(** [\s] of Go's regexp syntax. *)
Definition isReSpace (c : Ascii.ascii) : bool :=
  let n := Ascii.nat_of_ascii c in
  ((n =? 32) || (n =? 9) || (n =? 10) || (n =? 12) || (n =? 13))%nat.

(** [[\x00-\x1F\x7F]] *)
Definition isControl (c : Ascii.ascii) : bool :=
  let n := Ascii.nat_of_ascii c in ((n <=? 31) || (n =? 127))%nat.

(** [[.!?]] *)
Definition isStop (c : Ascii.ascii) : bool :=
  let n := Ascii.nat_of_ascii c in ((n =? 46) || (n =? 33) || (n =? 63))%nat.

(** Every maximal run of [\s] replaced by one space. *)
Fixpoint collapseSpace (inRun : bool) (s : string) : string :=
  match s with
  | EmptyString => EmptyString
  | String c s' =>
      if isReSpace c
      then if inRun then collapseSpace true s' else String (Ascii.ascii_of_nat 32) (collapseSpace true s')
      else String c (collapseSpace false s')
  end.

Fixpoint dropControl (s : string) : string :=
  match s with
  | EmptyString => EmptyString
  | String c s' => if isControl c then dropControl s' else String c (dropControl s')
  end.

(** Where the scan for [[.!?]+\s+] stands: in a piece, after a run of
    stops that may yet turn out to be a separator, or in the white
    space of a separator. *)
Inductive splitMode : Type :=
| InPiece
| InStops (run : string)
| InSeparator.

(** The pieces between the matches of [[.!?]+\s+]; [piece] is the
    piece read so far. *)
Fixpoint splitStops (mode : splitMode) (piece : string) (s : string) : list string :=
  match s with
  | EmptyString =>
      match mode with
      | InStops run => [piece +:+ run]
      | _ => [piece]
      end
  | String c s' =>
      match mode with
      | InPiece =>
          if isStop c then splitStops (InStops (String c EmptyString)) piece s'
          else splitStops InPiece (piece +:+ String c EmptyString) s'
      | InStops run =>
          if isStop c then splitStops (InStops (run +:+ String c EmptyString)) piece s'
          else if isReSpace c then piece :: splitStops InSeparator EmptyString s'
          else splitStops InPiece (piece +:+ run +:+ String c EmptyString) s'
      | InSeparator =>
          if isReSpace c then splitStops InSeparator EmptyString s'
          else if isStop c then splitStops (InStops (String c EmptyString)) EmptyString s'
          else splitStops InPiece (String c EmptyString) s'
      end
  end.

Definition plainReplaceAllString (pattern src repl : string) : string :=
  if bool_decide (pattern = "\s+") then collapseSpace false src
  else if bool_decide (pattern = "[\x00-\x1F\x7F]") then dropControl src
  else src.

Definition plainSplit (pattern s : string) (n : Z) : list string :=
  if bool_decide (pattern = "[.!?]+\s+") then splitStops InPiece EmptyString s else [s].

(** A hash for the examples. *)
Definition zeroHash (s : string) : list Byte.byte := replicate 32 Byte.x00.

Definition plainChunk : Config -> string -> outcome (list Chunk) :=
  textChunker_Chunk zeroHash plainReplaceAllString plainSplit.

(** *** What the properties speak of *)

(** [suffix] is what is left of [s] after some of its first bytes. *)
Definition isSuffix (suffix s : string) : Prop := exists before, s = before +:+ suffix.

Definition wellFormed (c : Config) (chunk : Chunk) : Prop :=
  MinChunkSize c <= strlen (Text chunk) /\
  0 <= StartPos chunk /\
  EndPos chunk = int_add (StartPos chunk) (strlen (Text chunk)).

(** What the loop of [Chunk] keeps after [read] sentences: the chunks
    made so far are well formed, the start position is not negative,
    and fewer chunks were made than sentences read. *)
Definition loopInv (c : Config) (read : nat) (st : chunkLoop) : Prop :=
  Forall (wellFormed c) (chunks st) /\ 0 <= startPos st /\
  (read = O -> chunks st = [] /\ currentChunk st = "") /\
  (read <> O -> (length (chunks st) < read)%nat).

Definition isHexDigit (c : Ascii.ascii) : bool :=
  let n := Ascii.nat_of_ascii c in
  (((48 <=? n) && (n <=? 57)) || ((97 <=? n) && (n <=? 102)))%nat.

Fixpoint allHex (s : string) : bool :=
  match s with
  | EmptyString => true
  | String c s' => isHexDigit c && allHex s'
  end.

(** *** Strings *)

Lemma substring_all s : String.substring 0 (String.length s) s = s.
Proof. induction s as [|c s IH]; simpl; [done|]. by rewrite IH. Qed.

Lemma from_cons k c s : Strings.from (S k) (String c s) = Strings.from k s.
Proof. reflexivity. Qed.

Lemma from_length k s :
  (k <= String.length s)%nat ->
  String.length (Strings.from k s) = (String.length s - k)%nat.
Proof.
  revert k. induction s as [|c s IH]; intros [|k] Hk; simpl in Hk; try lia.
  - done.
  - unfold Strings.from. rewrite Nat.sub_0_r. by rewrite substring_all.
  - rewrite from_cons. rewrite IH by lia. done.
Qed.

Lemma from_isSuffix k s : isSuffix (Strings.from k s) s.
Proof.
  revert k. induction s as [|c s IH]; intros [|k].
  - by exists EmptyString.
  - by exists EmptyString.
  - exists EmptyString. unfold Strings.from. by rewrite Nat.sub_0_r, substring_all.
  - rewrite from_cons. destruct (IH k) as [before Hb].
    exists (String c before).
    change (String c s = String c (before +:+ Strings.from k s)). by rewrite <- Hb.
Qed.

Lemma get_lt k s : (k < String.length s)%nat -> exists b, String.get k s = Some b.
Proof.
  revert k. induction s as [|c s IH]; intros [|k] Hk; simpl in *; try lia.
  - by eexists.
  - apply IH. lia.
Qed.

(** *** [getOverlapText] *)

Lemma int_add_1_below i bound : 0 <= i < bound -> bound < 2 ^ 63 -> int_add i 1 = i + 1.
Proof.
  intros Hi Hb. unfold int_add, wrap64. rewrite Z.mod_small by lia. lia.
Qed.

Lemma sliceFrom_ok s lo :
  0 <= lo <= strlen s -> sliceFrom s lo = Ok (Strings.from (Z.to_nat lo) s).
Proof.
  intros [H0 H1]. unfold sliceFrom.
  apply Z.leb_le in H0, H1. by rewrite H0, H1.
Qed.

(** The loop either runs to the end or returns what follows a space it
    found at or after [i]. *)
Lemma overlapLoop_found chunkText n i :
  strlen chunkText < 2 ^ 63 -> 0 <= i -> i + Z.of_nat n = strlen chunkText ->
  overlapLoop chunkText i n = Ok None \/
  exists j, i <= j < strlen chunkText /\
            overlapLoop chunkText i n = Ok (Some (Strings.from (Z.to_nat (j + 1)) chunkText)).
Proof.
  intros Hlen. revert i. induction n as [|n IH]; intros i Hi Hn; simpl; [by left|].
  unfold byteAt. assert ((i <? 0) = false) as -> by (apply Z.ltb_ge; lia).
  destruct (get_lt (Z.to_nat i) chunkText) as [b Hb]; [unfold strlen in *; lia|].
  rewrite Hb. rewrite (int_add_1_below i (strlen chunkText)) by lia.
  destruct (IsSpace b).
  - right. exists i. split; [lia|].
    rewrite sliceFrom_ok by lia. done.
  - destruct (IH (i + 1)) as [Hnone|(j & Hj & Hsome)]; [lia|lia|by left|].
    right. exists j. split; [lia|done].
Qed.

(** [getOverlapText] with an overlap size that is not negative returns
    an end of the chunk text of at most that many bytes; with a
    negative one it panics, whatever the text. *)
Theorem getOverlapText_suffix c chunkText :
  strlen chunkText < 2 ^ 63 ->
  (0 <= OverlapSize c ->
   exists overlap,
     getOverlapText c chunkText = Ok overlap /\
     strlen overlap <= OverlapSize c /\ isSuffix overlap chunkText) /\
  (- 2 ^ 63 <= OverlapSize c < 0 -> exists p, getOverlapText c chunkText = Panic p).
Proof.
  intros Hlen. unfold getOverlapText. split.
  - intros Ho. destruct (strlen chunkText <=? OverlapSize c) eqn:E.
    + exists chunkText. split; [done|]. split; [lia|]. by exists EmptyString.
    + assert (Hs : int_sub (strlen chunkText) (OverlapSize c)
                   = strlen chunkText - OverlapSize c).
      { unfold int_sub, wrap64. unfold strlen in *. rewrite Z.mod_small by lia. lia. }
      rewrite Hs.
      destruct (overlapLoop_found chunkText
                  (Z.to_nat (strlen chunkText - (strlen chunkText - OverlapSize c)))
                  (strlen chunkText - OverlapSize c) Hlen) as [Hnone|(j & Hj & Hsome)];
        [lia|lia| |].
      * rewrite Hnone. simpl. rewrite sliceFrom_ok by (unfold strlen in *; lia).
        eexists. split; [done|]. split; [|apply from_isSuffix].
        unfold strlen in *. rewrite from_length by lia. lia.
      * rewrite Hsome. simpl.
        eexists. split; [done|]. split; [|apply from_isSuffix].
        unfold strlen in *. rewrite from_length by lia. lia.
  - intros Ho. assert ((strlen chunkText <=? OverlapSize c) = false) as ->
      by (apply Z.leb_gt; unfold strlen; lia).
    destruct (Z_lt_ge_dec (strlen chunkText - OverlapSize c) (2 ^ 63)) as [Hsmall|Hbig].
    + assert (Hs : int_sub (strlen chunkText) (OverlapSize c)
                   = strlen chunkText - OverlapSize c).
      { unfold int_sub, wrap64. unfold strlen in *. rewrite Z.mod_small by lia. lia. }
      rewrite Hs.
      replace (Z.to_nat (strlen chunkText - (strlen chunkText - OverlapSize c))) with O by lia.
      simpl. unfold sliceFrom.
      assert ((strlen chunkText - OverlapSize c <=? strlen chunkText) = false) as ->
        by (apply Z.leb_gt; lia).
      rewrite andb_false_r. by eexists.
    + assert (Hs : int_sub (strlen chunkText) (OverlapSize c)
                   = strlen chunkText - OverlapSize c - 2 ^ 64).
      { unfold int_sub, wrap64. unfold strlen in *.
        replace (Z.of_nat (String.length chunkText) - OverlapSize c + 2 ^ 63)
          with (Z.of_nat (String.length chunkText) - OverlapSize c - 2 ^ 63 + 1 * 2 ^ 64) by lia.
        rewrite Z_mod_plus_full, Z.mod_small by lia. lia. }
      rewrite Hs.
      destruct (Z.to_nat (strlen chunkText - (strlen chunkText - OverlapSize c - 2 ^ 64)))
        as [|n] eqn:En; [unfold strlen in *; lia|].
      simpl. unfold byteAt.
      assert ((strlen chunkText - OverlapSize c - 2 ^ 64 <? 0) = true) as ->
        by (apply Z.ltb_lt; unfold strlen in *; lia).
      by eexists.
Qed.

Lemma getOverlapText_suffix_witness :
  (exists overlap,
     getOverlapText (mkConfig 1000 5 100) "Hello world" = Ok overlap /\
     strlen overlap <= 5 /\ isSuffix overlap "Hello world") /\
  (exists p, getOverlapText (mkConfig 1000 (-1) 100) "Hello world" = Panic p).
Proof.
  split.
  - apply (getOverlapText_suffix (mkConfig 1000 5 100) "Hello world"); [reflexivity|].
    simpl. lia.
  - apply (getOverlapText_suffix (mkConfig 1000 (-1) 100) "Hello world"); [reflexivity|].
    simpl. lia.
Defined.

(** *** [Chunk] *)

Section ChunkFacts.

Variable Sum256 : string -> list Byte.byte.
Variable ReplaceAllString : string -> string -> string -> string.
Variable Split : string -> string -> Z -> list string.
Variable c : Config.
Variable text : string.

Lemma created_wellFormed id chunkText start :
  (strlen chunkText >=? MinChunkSize c) = true -> 0 <= start ->
  wellFormed c (createChunk Sum256 id chunkText start (int_add start (strlen chunkText))).
Proof.
  intros Hm Hs. unfold wellFormed. simpl. split; [lia|]. by split.
Qed.

Lemma calculateStartPos_nonneg originalText chunkText :
  0 <= calculateStartPos originalText chunkText.
Proof. unfold calculateStartPos. destruct (Index _ _); lia. Qed.

Lemma chunkSentence_inv read st sentence st' :
  loopInv c read st -> chunkSentence Sum256 c text st sentence = Ok st' ->
  loopInv c (S read) st'.
Proof.
  intros (Hwf & Hs & H0 & Hn) Hstep. unfold chunkSentence in Hstep.
  destruct ((int_add (strlen (currentChunk st)) (strlen sentence) >? ChunkSize c)
            && (strlen (currentChunk st) >? 0)) eqn:Eflush.
  - destruct read as [|read].
    { destruct (H0 eq_refl) as [_ Hcur]. rewrite Hcur in Eflush.
      by rewrite andb_false_r in Eflush. }
    assert (length (chunks st) < S read)%nat as Hlt by (by apply Hn).
    destruct (strlen (Strings.TrimSpace (currentChunk st)) >=? MinChunkSize c) eqn:Emin;
      simpl in Hstep;
      destruct (getOverlapText c (Strings.TrimSpace (currentChunk st))) as [overlap| |];
      simpl in Hstep; try done; injection Hstep as <-; unfold loopInv; simpl.
    + split; [|split; [apply calculateStartPos_nonneg|split; [done|]]].
      * apply Forall_app. split; [done|]. constructor; [|done]. by apply created_wellFormed.
      * intros _. rewrite length_app. simpl. lia.
    + split; [done|]. split; [apply calculateStartPos_nonneg|]. split; [done|].
      intros _. lia.
  - simpl in Hstep. injection Hstep as <-. unfold loopInv. simpl.
    split; [done|]. split; [done|]. split; [done|]. intros _.
    destruct read as [|read]; [destruct (H0 eq_refl) as [-> _]; simpl; lia|].
    assert (length (chunks st) < S read)%nat by (by apply Hn). lia.
Qed.

Lemma foldOutcome_inv sentences read st st' :
  loopInv c read st -> foldOutcome (chunkSentence Sum256 c text) st sentences = Ok st' ->
  loopInv c (read + length sentences) st'.
Proof.
  revert read st. induction sentences as [|s ss IH]; intros read st Hinv Hf; simpl in Hf.
  - injection Hf as <-. by rewrite Nat.add_0_r.
  - destruct (chunkSentence Sum256 c text st s) as [st1| |] eqn:E; simpl in Hf; try done.
    replace (read + length (s :: ss))%nat with (S read + length ss)%nat by (simpl; lia).
    eapply IH; [|exact Hf]. by eapply chunkSentence_inv.
Qed.

Lemma finalChunk_inv read st :
  loopInv c read st ->
  Forall (wellFormed c) (finalChunk Sum256 c st) /\
  (length (finalChunk Sum256 c st) <= read)%nat.
Proof.
  intros (Hwf & Hs & H0 & Hn). unfold finalChunk.
  destruct read as [|read].
  - destruct (H0 eq_refl) as [Hc Hcur]. rewrite Hcur, Hc. simpl. by split.
  - assert (length (chunks st) < S read)%nat by (by apply Hn).
    destruct (strlen (currentChunk st) >? 0); [|split; [done|lia]].
    destruct (strlen (Strings.TrimSpace (currentChunk st)) >=? MinChunkSize c) eqn:Emin;
      [|split; [done|lia]].
    split.
    + apply Forall_app. split; [done|]. constructor; [|done]. by apply created_wellFormed.
    + rewrite length_app. simpl. lia.
Qed.

End ChunkFacts.

(** Every chunk [Chunk] returns has at least [MinChunkSize] bytes of
    text, a start position that is not negative and an end position
    that is the start plus the length of the text; there are at most as
    many chunks as the cleaned text has sentences, and none for the
    empty text. *)
Theorem Chunk_chunks_wellFormed Sum256 ReplaceAllString Split c text chunks :
  textChunker_Chunk Sum256 ReplaceAllString Split c text = Ok chunks ->
  Forall (wellFormed c) chunks /\
  (length chunks
   <= length (splitIntoSentences Split (cleanText ReplaceAllString text)))%nat /\
  (text = "" -> chunks = []).
Proof.
  unfold textChunker_Chunk. intros H. case_bool_decide as Htext.
  - injection H as <-. split; [constructor|]. split; [simpl; lia|done].
  - destruct (foldOutcome _ _ _) as [st| |] eqn:E; simpl in H; try done.
    injection H as <-.
    assert (Hinit : loopInv c O (mkLoop [] "" 0 0)).
    { split; [constructor|]. split; [done|]. split; [done|]. intros Hne. done. }
    pose proof (foldOutcome_inv Sum256 c _ _ _ _ _ Hinit E) as Hinv.
    destruct (finalChunk_inv Sum256 c _ _ Hinv) as [H1 H2].
    split; [done|]. split; [exact H2|done].
Qed.

Lemma Chunk_chunks_wellFormed_witness :
  exists chunks,
    plainChunk (mkConfig 20 5 3) "Hello world.  This is it! And more? yes. no" = Ok chunks /\
    length chunks = 3%nat /\
    Forall (wellFormed (mkConfig 20 5 3)) chunks.
Proof.
  eexists. split; [vm_compute; reflexivity|]. split; [reflexivity|].
  lazymatch goal with
  | |- Forall _ ?chunks =>
      exact (proj1 (Chunk_chunks_wellFormed zeroHash plainReplaceAllString plainSplit
                      (mkConfig 20 5 3) "Hello world.  This is it! And more? yes. no"
                      chunks eq_refl))
  end.
Defined.

(** *** Chunk ids *)

Lemma hexDigit_isHexDigit n : (n < 16)%N -> isHexDigit (hexDigit n) = true.
Proof.
  intros Hn. rewrite <- (N2Nat.id n).
  assert (Hk : (N.to_nat n < 16)%nat) by lia.
  revert Hk. generalize (N.to_nat n). intros k Hk.
  do 16 (destruct k as [|k]; [reflexivity|]). lia.
Qed.

Lemma hexEncode_allHex b : allHex (hexEncode b) = true.
Proof.
  induction b as [|x rest IH]; simpl; [done|].
  rewrite IH, !hexDigit_isHexDigit; [done| |].
  - apply N.mod_lt. done.
  - apply N.Div0.div_lt_upper_bound. destruct x; vm_compute; done.
Qed.

(** The id [createChunk] gives a chunk is made of hexadecimal digits:
    it is never one of the ids [chunk_<j>] that [searchChroma] gives
    its results. *)
Theorem createChunk_id_is_hex Sum256 id text startPos endPos :
  allHex (ID (createChunk Sum256 id text startPos endPos)) = true /\
  (String.length (ID (createChunk Sum256 id text startPos endPos)) <= 16)%nat /\
  forall j : nat, ID (createChunk Sum256 id text startPos endPos) <> "chunk_" +:+ pretty j.
Proof.
  assert (Hhex : allHex (ID (createChunk Sum256 id text startPos endPos)) = true)
    by apply hexEncode_allHex.
  split; [done|]. split.
  - simpl. generalize (Sum256 (pretty id +:+ "-" +:+ text)). intros hash.
    assert (Hl : forall b, String.length (hexEncode b) = (2 * length b)%nat).
    { induction b as [|x rest IH]; simpl; [done|]. rewrite IH. lia. }
    rewrite Hl, length_take. lia.
  - intros j Heq. rewrite Heq in Hhex. simpl in Hhex. discriminate Hhex.
Qed.

End Chunker.

(** ** internal/embeddings *)

Module Embeddings.
Import Go.

Record Config : Type := mkConfig {
  Model : string;
  BatchSize : Z;
  Timeout : Z;
  APIKey : string;
  BaseURL : string
}.

(** [NewEmbedder]: the embedder is its configuration (its dimension is
    the constant 1536). *)
Definition NewEmbedder (config : Config) : Config :=
  mkConfig (if bool_decide (Model config = "") then "text-embedding-3-small" else Model config)
           (if BatchSize config =? 0 then 10 else BatchSize config)
           (if Timeout config =? 0 then 30 else Timeout config)
           (APIKey config)
           (if bool_decide (BaseURL config = "") then "https://api.openai.com/v1"
            else BaseURL config).

Definition Dimensions (e : Config) : Z := 1536.

(** An entry of [OpenAIResponse.Data]. *)
Record Datum : Type := mkDatum {
  Embedding : list Q;
  Index : Z
}.

(** What [embedBatch] reads of the HTTP response. *)
Record Reply : Type := mkReply {
  StatusCode : Z;
  Body : string
}.

(** Body of the loop over [response.Data]: the entry is stored at its
    index when that is below the length. *)
Definition placeEmbedding (embeddings : list (list Q)) (data : Datum)
  : outcome (list (list Q)) :=
  if Index data <? len embeddings then
    if Index data <? 0 then Panic "index out of range"
    else Ok (<[Z.to_nat (Index data) := Embedding data]> embeddings)
  else Ok embeddings.

Section Embedder.

(** The HTTP exchange is taken as given: building the request for a
    URL and an input, sending it, and decoding the JSON body. *)
Variable request : Type.
Variable NewRequest : string -> list string -> outcome request.
Variable Do : request -> outcome Reply.
Variable Decode : string -> outcome (list Datum).

Variable e : Config.

(** [embedBatch]; a [nil] embedding is the empty list. *)
Definition embedBatch (texts : list string) : outcome (list (list Q)) :=
  match NewRequest (BaseURL e +:+ "/embeddings") texts with
  | Err err => Err ("failed to create request: " +:+ err)
  | Panic p => Panic p
  | Ok req =>
      match Do req with
      | Err err => Err ("failed to make request: " +:+ err)
      | Panic p => Panic p
      | Ok resp =>
          if bool_decide (StatusCode resp <> 200)
          then Err ("API request failed with status " +:+ pretty (StatusCode resp)
                    +:+ ": " +:+ Body resp)
          else
            match Decode (Body resp) with
            | Err err => Err ("failed to decode response: " +:+ err)
            | Panic p => Panic p
            | Ok data => foldOutcome placeEmbedding (replicate (length texts) []) data
            end
      end
  end.

(** The loop of [EmbedBatch] at index [i]: the result, and the batches
    sent so far. [None]: the loop is still running when the fuel is
    used up. *)
Fixpoint batchLoop (fuel : nat) (texts : list string) (i : Z)
    (allEmbeddings : list (list Q)) (sent : list (list string))
  : option (outcome (list (list Q)) * list (list string)) :=
  match fuel with
  | O => None
  | S fuel' =>
      if i <? len texts then
        let end_ := int_add i (BatchSize e) in
        let end_ := if end_ >? len texts then len texts else end_ in
        match slice texts i end_ with
        | Ok batch =>
            match embedBatch batch with
            | Ok embeddings =>
                batchLoop fuel' texts (int_add i (BatchSize e))
                          (allEmbeddings ++ embeddings) (sent ++ [batch])
            | Err err => Some (Err err, sent ++ [batch])
            | Panic p => Some (Panic p, sent ++ [batch])
            end
        | Err err => Some (Err err, sent)
        | Panic p => Some (Panic p, sent)
        end
      else Some (Ok allEmbeddings, sent)
  end.

Definition EmbedBatch (fuel : nat) (texts : list string)
  : option (outcome (list (list Q)) * list (list string)) :=
  if len texts =? 0 then Some (Ok [], []) else batchLoop fuel texts 0 [] [].

Definition Embed (fuel : nat) (text : string) : option (outcome (list Q)) :=
  match EmbedBatch fuel [text] with
  | None => None
  | Some (Ok embeddings, _) =>
      match embeddings with
      | [] => Some (Err "no embeddings returned")
      | first :: _ => Some (Ok first)
      end
  | Some (Err err, _) => Some (Err err)
  | Some (Panic p, _) => Some (Panic p)
  end.

End Embedder.

(** *** What the properties speak of *)

(** A batch [EmbedBatch] may send: not empty, and no longer than the
    batch size. *)
Definition batchOK (e : Config) (batch : list string) : Prop :=
  0 < len batch <= BatchSize e.

(** The embedding the loop of [embedBatch] leaves at index [i]: that
    of the last entry of the response with this index, [nil] when
    there is none. *)
Definition embeddingAt (data : list Datum) (i : Z) : list Q :=
  match last (filter (fun d => Index d = i) data) with
  | Some d => Embedding d
  | None => []
  end.

(** An API that answers every request with status 200 and the
    embedding [[1]] for index 0 only. *)
Definition plainRequest (url : string) (input : list string) : outcome (list string) :=
  Ok input.

Definition alwaysOK (req : list string) : outcome Reply := Ok (mkReply 200 "{}").

Definition oneDatum (body : string) : outcome (list Datum) := Ok [mkDatum [1%Q] 0].

Definition batchesOfTwo : Config := mkConfig "m" 2 30 "key" "https://api.example/v1".

(** *** [embedBatch] *)

Lemma placeEmbedding_length embeddings data embeddings' :
  placeEmbedding embeddings data = Ok embeddings' -> length embeddings' = length embeddings.
Proof.
  unfold placeEmbedding. intros H.
  destruct (Index data <? len embeddings); [|by injection H as <-].
  destruct (Index data <? 0); [done|]. injection H as <-. apply length_insert.
Qed.

Lemma foldOutcome_place_length data embeddings embeddings' :
  foldOutcome placeEmbedding embeddings data = Ok embeddings' ->
  length embeddings' = length embeddings.
Proof.
  revert embeddings. induction data as [|d ds IH]; intros embeddings H; simpl in H.
  - by injection H as <-.
  - destruct (placeEmbedding embeddings d) as [e1| |] eqn:E; simpl in H; try done.
    rewrite (IH _ H). by eapply placeEmbedding_length.
Qed.

Lemma embeddingAt_snoc data d i :
  embeddingAt (data ++ [d]) i
  = if decide (Index d = i) then Embedding d else embeddingAt data i.
Proof.
  unfold embeddingAt. rewrite filter_app, filter_cons, filter_nil.
  destruct (decide (Index d = i)).
  - by rewrite last_snoc.
  - by rewrite app_nil_r.
Qed.

(** With no negative index in the response the loop runs through, and
    leaves at each position the last embedding sent for it. *)
Lemma foldOutcome_place_lookup n data :
  Forall (fun d => 0 <= Index d) data ->
  exists embeddings,
    foldOutcome placeEmbedding (replicate n []) data = Ok embeddings /\
    length embeddings = n /\
    forall i, (i < n)%nat -> embeddings !! i = Some (embeddingAt data (Z.of_nat i)).
Proof.
  induction data as [|d data IH] using rev_ind; intros Hpos.
  - exists (replicate n []). split; [done|]. split; [apply length_replicate|].
    intros i Hi. by rewrite lookup_replicate_2.
  - apply Forall_app in Hpos as [Hpos Hd]. rewrite Forall_singleton in Hd.
    destruct (IH Hpos) as (embeddings & Hf & Hl & Hlook).
    rewrite foldOutcome_app, Hf. simpl. unfold placeEmbedding, len. rewrite Hl.
    assert ((Index d <? 0) = false) as -> by (apply Z.ltb_ge; lia).
    destruct (Index d <? Z.of_nat n) eqn:E; simpl.
    + eexists. split; [done|]. split; [by rewrite length_insert|].
      intros i Hi. rewrite embeddingAt_snoc.
      destruct (decide (Index d = Z.of_nat i)) as [Heq|Hne].
      * rewrite Heq, Nat2Z.id. apply list_lookup_insert_eq. lia.
      * rewrite list_lookup_insert_ne by lia. by apply Hlook.
    + exists embeddings. split; [done|]. split; [done|].
      intros i Hi. rewrite embeddingAt_snoc.
      destruct (decide (Index d = Z.of_nat i)) as [Heq|Hne]; [lia|by apply Hlook].
Qed.

Section EmbedderFacts.

Variable request : Type.
Variable NewRequest : string -> list string -> outcome request.
Variable Do : request -> outcome Reply.
Variable Decode : string -> outcome (list Datum).
Variable e : Config.

Lemma embedBatch_length texts embeddings :
  embedBatch request NewRequest Do Decode e texts = Ok embeddings ->
  length embeddings = length texts.
Proof.
  unfold embedBatch. intros H.
  destruct (NewRequest _ _) as [req| |]; try done.
  destruct (Do req) as [resp| |]; try done.
  case_bool_decide; [done|].
  destruct (Decode _) as [data| |]; try done.
  apply foldOutcome_place_length in H. by rewrite length_replicate in H.
Qed.

End EmbedderFacts.

(** [embedBatch] returns one embedding per text, whatever the response
    holds: for each position the embedding of the last entry with that
    index, and [nil] for a position no entry names. An entry whose
    index is beyond the batch is dropped; a negative index panics. *)
Theorem embedBatch_by_index request NewRequest Do Decode e texts req resp data :
  NewRequest (BaseURL e +:+ "/embeddings") texts = Ok req ->
  Do req = Ok resp -> StatusCode resp = 200 -> Decode (Body resp) = Ok data ->
  (Forall (fun d => 0 <= Index d) data ->
   exists embeddings,
     embedBatch request NewRequest Do Decode e texts = Ok embeddings /\
     length embeddings = length texts /\
     forall i, (i < length texts)%nat ->
       embeddings !! i = Some (embeddingAt data (Z.of_nat i))) /\
  (forall before d after,
     data = before ++ d :: after -> Forall (fun d => 0 <= Index d) before ->
     Index d < 0 -> texts <> [] ->
     embedBatch request NewRequest Do Decode e texts = Panic "index out of range").
Proof.
  intros Hreq Hdo Hst Hdec.
  assert (Hrun : embedBatch request NewRequest Do Decode e texts
                 = foldOutcome placeEmbedding (replicate (length texts) []) data).
  { unfold embedBatch. rewrite Hreq, Hdo, Hdec. case_bool_decide; done. }
  rewrite Hrun. split.
  - intros Hpos. apply foldOutcome_place_lookup. done.
  - intros before d after -> Hpos Hneg Hne.
    destruct (foldOutcome_place_lookup (length texts) before Hpos) as (embs & Hf & Hl & _).
    rewrite foldOutcome_app, Hf. simpl. unfold placeEmbedding, len. rewrite Hl.
    assert ((Index d <? Z.of_nat (length texts)) = true) as -> by (apply Z.ltb_lt; lia).
    assert ((Index d <? 0) = true) as -> by (by apply Z.ltb_lt).
    done.
Qed.

Lemma embedBatch_by_index_witness :
  exists embeddings,
    embedBatch (list string) plainRequest alwaysOK oneDatum batchesOfTwo ["a"; "b"]
    = Ok embeddings /\
    length embeddings = 2%nat /\
    embeddings !! 1%nat = Some [].
Proof.
  destruct (embedBatch_by_index (list string) plainRequest alwaysOK oneDatum batchesOfTwo
              ["a"; "b"] ["a"; "b"] (mkReply 200 "{}") [mkDatum [1%Q] 0]
              eq_refl eq_refl eq_refl eq_refl) as [Hok _].
  destruct Hok as (embeddings & He & Hl & Hlook).
  - repeat constructor. simpl. lia.
  - exists embeddings. split; [exact He|]. split; [exact Hl|].
    apply (Hlook 1%nat). simpl. lia.
Defined.

(** *** [EmbedBatch] and [Embed] *)

Section BatchFacts.

Variable request : Type.
Variable NewRequest : string -> list string -> outcome request.
Variable Do : request -> outcome Reply.
Variable Decode : string -> outcome (list Datum).
Variable e : Config.

Abbreviation embedBatch' := (embedBatch request NewRequest Do Decode e).
Abbreviation batchLoop' := (batchLoop request NewRequest Do Decode e).

Lemma slice_ok {A : Type} (s : list A) lo hi :
  0 <= lo <= hi -> hi <= len s ->
  slice s lo hi = Ok (take (Z.to_nat (hi - lo)) (drop (Z.to_nat lo) s)).
Proof.
  intros [H0 H1] H2. unfold slice.
  apply Z.leb_le in H0, H1, H2. by rewrite H0, H1, H2.
Qed.

(** The loop, entered at [i] with the first [i] texts sent. *)
Lemma batchLoop_spec texts fuel i allEmbeddings sent :
  0 < BatchSize e < 2 ^ 63 -> len texts < 2 ^ 62 ->
  0 <= i -> (i = 0 \/ BatchSize e <= i) ->
  concat sent = take (Z.to_nat i) texts ->
  length allEmbeddings = length (concat sent) ->
  Forall (batchOK e) sent ->
  (Z.to_nat (len texts - i) < fuel)%nat ->
  exists result sent',
    batchLoop' fuel texts i allEmbeddings sent = Some (result, sent') /\
    Forall (batchOK e) sent' /\
    (exists rest, texts = concat sent' ++ rest) /\
    (forall embeddings, result = Ok embeddings ->
       concat sent' = texts /\ length embeddings = length texts) /\
    ((forall embeddings, result <> Ok embeddings) ->
     exists batch, last sent' = Some batch /\ embedBatch' batch = result).
Proof.
  intros HB Hlen. revert i allEmbeddings sent.
  induction fuel as [|fuel IH]; intros i allEmbeddings sent Hi HiB Hsent Hall Hok Hfuel; [lia|].
  simpl. destruct (i <? len texts) eqn:Ei.
  - apply Z.ltb_lt in Ei.
    assert (Hadd : int_add i (BatchSize e) = i + BatchSize e).
    { unfold int_add, wrap64. rewrite Z.mod_small by lia. lia. }
    rewrite Hadd.
    set (end_ := if i + BatchSize e >? len texts then len texts else i + BatchSize e).
    assert (Hend : i < end_ <= len texts /\ end_ <= i + BatchSize e /\
                   take (Z.to_nat end_) texts = take (Z.to_nat (i + BatchSize e)) texts).
    { unfold end_. destruct (i + BatchSize e >? len texts) eqn:E.
      - split; [lia|]. split; [lia|]. unfold len in *. rewrite !take_ge by lia. done.
      - split; [lia|]. split; [lia|done]. }
    destruct Hend as (Hend1 & Hend2 & Hend3).
    rewrite slice_ok by lia.
    set (batch := take (Z.to_nat (end_ - i)) (drop (Z.to_nat i) texts)).
    assert (Hblen : length batch = Z.to_nat (end_ - i)).
    { unfold batch. rewrite length_take, length_drop. unfold len in *. lia. }
    assert (Hcat : concat (sent ++ [batch]) = take (Z.to_nat (i + BatchSize e)) texts).
    { rewrite concat_app, Hsent. simpl. rewrite app_nil_r. unfold batch.
      rewrite take_take_drop, <- Hend3. f_equal. lia. }
    assert (Hok' : Forall (batchOK e) (sent ++ [batch])).
    { apply Forall_app. split; [done|]. constructor; [|done].
      unfold batchOK, len. rewrite Hblen. lia. }
    assert (Hpre : exists rest, texts = concat (sent ++ [batch]) ++ rest).
    { exists (drop (Z.to_nat (i + BatchSize e)) texts). by rewrite Hcat, take_drop. }
    destruct (embedBatch' batch) as [embeddings|err|p] eqn:Eb.
    + apply IH; try done; try lia.
      rewrite length_app, Hall, concat_app, length_app. simpl. rewrite app_nil_r.
      by rewrite (embedBatch_length _ _ _ _ _ _ _ Eb).
    + eexists _, _. split; [done|]. split; [done|]. split; [done|]. split; [done|].
      intros _. exists batch. split; [apply last_snoc|done].
    + eexists _, _. split; [done|]. split; [done|]. split; [done|]. split; [done|].
      intros _. exists batch. split; [apply last_snoc|done].
  - apply Z.ltb_ge in Ei.
    assert (Hall' : concat sent = texts) by (rewrite Hsent, take_ge; [done|unfold len in *; lia]).
    eexists _, _. split; [done|]. split; [done|]. split.
    + exists []. by rewrite app_nil_r.
    + split.
      * intros embeddings [= <-]. split; [done|]. by rewrite Hall, Hall'.
      * intros Hne. by destruct (Hne allEmbeddings).
Qed.

(** More fuel does not change a result. *)
Lemma batchLoop_more_fuel texts fuel i allEmbeddings sent r :
  batchLoop' fuel texts i allEmbeddings sent = Some r ->
  forall extra, batchLoop' (fuel + extra) texts i allEmbeddings sent = Some r.
Proof.
  revert i allEmbeddings sent.
  induction fuel as [|fuel IH]; intros i allEmbeddings sent Hr extra; [discriminate Hr|].
  simpl in *. destruct (i <? len texts); [|done].
  destruct (slice _ _ _) as [batch| |]; [|done|done].
  destruct (embedBatch' batch); [|done|done].
  by apply IH.
Qed.

(** A result of [EmbedBatch] has one embedding per text. *)
Lemma EmbedBatch_ok_length texts fuel embeddings sent :
  0 < BatchSize e < 2 ^ 63 -> len texts < 2 ^ 62 ->
  EmbedBatch request NewRequest Do Decode e fuel texts = Some (Ok embeddings, sent) ->
  length embeddings = length texts.
Proof.
  intros HB Hlen. unfold EmbedBatch. destruct (len texts =? 0) eqn:E.
  - intros [= <- <-]. apply Z.eqb_eq in E. unfold len in E. simpl. lia.
  - intros Hr.
    pose proof (batchLoop_more_fuel _ _ _ _ _ _ Hr (S (length texts))) as Hmore.
    destruct (batchLoop_spec texts (fuel + S (length texts)) 0 [] [])
      as (result & sent' & Hspec & _ & _ & Hall & _);
      [done|done|lia|by left|done|done|constructor|unfold len; lia|].
    rewrite Hmore in Hspec. injection Hspec as <- <-.
    by destruct (Hall embeddings eq_refl).
Qed.

End BatchFacts.

(** [EmbedBatch] with a positive batch size returns (it needs no more
    iterations than there are texts). The batches it sends are
    consecutive pieces of [texts], from the start, each of at least
    one and at most [BatchSize] texts. When it succeeds every text was
    sent and there are as many embeddings as texts; otherwise the
    failure is the one of the last batch sent. *)
Theorem EmbedBatch_batches request NewRequest Do Decode e texts fuel :
  0 < BatchSize e < 2 ^ 63 -> len texts < 2 ^ 62 -> (length texts < fuel)%nat ->
  exists result sent,
    EmbedBatch request NewRequest Do Decode e fuel texts = Some (result, sent) /\
    Forall (batchOK e) sent /\
    (exists rest, texts = concat sent ++ rest) /\
    (forall embeddings, result = Ok embeddings ->
       concat sent = texts /\ length embeddings = length texts) /\
    ((forall embeddings, result <> Ok embeddings) ->
     exists batch, last sent = Some batch /\
                   embedBatch request NewRequest Do Decode e batch = result).
Proof.
  intros HB Hlen Hfuel. unfold EmbedBatch.
  destruct (len texts =? 0) eqn:E.
  - apply Z.eqb_eq in E. destruct texts; [|unfold len in E; simpl in E; lia].
    exists (Ok []), []. split; [done|]. split; [constructor|]. split; [by exists []|].
    split; [by intros ? [= <-]|]. intros Hne. by destruct (Hne []).
  - apply batchLoop_spec;
      [done|done|lia|by left|done|done|constructor|unfold len; lia].
Qed.

Lemma EmbedBatch_batches_witness :
  exists result sent,
    EmbedBatch (list string) plainRequest alwaysOK oneDatum batchesOfTwo 4 ["a"; "b"; "c"]
    = Some (result, sent) /\
    Forall (batchOK batchesOfTwo) sent /\
    (forall embeddings, result = Ok embeddings -> concat sent = ["a"; "b"; "c"]).
Proof.
  destruct (EmbedBatch_batches (list string) plainRequest alwaysOK oneDatum batchesOfTwo
              ["a"; "b"; "c"] 4) as (result & sent & Hr & Hok & _ & Hall & _).
  - simpl. lia.
  - unfold len. simpl. lia.
  - simpl. lia.
  - exists result, sent. split; [exact Hr|]. split; [exact Hok|].
    intros embeddings He. exact (proj1 (Hall embeddings He)).
Defined.

(** A batch size that is not positive: a negative one makes the first
    slice expression panic before anything is sent; with 0 every batch
    is empty and the loop never advances, so [EmbedBatch] does not
    return as long as the API answers the empty batches.
    [NewEmbedder] replaces a batch size of 0 by 10 and keeps a negative
    one. *)
Theorem EmbedBatch_batch_size_not_positive request NewRequest Do Decode e texts :
  texts <> [] ->
  (- 2 ^ 63 <= BatchSize e < 0 ->
   forall fuel, (0 < fuel)%nat ->
     EmbedBatch request NewRequest Do Decode e fuel texts
     = Some (Panic "slice bounds out of range", [])) /\
  (BatchSize e = 0 ->
   (exists embeddings, embedBatch request NewRequest Do Decode e [] = Ok embeddings) ->
   forall fuel, EmbedBatch request NewRequest Do Decode e fuel texts = None) /\
  BatchSize (NewEmbedder e) <> 0 /\
  (BatchSize e < 0 -> BatchSize (NewEmbedder e) = BatchSize e).
Proof.
  intros Hne.
  assert (Hlen : 0 < len texts) by (destruct texts; [done|unfold len; simpl; lia]).
  assert (Hnz : (len texts =? 0) = false) by (apply Z.eqb_neq; lia).
  split; [|split; [|split]].
  - intros HB fuel Hfuel. unfold EmbedBatch. rewrite Hnz.
    destruct fuel as [|fuel]; [lia|]. simpl.
    assert (Hadd : int_add 0 (BatchSize e) = BatchSize e).
    { unfold int_add, wrap64.
      replace (0 + BatchSize e + 2 ^ 63) with (BatchSize e + 2 ^ 63) by lia.
      rewrite Z.mod_small by lia. lia. }
    rewrite Hadd.
    assert ((0 <? len texts) = true) as -> by (by apply Z.ltb_lt).
    assert ((BatchSize e >? len texts) = false) as -> by lia.
    unfold slice.
    assert ((0 <=? BatchSize e) = false) as -> by (apply Z.leb_gt; lia).
    done.
  - intros HB [embeddings Hempty] fuel. unfold EmbedBatch. rewrite Hnz.
    generalize (@nil (list Q)) at 1. generalize (@nil (list string)) at 1.
    induction fuel as [|fuel IH]; intros sent allEmbeddings; simpl; [done|].
    assert ((0 <? len texts) = true) as -> by (by apply Z.ltb_lt).
    rewrite HB. change (int_add 0 0) with 0.
    assert ((0 >? len texts) = false) as -> by lia.
    assert (Hs : slice texts 0 0 = Ok []).
    { unfold slice. assert ((0 <=? len texts) = true) as -> by (apply Z.leb_le; lia).
      done. }
    rewrite Hs, Hempty. apply IH.
  - unfold NewEmbedder. simpl. destruct (BatchSize e =? 0) eqn:E; lia.
  - intros HB. unfold NewEmbedder. simpl. destruct (BatchSize e =? 0) eqn:E; lia.
Qed.

Lemma EmbedBatch_batch_size_not_positive_witness :
  EmbedBatch (list string) plainRequest alwaysOK oneDatum
    (mkConfig "m" (-1) 30 "key" "https://api.example/v1") 1 ["a"; "b"]
  = Some (Panic "slice bounds out of range", []).
Proof.
  assert (Hne : ["a"; "b"] <> @nil string) by discriminate.
  apply (proj1 (EmbedBatch_batch_size_not_positive (list string) plainRequest alwaysOK
                  oneDatum (mkConfig "m" (-1) 30 "key" "https://api.example/v1")
                  ["a"; "b"] Hne)).
  - simpl. lia.
  - lia.
Defined.

(** [Embed] with a positive batch size is [embedBatch] on the one
    text: it returns the first (and only) embedding of the batch, or
    the failure of the batch. It never fails with "no embeddings
    returned". *)
Theorem Embed_is_one_batch request NewRequest Do Decode e text fuel :
  0 < BatchSize e < 2 ^ 63 -> (1 < fuel)%nat ->
  exists result,
    Embed request NewRequest Do Decode e fuel text = Some result /\
    result <> Err "no embeddings returned" /\
    match embedBatch request NewRequest Do Decode e [text] with
    | Ok embeddings => exists first, embeddings = [first] /\ result = Ok first
    | Err err => result = Err err /\ err <> "no embeddings returned"
    | Panic p => result = Panic p
    end.
Proof.
  intros HB Hfuel. destruct fuel as [|[|fuel]]; try lia.
  assert (Hadd : int_add 0 (BatchSize e) = BatchSize e).
  { unfold int_add, wrap64. rewrite Z.mod_small by lia. lia. }
  assert (Hend : (if BatchSize e >? 1 then 1 else BatchSize e) = 1)
    by (destruct (BatchSize e >? 1) eqn:E; lia).
  unfold Embed, EmbedBatch. simpl. rewrite Hadd. unfold len. simpl.
  change (Z.of_nat 1) with 1. rewrite Hend.
  change (slice [text] 0 1) with (Ok (A := list string) [text]).
  assert ((BatchSize e <? 1) = false) as -> by (apply Z.ltb_ge; lia).
  destruct (embedBatch request NewRequest Do Decode e [text]) as [embeddings|err|p] eqn:Eb.
  - pose proof (embedBatch_length _ _ _ _ _ _ _ Eb) as Hl.
    destruct embeddings as [|first [|]]; simpl in Hl; try lia.
    eexists. split; [done|]. split; [done|]. by exists first.
  - eexists. split; [done|].
    assert (Hne : err <> "no embeddings returned").
    { intros ->. unfold embedBatch in Eb.
      destruct (NewRequest _ _) as [req| |]; [|discriminate Eb|discriminate Eb].
      destruct (Do req) as [resp| |]; [|discriminate Eb|discriminate Eb].
      case_bool_decide; [discriminate Eb|].
      destruct (Decode _) as [data| |]; [|discriminate Eb|discriminate Eb].
      assert (Hnever : forall data st, foldOutcome placeEmbedding st data
                                       <> Err "no embeddings returned").
      { clear. induction data as [|d ds IH]; intros st; simpl; [done|].
        unfold placeEmbedding.
        destruct (Index d <? len st); [destruct (Index d <? 0); [done|]|]; apply IH. }
      by apply Hnever in Eb. }
    split; [congruence|done].
  - eexists. split; [done|]. split; done.
Qed.

Lemma Embed_is_one_batch_witness :
  exists result,
    Embed (list string) plainRequest alwaysOK oneDatum batchesOfTwo 2 "query" = Some result /\
    result <> Err "no embeddings returned".
Proof.
  destruct (Embed_is_one_batch (list string) plainRequest alwaysOK oneDatum batchesOfTwo
              "query" 2) as (result & Hr & Hne & _).
  - simpl. lia.
  - lia.
  - exists result. split; [exact Hr|exact Hne].
Defined.

End Embeddings.

(** ** internal/llm *)

Module LLM.
Import Go.

(** [strings.TrimPrefix] *)
Definition TrimPrefix (s prefix : string) : string :=
  if Strings.HasPrefix s prefix then Strings.from (String.length prefix) s else s.

(** The line [i+1. result] of the prompt. *)
Definition promptLine (i : nat) (result : string) : string :=
  pretty (Z.of_nat i + 1) +:+ ". " +:+ result +:+ String (Ascii.ascii_of_nat 10) "".

Definition newline : string := String (Ascii.ascii_of_nat 10) "".

Definition createRerankPrompt (query : string) (results : list string) : string :=
  "You are a search result reranker. Given a search query and a list of search results, please rerank them by relevance to the query."
  +:+ newline +:+ newline
  +:+ "Search Query: " +:+ query +:+ newline +:+ newline
  +:+ "Search Results:" +:+ newline
  +:+ String.concat "" (imap promptLine results)
  +:+ newline +:+ "Please provide the reranked results in the following format:" +:+ newline
  +:+ "RERANKED: [list of numbers in order of relevance, separated by commas]" +:+ newline
  +:+ "For example: RERANKED: 3,1,5,2,4" +:+ newline +:+ newline
  +:+ "Only respond with the RERANKED line, nothing else.".

Section OpenRouter.

(** [fmt.Sscanf(numStr, "%d", &index)]: the integer read, or [None]
    for an error; and [Generate], the answer of the model with its
    error. Both are taken as given. *)
Variable Sscanf_d : string -> option Z.
Variable Generate : string -> string * option string.

(** Body of the loop over [numbers]. *)
Definition rerankNumber (originalResults : list string) (rerankedResults : list string)
    (numStr : string) : outcome (list string) :=
  let numStr := Strings.TrimSpace numStr in
  match Sscanf_d numStr with
  | None => Ok rerankedResults
  | Some index =>
      let index := int_sub index 1 in
      if (index >=? 0) && (index <? len originalResults) then
        match originalResults !! Z.to_nat index with
        | Some result => Ok (rerankedResults ++ [result])
        | None => Panic "index out of range"
        end
      else Ok rerankedResults
  end.

(** The loop of [parseRerankResponse] over the lines that are left. *)
Fixpoint parseRerankLines (lines : list string) (originalResults : list string)
  : outcome (list string) :=
  match lines with
  | [] => Err "could not parse rerank response"
  | line :: rest =>
      if Strings.HasPrefix line "RERANKED:" then
        let numbersStr := Strings.TrimSpace (TrimPrefix line "RERANKED:") in
        let numbers := Parser.splitOn (Ascii.ascii_of_nat 44) numbersStr in
        match foldOutcome (rerankNumber originalResults) [] numbers with
        | Ok rerankedResults =>
            if len rerankedResults >? 0 then Ok rerankedResults
            else parseRerankLines rest originalResults
        | Err err => Err err
        | Panic p => Panic p
        end
      else parseRerankLines rest originalResults
  end.

Definition parseRerankResponse (response : string) (originalResults : list string)
  : outcome (list string) :=
  parseRerankLines (Parser.splitOn (Ascii.ascii_of_nat 10) response) originalResults.

(** [openRouterLLM.Rerank]: the slice and the error it returns. *)
Definition Rerank (query : string) (results : list string)
  : outcome (list string * option string) :=
  if len results =? 0 then Ok (results, None)
  else
    let prompt := createRerankPrompt query results in
    match Generate prompt with
    | (_, Some err) => Ok (results, Some ("failed to get LLM response: " +:+ err))
    | (response, None) =>
        match parseRerankResponse response results with
        | Ok rerankedResults => Ok (rerankedResults, None)
        | Err _ => Ok (results, None)
        | Panic p => Panic p
        end
    end.

End OpenRouter.

(** *** [Sscanf] with [%d], on bytes

    An optional sign and the decimal digits that follow; what comes
    after them is not read. No digit, or a value that is no [int64], is
    an error. *)

Fixpoint takeDigits (s : string) : string :=
  match s with
  | EmptyString => EmptyString
  | String c s' => if Parser.isDigit c then String c (takeDigits s') else EmptyString
  end.

Definition scanDecimal (s : string) : option Z :=
  match s with
  | EmptyString => None
  | String c rest =>
      let '(sign, body) :=
        if Ascii.eqb c (Ascii.ascii_of_nat 45) then ("-", rest)
        else if Ascii.eqb c (Ascii.ascii_of_nat 43) then ("+", rest)
        else ("", s) in
      match takeDigits body with
      | EmptyString => None
      | digits => Strconv.Atoi (sign +:+ digits)
      end
  end.

(** A model that gives the same answer to every prompt. *)
Definition answers (response : string) (prompt : string) : string * option string :=
  (response, None).

(** *** [parseRerankResponse] and [Rerank] *)

Section OpenRouterFacts.

Variable Sscanf_d : string -> option Z.

Lemma rerankNumber_ok originalResults rerankedResults numStr :
  Forall (fun r => r ∈ originalResults) rerankedResults ->
  exists out,
    rerankNumber Sscanf_d originalResults rerankedResults numStr = Ok out /\
    Forall (fun r => r ∈ originalResults) out.
Proof.
  intros Hacc. unfold rerankNumber.
  destruct (Sscanf_d _) as [index|]; [|by exists rerankedResults].
  destruct ((int_sub index 1 >=? 0) && (int_sub index 1 <? len originalResults)) eqn:E;
    [|by exists rerankedResults].
  apply andb_true_iff in E as [E0 E1]. apply Z.ltb_lt in E1.
  rewrite Z.geb_leb in E0. apply Z.leb_le in E0.
  destruct (lookup_lt_is_Some_2 originalResults (Z.to_nat (int_sub index 1))) as [r Hr];
    [unfold len in E1; lia|].
  rewrite Hr. eexists. split; [done|].
  apply Forall_app. split; [done|]. constructor; [|done]. by eapply list_elem_of_lookup_2.
Qed.

Lemma rerankNumbers_ok originalResults numbers rerankedResults :
  Forall (fun r => r ∈ originalResults) rerankedResults ->
  exists out,
    foldOutcome (rerankNumber Sscanf_d originalResults) rerankedResults numbers = Ok out /\
    Forall (fun r => r ∈ originalResults) out.
Proof.
  revert rerankedResults. induction numbers as [|n ns IH]; intros acc Hacc; simpl.
  - by exists acc.
  - destruct (rerankNumber_ok originalResults acc n Hacc) as (out & -> & Hout). simpl.
    by apply IH.
Qed.

Lemma parseRerankLines_sound lines originalResults :
  match parseRerankLines Sscanf_d lines originalResults with
  | Ok rerankedResults =>
      rerankedResults <> [] /\ Forall (fun r => r ∈ originalResults) rerankedResults
  | Err err => err = "could not parse rerank response"
  | Panic _ => False
  end.
Proof.
  induction lines as [|line rest IH]; simpl; [done|].
  destruct (Strings.HasPrefix line "RERANKED:"); [|exact IH].
  destruct (rerankNumbers_ok originalResults
              (Parser.splitOn (Ascii.ascii_of_nat 44)
                 (Strings.TrimSpace (TrimPrefix line "RERANKED:"))) [])
    as (out & -> & Hout); [constructor|].
  destruct (len out >? 0) eqn:E; [|exact IH].
  split; [|done]. intros ->. discriminate E.
Qed.

End OpenRouterFacts.

(** [parseRerankResponse] never indexes [originalResults] out of
    bounds: it returns either the error "could not parse rerank
    response" or a list that is not empty and holds only strings of
    [originalResults], whatever the response says. *)
Theorem parseRerankResponse_sound Sscanf_d response originalResults :
  match parseRerankResponse Sscanf_d response originalResults with
  | Ok rerankedResults =>
      rerankedResults <> [] /\ Forall (fun r => r ∈ originalResults) rerankedResults
  | Err err => err = "could not parse rerank response"
  | Panic _ => False
  end.
Proof. apply parseRerankLines_sound. Qed.

(** [Rerank] always returns a list made of the results it was given,
    empty only if they were. Empty results come back as they are, with
    no error. Otherwise, when [Generate] fails it returns the results
    as they came together with the error (wrapped); when [Generate]
    answers it returns no error, and the list is the one
    [parseRerankResponse] reads from the answer or, when the answer
    cannot be parsed, the results as they came. *)
Theorem Rerank_keeps_to_results Sscanf_d Generate query results :
  exists out err,
    Rerank Sscanf_d Generate query results = Ok (out, err) /\
    Forall (fun r => r ∈ results) out /\
    (out = [] <-> results = []) /\
    (results = [] -> err = None) /\
    (results <> [] ->
     forall response e,
       Generate (createRerankPrompt query results) = (response, Some e) ->
       out = results /\ err = Some ("failed to get LLM response: " +:+ e)) /\
    (results <> [] ->
     forall response,
       Generate (createRerankPrompt query results) = (response, None) ->
       err = None /\
       match parseRerankResponse Sscanf_d response results with
       | Ok rerankedResults => out = rerankedResults
       | Err _ => out = results
       | Panic _ => False
       end).
Proof.
  assert (Hself : Forall (fun r => r ∈ results) results)
    by (apply Forall_forall; auto).
  unfold Rerank. destruct (len results =? 0) eqn:E.
  - apply Z.eqb_eq in E. destruct results; [|unfold len in E; simpl in E; lia].
    exists [], None. repeat split; try done.
  - assert (Hne : results <> []) by (intros ->; done).
    destruct (Generate _) as [response [err|]] eqn:Eg.
    + eexists _, _. split; [done|]. split; [done|]. split; [done|]. split; [done|].
      split; [|intros _ response' [= _ ?]].
      intros _ response' e [= _ <-]. done.
    + pose proof (parseRerankLines_sound Sscanf_d
                    (Parser.splitOn (Ascii.ascii_of_nat 10) response) results) as Hp.
      fold (parseRerankResponse Sscanf_d response results) in Hp.
      destruct (parseRerankResponse Sscanf_d response results) as [out|err|p] eqn:Ep.
      * destruct Hp as [Hout Hin]. exists out, None.
        split; [done|]. split; [done|]. split; [done|]. split; [done|].
        split; [intros _ response' e [= _ ?]|].
        intros _ response' [= <-]. split; [done|]. by rewrite Ep.
      * exists results, None.
        split; [done|]. split; [done|]. split; [done|]. split; [done|].
        split; [intros _ response' e [= _ ?]|].
        intros _ response' [= <-]. split; [done|]. by rewrite Ep.
      * done.
Qed.

(** A model that answers [RERANKED: 2,9,1] to three results puts the
    second first, drops the number 9 and leaves the third result out. *)
Example Rerank_answer_2_9_1 :
  Rerank scanDecimal (answers "RERANKED: 2,9,1") "q" ["a"; "b"; "c"] = Ok (["b"; "a"], None).
Proof. reflexivity. Qed.

End LLM.

(** ** internal/indexer: further properties of the hybrid search *)

Module Fusion.
Import Indexer.

(** Two results that differ at most in their score. *)
Definition sameButScore (a b : SearchResult) : Prop :=
  DocumentID a = DocumentID b /\ ChunkID a = ChunkID b /\
  Text a = Text b /\ Metadata a = Metadata b.

(** Every entry of the map is filed under its own chunk id. *)
Definition keyed (m : gmap string SearchResult) : Prop :=
  forall k r, m !! k = Some r -> ChunkID r = k.

(** Two hits for two different chunks, and a query answer with three
    documents, two metadata entries and three distances. *)
Definition twoHits : list Hit :=
  [mkHit 1.25 "doc1" "a" "alpha" []; mkHit 0.5 "doc2" "b" "beta" []].

Definition threeDocuments : QueryResult :=
  mkQueryResult [["one"; "two"; "three"]] [[ []; [] ]] [[f32 1 10; f32 2 10; f32 3 10]].

(** *** The merge *)

Lemma setScore_sameButScore r s : sameButScore (setScore r s) r.
Proof. by repeat split. Qed.

Lemma sameButScore_trans a b c : sameButScore a b -> sameButScore b c -> sameButScore a c.
Proof.
  intros (H1 & H2 & H3 & H4) (H5 & H6 & H7 & H8).
  repeat split; congruence.
Qed.

Section Pass.
Variables own other : float32.

Lemma addWith_fresh m r :
  m !! ChunkID r = None -> addWith own other m r !! ChunkID r = Some (weighted own r).
Proof. intros Hm. unfold addWith. rewrite Hm. apply lookup_insert_eq. Qed.

Lemma addWith_seen m r existing :
  m !! ChunkID r = Some existing ->
  addWith own other m r !! ChunkID r
  = Some (setScore existing (f32add (f32mul (Score existing) other) (f32mul (Score r) own))).
Proof. intros Hm. unfold addWith. rewrite Hm. apply lookup_insert_eq. Qed.

Lemma addWith_keyed m r : keyed m -> keyed (addWith own other m r).
Proof.
  intros Hm k e He. destruct (decide (ChunkID r = k)) as [Hk|Hk].
  - subst k. destruct (m !! ChunkID r) as [existing|] eqn:E.
    + rewrite (addWith_seen _ _ _ E) in He. injection He as He. subst e. simpl.
      exact (Hm _ _ E).
    + rewrite (addWith_fresh _ _ E) in He. injection He as He. by subst e.
  - rewrite addWith_other in He by done. exact (Hm _ _ He).
Qed.

Lemma foldl_addWith_keyed m l : keyed m -> keyed (foldl (addWith own other) m l).
Proof.
  revert m. induction l as [|x xs IH]; intros m Hm; simpl; [done|].
  by apply IH, addWith_keyed.
Qed.

Lemma addWith_dom m r : dom (addWith own other m r) = {[ChunkID r]} ∪ dom m.
Proof.
  unfold addWith. destruct (m !! ChunkID r); by rewrite dom_insert_L.
Qed.

Lemma foldl_addWith_dom m l :
  dom (foldl (addWith own other) m l) = list_to_set (ChunkID <$> l) ∪ dom m.
Proof.
  revert m. induction l as [|x xs IH]; intros m; simpl.
  - by rewrite (left_id_L ∅ (∪)).
  - rewrite IH, addWith_dom, (assoc_L (∪)).
    by rewrite (comm_L (∪) _ {[ChunkID x]}).
Qed.

(** Once an entry is in the map, a pass changes nothing but its score. *)
Lemma foldl_addWith_sameButScore m l k e :
  m !! k = Some e ->
  exists e', foldl (addWith own other) m l !! k = Some e' /\ sameButScore e' e.
Proof.
  revert m e. induction l as [|x xs IH]; intros m e Hm; simpl.
  - exists e. split; [done|]. by repeat split.
  - destruct (decide (ChunkID x = k)) as [Hx|Hx].
    + assert (Hstep : addWith own other m x !! k
                      = Some (setScore e (f32add (f32mul (Score e) other) (f32mul (Score x) own)))).
      { subst k. by apply addWith_seen. }
      destruct (IH _ _ Hstep) as (e' & He' & Hs). exists e'. split; [done|].
      eapply sameButScore_trans; [exact Hs|apply setScore_sameButScore].
    + apply IH. by rewrite addWith_other.
Qed.

(** The first result of a pass with a chunk id the map does not hold
    yet is the one the map keeps. *)
Lemma foldl_addWith_first_seen m pre r rest :
  m !! ChunkID r = None -> ChunkID r ∉ ChunkID <$> pre ->
  exists e, foldl (addWith own other) m (pre ++ r :: rest) !! ChunkID r = Some e /\
            sameButScore e r.
Proof.
  intros Hm Hpre. rewrite foldl_app. simpl.
  assert (Hstep : addWith own other (foldl (addWith own other) m pre) r !! ChunkID r
                  = Some (weighted own r)).
  { apply addWith_fresh. by rewrite foldl_addWith_other. }
  destruct (foldl_addWith_sameButScore _ rest _ _ Hstep) as (e & He & Hs).
  exists e. split; [done|].
  eapply sameButScore_trans; [exact Hs|apply setScore_sameButScore].
Qed.

End Pass.

Lemma mergeResults_keyed vs bs : keyed (mergeResults vs bs).
Proof.
  unfold mergeResults. rewrite addBM25_addWith, addVector_addWith.
  apply foldl_addWith_keyed, foldl_addWith_keyed. intros k r H.
  by rewrite lookup_empty in H.
Qed.

Lemma mergeResults_dom vs bs :
  dom (mergeResults vs bs) = list_to_set (ChunkID <$> (vs ++ bs)).
Proof.
  unfold mergeResults. rewrite addBM25_addWith, addVector_addWith.
  rewrite !foldl_addWith_dom, dom_empty_L, fmap_app, list_to_set_app_L.
  by rewrite (right_id_L ∅ (∪)), (comm_L (∪)).
Qed.

Lemma keyed_mapValues m : keyed m -> ChunkID <$> mapValues m = (map_to_list m).*1.
Proof.
  intros Hm. unfold mapValues. rewrite <- list_fmap_compose.
  apply list_fmap_ext. intros i [k r] Hi. simpl.
  apply Hm. apply elem_of_map_to_list. by eapply list_elem_of_lookup_2.
Qed.

Lemma fusedResults_ids range vs bs :
  rangeOrder range ->
  ChunkID <$> fusedResults range vs bs ≡ₚ (map_to_list (mergeResults vs bs)).*1.
Proof.
  intros Hr. unfold fusedResults.
  rewrite sortByScore_perm, (Hr _), keyed_mapValues; [done|apply mergeResults_keyed].
Qed.

Lemma NoDup_take_fmap {A B} (f : A -> B) n (l : list A) :
  NoDup (f <$> l) -> NoDup (f <$> take n l).
Proof.
  intros H. rewrite <- (take_drop n l), fmap_app in H.
  by apply NoDup_app in H as [H _].
Qed.

Lemma combineResults_take range vs bs limit out :
  combineResults range vs bs limit = Ok out ->
  exists n, out = take n (fusedResults range vs bs).
Proof.
  unfold combineResults. fold (fusedResults range vs bs).
  destruct (len (fusedResults range vs bs) >? limit).
  - unfold slice_to. destruct ((0 <=? limit) && _); [|done].
    intros [= <-]. by eexists.
  - intros [= <-]. exists (length (fusedResults range vs bs)). by rewrite take_ge.
Qed.

(** The fused slice holds each chunk id of the two inputs exactly once,
    and no other; so does every slice [combineResults] returns. *)
Theorem fused_chunk_ids_distinct range vs bs :
  rangeOrder range ->
  NoDup (ChunkID <$> fusedResults range vs bs) /\
  (forall k, k ∈ ChunkID <$> fusedResults range vs bs <-> k ∈ ChunkID <$> (vs ++ bs)) /\
  (forall limit out, combineResults range vs bs limit = Ok out -> NoDup (ChunkID <$> out)).
Proof.
  intros Hr.
  assert (Hnd : NoDup (ChunkID <$> fusedResults range vs bs)).
  { rewrite fusedResults_ids by done. apply NoDup_fst_map_to_list. }
  split; [done|]. split.
  - intros k. rewrite fusedResults_ids by done.
    rewrite <- (elem_of_list_to_set (C := gset string) k (ChunkID <$> (vs ++ bs))).
    rewrite <- mergeResults_dom, elem_of_dom.
    rewrite list_elem_of_fmap. split.
    + intros ([k' r] & -> & Hin). apply elem_of_map_to_list in Hin. by exists r.
    + intros [r Hk]. exists (k, r). split; [done|]. by apply elem_of_map_to_list.
  - intros limit out Hout. apply combineResults_take in Hout as [n ->].
    by apply NoDup_take_fmap.
Qed.

Lemma fused_chunk_ids_distinct_witness :
  NoDup (ChunkID <$> fusedResults mapValues [vector09; vectorA] [bm25_06; bm25B]).
Proof.
  exact (proj1 (fused_chunk_ids_distinct mapValues [vector09; vectorA] [bm25_06; bm25B]
                  rangeOrder_mapValues)).
Defined.

(** Of the results that carry one chunk id, the first one met (vector
    results before BM25 results) gives the fused entry its document id,
    text and metadata; the later ones only move its score. *)
Theorem fused_entry_keeps_first_seen vs bs pre r rest :
  vs ++ bs = pre ++ r :: rest -> ChunkID r ∉ ChunkID <$> pre ->
  exists fused,
    mergeResults vs bs !! ChunkID r = Some fused /\
    DocumentID fused = DocumentID r /\ ChunkID fused = ChunkID r /\
    Text fused = Text r /\ Metadata fused = Metadata r /\
    (forall range, rangeOrder range -> fused ∈ fusedResults range vs bs).
Proof.
  intros Hsplit Hpre.
  assert (Hm : exists fused, mergeResults vs bs !! ChunkID r = Some fused /\
                             sameButScore fused r).
  { unfold mergeResults. rewrite addBM25_addWith, addVector_addWith.
    apply app_eq_app in Hsplit as [mid [[-> Hrest]|[-> Hbs]]].
    - destruct mid as [|x mid]; simpl in Hrest.
      + rewrite app_nil_r in *. subst bs.
        apply foldl_addWith_first_seen with (pre := []); [|by rewrite fmap_nil; apply not_elem_of_nil].
        by rewrite foldl_addWith_other, lookup_empty.
      + injection Hrest as <- ->.
        destruct (foldl_addWith_first_seen vectorWeight bm25Weight ∅ pre r mid
                    (lookup_empty _) Hpre) as (e & He & Hs).
        destruct (foldl_addWith_sameButScore bm25Weight vectorWeight _ bs _ _ He)
          as (e' & He' & Hs').
        exists e'. split; [done|]. by eapply sameButScore_trans.
    - subst bs. rewrite fmap_app, not_elem_of_app in Hpre. destruct Hpre as [Hvs Hmid].
      apply foldl_addWith_first_seen; [|done].
      by rewrite foldl_addWith_other, lookup_empty. }
  destruct Hm as (fused & Hf & H1 & H2 & H3 & H4).
  exists fused. repeat split; try done.
  intros range Hr. by eapply fusedResults_lookup.
Qed.

Lemma fused_entry_keeps_first_seen_witness :
  exists fused,
    mergeResults [vector09] [bm25_06] !! "chunk_0" = Some fused /\
    Text fused = "text" /\ DocumentID fused = "doc1".
Proof.
  destruct (fused_entry_keeps_first_seen [vector09] [bm25_06] [] vector09 [bm25_06]
              eq_refl (not_elem_of_nil _)) as (fused & Hf & Hd & _ & Ht & _).
  exists fused. split; [exact Hf|]. split; [exact Ht|exact Hd].
Defined.

(** *** The vector backend *)

(** From position [j] on, the loop of [searchChroma] yields one result
    per document whose position is below the number of metadata
    entries and of distances. *)
Lemma chromaLoop_stop j documents metadatas distances :
  (length metadatas `min` length distances <= j)%nat ->
  chromaLoop j documents metadatas distances = [].
Proof.
  revert j. induction documents as [|document rest IH]; intros j Hj; simpl; [done|].
  rewrite IH by lia.
  destruct (decide (j < length metadatas)%nat) as [Hm|]; [|done].
  destruct (distances !! j) as [d|] eqn:E; [|done].
  apply lookup_lt_Some in E. lia.
Qed.

Lemma chromaLoop_length j documents metadatas distances :
  length (chromaLoop j documents metadatas distances)
  = (length documents `min` (length metadatas `min` length distances - j))%nat.
Proof.
  revert j. induction documents as [|document rest IH]; intros j; [done|].
  cbn [chromaLoop]. rewrite length_app, IH. cbn [length].
  destruct (decide (j < length metadatas)%nat) as [Hm|Hm].
  - destruct (distances !! j) as [d|] eqn:E.
    + apply lookup_lt_Some in E. cbn [length]. lia.
    + apply lookup_ge_None in E. cbn [length]. lia.
  - cbn [length]. lia.
Qed.

Lemma chromaLoop_lookup j documents metadatas distances i r :
  chromaLoop j documents metadatas distances !! i = Some r ->
  exists document distance,
    documents !! i = Some document /\ distances !! (j + i)%nat = Some distance /\
    (j + i < length metadatas)%nat /\
    r = mkSearchResult "unknown" ("chunk_" +:+ pretty (j + i)%nat) (f32sub (f32 1 1) distance) document
          [("chunk_id", "chunk_" +:+ pretty (j + i)%nat)].
Proof.
  revert j i. induction documents as [|document rest IH]; intros j i Hr; simpl in Hr; [done|].
  destruct (decide (j < length metadatas)%nat) as [Hm|Hm].
  - destruct (distances !! j) as [d|] eqn:E.
    + destruct i as [|i]; simpl in Hr.
      * injection Hr as <-. exists document, d. rewrite Nat.add_0_r. by repeat split.
      * apply IH in Hr as (doc & dist & H1 & H2 & H3 & ->).
        exists doc, dist. replace (j + S i)%nat with (S j + i)%nat by lia. by repeat split.
    + apply lookup_ge_None in E. rewrite chromaLoop_stop in Hr by lia. done.
  - rewrite chromaLoop_stop in Hr by lia. done.
Qed.

(** [searchChroma], once the query has answered: the results are the
    first documents of the first group, as many as there are metadata
    entries and distances for; the result at position [i] has the chunk
    id [chunk_<i>], the document id [unknown] and the score
    [1 - distance]. No chunk id occurs twice. *)
Theorem chromaResults_by_position queryResult documents metadatas distances dgs mgs xgs :
  DocumentsGroups queryResult = documents :: dgs ->
  MetadatasGroups queryResult = metadatas :: mgs ->
  DistancesGroups queryResult = distances :: xgs ->
  exists results,
    chromaResults queryResult = Ok results /\
    length results
    = (length documents `min` (length metadatas `min` length distances))%nat /\
    NoDup (ChunkID <$> results) /\
    (forall i r, results !! i = Some r ->
       exists document distance,
         documents !! i = Some document /\ distances !! i = Some distance /\
         r = mkSearchResult "unknown" ("chunk_" +:+ pretty i) (f32sub (f32 1 1) distance) document
               [("chunk_id", "chunk_" +:+ pretty i)]).
Proof.
  intros Hd Hm Hx.
  exists (chromaLoop 0 documents metadatas distances). split; [|split; [|split]].
  - unfold chromaResults. rewrite Hd, Hm, Hx. by destruct documents.
  - rewrite chromaLoop_length. lia.
  - apply chromaLoop_NoDup.
  - intros i r Hr. apply chromaLoop_lookup in Hr as (doc & dist & H1 & H2 & _ & ->).
    by exists doc, dist.
Qed.

Lemma chromaResults_by_position_witness :
  exists results,
    chromaResults threeDocuments = Ok results /\ length results = 2%nat /\
    NoDup (ChunkID <$> results).
Proof.
  destruct (chromaResults_by_position threeDocuments ["one"; "two"; "three"] [ []; [] ]
              [f32 1 10; f32 2 10; f32 3 10] [] [] [] eq_refl eq_refl eq_refl)
    as (results & Hr & Hl & Hn & _).
  exists results. split; [exact Hr|]. split; [exact Hl|exact Hn].
Defined.

(** *** [Search] and [Retrieve] together *)

Lemma combineResults_nonneg range vs bs limit :
  0 <= limit ->
  combineResults range vs bs limit = Ok (take (Z.to_nat limit) (fusedResults range vs bs)).
Proof.
  intros Hl. unfold combineResults. fold (fusedResults range vs bs).
  destruct (len (fusedResults range vs bs) >? limit) eqn:E.
  - unfold slice_to.
    assert ((0 <=? limit) = true) as H0 by (by apply Z.leb_le).
    assert ((limit <=? len (fusedResults range vs bs)) = true) as H1 by (apply Z.leb_le; lia).
    by rewrite H0, H1.
  - rewrite take_ge; [done|]. unfold len in E. lia.
Qed.

(** With a negative limit [Search] cannot return: when the embedder
    and both backends answer, the slice expression of [combineResults]
    panics. *)
Theorem Search_negative_limit_panics Embed collection elasticHits range query limit
    queryEmbedding vectorResults hits :
  limit < 0 ->
  Embed query = Ok queryEmbedding ->
  searchChroma collection queryEmbedding (int_mul limit 2) = Ok vectorResults ->
  elasticHits query (int_mul limit 2) = Ok hits ->
  Search Embed collection elasticHits range query limit = Panic "slice bounds out of range".
Proof.
  intros Hl He Hv Hb. unfold Search, searchElasticsearch. rewrite He, Hv, Hb.
  by apply combineResults_negative_limit.
Qed.

Lemma Search_negative_limit_panics_witness :
  Search (fun _ => Ok []) (Some (fun _ => Ok threeDocuments)) (fun _ _ => Ok twoHits)
         mapValues "go" (-3)
  = Panic "slice bounds out of range".
Proof.
  apply (Search_negative_limit_panics (fun _ => Ok []) (Some (fun _ => Ok threeDocuments))
           (fun _ _ => Ok twoHits) mapValues "go" (-3) []
           (chromaLoop 0 ["one"; "two"; "three"] [ []; [] ] [f32 1 10; f32 2 10; f32 3 10]) twoHits).
  - lia.
  - reflexivity.
  - reflexivity.
  - reflexivity.
Defined.

(** [Retrieve] over the hybrid indexer, for [0 <= limit < 2^61]: the
    indexer is asked for [2 * limit] results and asks each backend for
    [4 * limit]; what comes back is the first [limit] entries of the
    fusion of the two answers. *)
Theorem Retrieve_hybrid_top_of_fusion Embed chroma elasticHits range reranker query limit
    queryEmbedding queryResult vectorResults hits :
  0 <= limit < 2 ^ 61 ->
  Embed query = Ok queryEmbedding ->
  chroma (4 * limit) = Ok queryResult ->
  chromaResults queryResult = Ok vectorResults ->
  elasticHits query (4 * limit) = Ok hits ->
  (Retriever.Retrieve (Search Embed (Some chroma) elasticHits range) reranker query limit).1
  = Ok (take (Z.to_nat limit) (fusedResults range vectorResults (elasticResults hits))).
Proof.
  intros Hl He Hq Hv Hb.
  assert (H2 : int_mul limit 2 = 2 * limit) by (apply Retriever.int_mul_2_small; lia).
  assert (H4 : int_mul (2 * limit) 2 = 4 * limit)
    by (rewrite Retriever.int_mul_2_small by lia; lia).
  rewrite (Retriever.Retrieve_ok_nonneg _ reranker query limit
             (take (Z.to_nat (2 * limit)) (fusedResults range vectorResults (elasticResults hits))));
    [|lia|].
  - rewrite take_take. f_equal. f_equal. lia.
  - rewrite H2. unfold Search, searchChroma, searchElasticsearch.
    rewrite He, H4, Hq, Hv, Hb. apply combineResults_nonneg. lia.
Qed.

Lemma Retrieve_hybrid_top_of_fusion_witness :
  (Retriever.Retrieve
     (Search (fun _ => Ok []) (Some (fun _ => Ok threeDocuments)) (fun _ _ => Ok twoHits)
             mapValues) None "go" 1).1
  = Ok (take (Z.to_nat 1)
          (fusedResults mapValues
             (chromaLoop 0 ["one"; "two"; "three"] [ []; [] ] [f32 1 10; f32 2 10; f32 3 10])
             (elasticResults twoHits))).
Proof.
  apply (Retrieve_hybrid_top_of_fusion (fun _ => Ok []) (fun _ => Ok threeDocuments)
           (fun _ _ => Ok twoHits) mapValues None "go" 1 [] threeDocuments).
  - lia.
  - reflexivity.
  - reflexivity.
  - reflexivity.
  - reflexivity.
Defined.

End Fusion.

(** ** internal/cli: the reranker of the server *)

Module Cli.
Import Indexer.

(** [textToResult]: each text mapped to the last result that has it. *)
Definition textToResult (results : list SearchResult) : gmap string SearchResult :=
  foldl (fun m result => <[Text result := result]> m) ∅ results.

(** Body of the "fallback" loop: [result] is appended unless a result
    with its chunk id is already there. *)
Definition addMissing (rerankedResults : list SearchResult) (result : SearchResult)
  : list SearchResult :=
  if existsb (fun reranked => bool_decide (ChunkID reranked = ChunkID result)) rerankedResults
  then rerankedResults
  else rerankedResults ++ [result].

Section Reranker.

(** [r.llm.Rerank], the [LLM] the reranker was built with. *)
Variable llmRerank : string -> list string -> outcome (list string * option string).

(** [llmReranker.Rerank]: the slice and the error it returns. *)
Definition llmReranker_Rerank (query : string) (results : list SearchResult)
  : outcome (list SearchResult * option string) :=
  if len results =? 0 then Ok (results, None)
  else
    let resultTexts := Text <$> results in
    match llmRerank query resultTexts with
    | Panic p => Panic p
    | Err err | Ok (_, Some err) => Ok (results, Some err)
    | Ok (rerankedTexts, None) =>
        let byText := textToResult results in
        let rerankedResults := omap (fun text => byText !! text) rerankedTexts in
        Ok (foldl addMissing rerankedResults results, None)
    end.

End Reranker.

(** *** Examples *)

(** A reranker model that names the third text only, twice. *)
Definition thirdTwice (query : string) (texts : list string)
  : outcome (list string * option string) :=
  match texts !! 2%nat with
  | Some text => Ok ([text; text], None)
  | None => Ok (texts, None)
  end.

(** A model that cannot be reached. *)
Definition modelDown (query : string) (texts : list string)
  : outcome (list string * option string) :=
  Err "connection refused".

(** *** [llmReranker.Rerank] *)

Lemma textToResult_elem results text result :
  textToResult results !! text = Some result -> result ∈ results.
Proof.
  unfold textToResult.
  assert (Hgen : forall m : gmap string SearchResult,
            (forall t r, m !! t = Some r -> r ∈ results) ->
            forall l, (forall r, r ∈ l -> r ∈ results) ->
            foldl (fun m result => <[Text result := result]> m) m l !! text = Some result ->
            result ∈ results).
  { intros m Hm l. revert m Hm. induction l as [|x xs IH]; intros m Hm Hl H; simpl in H.
    - by eapply Hm.
    - eapply IH; [| |exact H].
      + intros t r Hr. destruct (decide (Text x = t)) as [<-|Hne].
        * rewrite lookup_insert_eq in Hr. injection Hr as <-. apply Hl. left.
        * rewrite lookup_insert_ne in Hr by done. by eapply Hm.
      + intros r Hr. apply Hl. by right. }
  apply (Hgen ∅); [|done]. intros t r Hr. by rewrite lookup_empty in Hr.
Qed.

Lemma addMissing_incl rerankedResults result r :
  r ∈ rerankedResults -> r ∈ addMissing rerankedResults result.
Proof.
  intros Hr. unfold addMissing. destruct (existsb _ _); [done|].
  apply elem_of_app. by left.
Qed.

Lemma addMissing_has rerankedResults result :
  ChunkID result ∈ ChunkID <$> addMissing rerankedResults result.
Proof.
  unfold addMissing. destruct (existsb _ _) eqn:E.
  - apply existsb_exists in E as (x & Hx & Heq). apply bool_decide_eq_true in Heq.
    rewrite <- Heq. apply list_elem_of_fmap_2. by apply list_elem_of_In.
  - rewrite fmap_app. apply elem_of_app. right. simpl. left.
Qed.

Lemma foldl_addMissing_incl results rerankedResults r :
  r ∈ rerankedResults -> r ∈ foldl addMissing rerankedResults results.
Proof.
  revert rerankedResults. induction results as [|x xs IH]; intros acc Hr; simpl; [done|].
  by apply IH, addMissing_incl.
Qed.

Lemma foldl_addMissing_has results rerankedResults result :
  result ∈ results -> ChunkID result ∈ ChunkID <$> foldl addMissing rerankedResults results.
Proof.
  revert rerankedResults. induction results as [|x xs IH]; intros acc Hr; simpl.
  - by apply elem_of_nil in Hr.
  - apply elem_of_cons in Hr as [->|Hr]; [|by apply IH].
    pose proof (addMissing_has acc x) as Hx.
    apply list_elem_of_fmap in Hx as (y & Hy & Hin). rewrite Hy.
    apply list_elem_of_fmap_2. by apply foldl_addMissing_incl.
Qed.

Lemma foldl_addMissing_from results rerankedResults (all : list SearchResult) r :
  (forall x, x ∈ rerankedResults -> x ∈ all) -> (forall x, x ∈ results -> x ∈ all) ->
  r ∈ foldl addMissing rerankedResults results -> r ∈ all.
Proof.
  revert rerankedResults. induction results as [|x xs IH]; intros acc Hacc Hres Hr; simpl in Hr.
  - by apply Hacc.
  - eapply IH; [| |exact Hr].
    + intros y Hy. unfold addMissing in Hy. destruct (existsb _ _); [by apply Hacc|].
      apply elem_of_app in Hy as [Hy|Hy]; [by apply Hacc|].
      apply list_elem_of_singleton in Hy as ->. apply Hres. left.
    + intros y Hy. apply Hres. by right.
Qed.

(** The fallback loop appends to what is there, and only results whose
    chunk id is not there yet. *)
Lemma foldl_addMissing_prefix results rerankedResults :
  exists rest,
    foldl addMissing rerankedResults results = rerankedResults ++ rest /\
    Forall (fun r => ChunkID r ∉ ChunkID <$> rerankedResults) rest.
Proof.
  revert rerankedResults. induction results as [|x xs IH]; intros acc; simpl.
  - exists []. by rewrite app_nil_r.
  - destruct (IH (addMissing acc x)) as (rest & Heq & Hrest). unfold addMissing in *.
    destruct (existsb _ acc) eqn:E; [by exists rest|].
    exists (x :: rest). split; [by rewrite Heq, <- app_assoc|].
    constructor.
    + intros Hin. apply list_elem_of_fmap in Hin as (y & Hy & Hin).
      assert (existsb (fun reranked => bool_decide (ChunkID reranked = ChunkID x)) acc = true)
        as Ht; [|by rewrite Ht in E].
      apply existsb_exists. exists y. split; [by apply list_elem_of_In|].
      by apply bool_decide_eq_true.
    + eapply Forall_impl; [exact Hrest|]. intros r Hr Hin. apply Hr.
      rewrite fmap_app. apply elem_of_app. by left.
Qed.

(** Whatever texts the model returns, [llmReranker.Rerank] returns
    every chunk of [results]: each chunk id of the input is among the
    output, and the output holds nothing but input results. When the
    model returns an error, that error is returned with the results as
    they came. When it returns none, none is returned, and the output
    starts with the results the model named, in the model's order,
    followed by results whose chunk id the model did not name. Empty
    results are returned as they are, with no error. *)
Theorem llmReranker_keeps_every_chunk llmRerank query results out err :
  llmReranker_Rerank llmRerank query results = Ok (out, err) ->
  (forall result, result ∈ results -> ChunkID result ∈ ChunkID <$> out) /\
  (forall result, result ∈ out -> result ∈ results) /\
  (results = [] -> out = [] /\ err = None) /\
  (results <> [] ->
   forall rerankedTexts e,
     llmRerank query (Text <$> results) = Ok (rerankedTexts, Some e) \/
     llmRerank query (Text <$> results) = Err e ->
     out = results /\ err = Some e) /\
  (results <> [] ->
   forall rerankedTexts,
     llmRerank query (Text <$> results) = Ok (rerankedTexts, None) ->
     err = None /\
     exists rest,
       out = omap (fun text => textToResult results !! text) rerankedTexts ++ rest /\
       Forall (fun r =>
                 ChunkID r ∉ ChunkID <$> omap (fun text => textToResult results !! text)
                                              rerankedTexts) rest).
Proof.
  unfold llmReranker_Rerank. intros H.
  destruct (len results =? 0) eqn:E.
  - injection H as <- <-.
    assert (Hnil : results = [])
      by (apply Z.eqb_eq in E; destruct results; [done|unfold len in E; simpl in E; lia]).
    split; [|split; [done|split; [done|split; [done|done]]]].
    intros result Hr. by apply list_elem_of_fmap_2.
  - assert (Hne : results <> []) by (intros ->; done).
    destruct (llmRerank query (Text <$> results)) as [[rerankedTexts [e|]]|e|] eqn:El;
      try done; injection H as <- <-.
    + split; [|split; [done|split; [done|split]]].
      * intros result Hr. by apply list_elem_of_fmap_2.
      * intros _ texts' e' [[= _ <-]|[=]]. done.
      * intros _ texts' [=].
    + split; [|split; [|split; [done|split]]].
      * intros result Hr. by apply foldl_addMissing_has.
      * intros result Hr. eapply foldl_addMissing_from; [| |exact Hr]; [|done].
        intros x Hx. apply list_elem_of_omap in Hx as (text & _ & Hx).
        by eapply textToResult_elem.
      * intros _ texts' e' [[=]|[=]].
      * intros _ texts' [= <-]. split; [done|]. apply foldl_addMissing_prefix.
    + split; [|split; [done|split; [done|split]]].
      * intros result Hr. by apply list_elem_of_fmap_2.
      * intros _ texts' e' [[=]|[= <-]]. done.
      * intros _ texts' [=].
Qed.

(** A model that names the third result twice, and one that cannot be
    reached. *)
Lemma llmReranker_keeps_every_chunk_witness :
  (exists out,
     llmReranker_Rerank thirdTwice "go" Retriever.threeResults = Ok (out, None) /\
     (forall result, result ∈ Retriever.threeResults -> ChunkID result ∈ ChunkID <$> out) /\
     length out = 4%nat) /\
  (exists out err,
     llmReranker_Rerank modelDown "go" Retriever.threeResults = Ok (out, err) /\
     out = Retriever.threeResults /\ err = Some "connection refused").
Proof.
  split.
  - eexists. split; [vm_compute; reflexivity|]. split; [|reflexivity].
    lazymatch goal with
    | |- forall result, _ -> _ ∈ ChunkID <$> ?out =>
        exact (proj1 (llmReranker_keeps_every_chunk thirdTwice "go" Retriever.threeResults
                        out None eq_refl))
    end.
  - eexists _, _. split; [reflexivity|].
    destruct (llmReranker_keeps_every_chunk modelDown "go" Retriever.threeResults
                Retriever.threeResults (Some "connection refused") eq_refl)
      as (_ & _ & _ & Herr & _).
    apply (Herr ltac:(discriminate) [] "connection refused"). by right.
Defined.

End Cli.

(** ** internal/indexer: indexing a document *)

Module Indexing.
Import Go.

(** An entry of a [map[string]interface{}] of this program, and a
    metadata attribute of ChromaDB: a string or an integer under a key. *)
Inductive attribute : Type :=
| StringAttribute (key value : string)
| IntAttribute (key : string) (value : Z).

Record Document : Type := mkDocument {
  DocID : string;
  DocURL : string;
  DocTitle : string;
  DocContent : string;
  DocMeta : list attribute
}.

Record ElasticsearchDoc : Type := mkElasticsearchDoc {
  EsDocumentID : string;
  EsChunkID : string;
  EsText : string;
  EsTitle : string;
  EsURL : string;
  EsMetadata : list (string * Z)
}.

(** What [Index] sends out: one [Add] to the ChromaDB collection and
    one [PUT] per chunk to Elasticsearch. *)
Inductive sent : Type :=
| ChromaAdd (ids texts : list string) (metadatas : list (list attribute))
| ElasticPut (url body : string).

Definition indexName : string := "ai_search_documents".

(** The two methods of a ChromaDB collection the indexer calls. *)
Record Collection : Type := mkCollection {
  Add : list string -> list string -> list (list attribute) -> outcome unit;
  Query : Z -> outcome Indexer.QueryResult
}.

(** [createChromaCollection]: the collection the indexer keeps, [None]
    (the field stays [nil]) when [GetOrCreateCollection] fails. *)
Definition createChromaCollection (GetOrCreateCollection : outcome Collection)
  : outcome (option Collection) :=
  match GetOrCreateCollection with
  | Ok collection => Ok (Some collection)
  | Err _ => Ok None
  | Panic p => Panic p
  end.

Section Index.

(** The collection ([None] when [createChromaCollection] failed), JSON
    encoding and the HTTP client are taken as given; each answers with
    a value or an error. *)
Variable collection :
  option (list string -> list string -> list (list attribute) -> outcome unit).
Variable Marshal : ElasticsearchDoc -> outcome string.
Variable NewRequest : string -> string -> outcome unit.
Variable Do : string -> string -> outcome Z.
Variable ElasticURL : string.

Definition chunkMetadata (doc : Document) (chunk : Chunker.Chunk) : list attribute :=
  [StringAttribute "document_id" (DocID doc);
   StringAttribute "chunk_id" (Chunker.ID chunk);
   StringAttribute "title" (DocTitle doc);
   StringAttribute "url" (DocURL doc);
   IntAttribute "start_pos" (Chunker.StartPos chunk);
   IntAttribute "end_pos" (Chunker.EndPos chunk)].

Definition indexInChroma (doc : Document) (chunks : list Chunker.Chunk)
    (embeddings : list (list Q)) : outcome unit * list sent :=
  match collection with
  | None => (Err "ChromaDB collection not initialized", [])
  | Some add =>
      let documents := Chunker.Text <$> chunks in
      let metadatas := chunkMetadata doc <$> chunks in
      let ids := Chunker.ID <$> chunks in
      (match add ids documents metadatas with
       | Ok _ => Ok tt
       | Err err => Err ("failed to add to ChromaDB: " +:+ err)
       | Panic p => Panic p
       end,
       [ChromaAdd ids documents metadatas])
  end.

Definition docData (doc : Document) (chunk : Chunker.Chunk) : ElasticsearchDoc :=
  mkElasticsearchDoc (DocID doc) (Chunker.ID chunk) (Chunker.Text chunk) (DocTitle doc)
                     (DocURL doc) (Chunker.Metadata chunk).

Definition putURL (chunk : Chunker.Chunk) : string :=
  ElasticURL +:+ "/" +:+ indexName +:+ "/_doc/" +:+ Chunker.ID chunk.

Fixpoint indexInElasticsearch (doc : Document) (chunks : list Chunker.Chunk)
  : outcome unit * list sent :=
  match chunks with
  | [] => (Ok tt, [])
  | chunk :: rest =>
      match Marshal (docData doc chunk) with
      | Err err => (Err err, [])
      | Panic p => (Panic p, [])
      | Ok jsonData =>
          let url := putURL chunk in
          match NewRequest url jsonData with
          | Err err => (Err err, [])
          | Panic p => (Panic p, [])
          | Ok _ =>
              match Do url jsonData with
              | Err err => (Err err, [ElasticPut url jsonData])
              | Panic p => (Panic p, [ElasticPut url jsonData])
              | Ok status =>
                  if bool_decide (status <> 200) && bool_decide (status <> 201)
                  then (Err ("Elasticsearch request failed with status " +:+ pretty status),
                        [ElasticPut url jsonData])
                  else
                    let '(result, puts) := indexInElasticsearch doc rest in
                    (result, ElasticPut url jsonData :: puts)
              end
          end
      end
  end.

(** [hybridIndexer.Index]: the error it returns, and what it sent. *)
Definition Index (doc : Document) (chunks : list Chunker.Chunk) (embeddings : list (list Q))
  : outcome unit * list sent :=
  if bool_decide (len chunks <> len embeddings)
  then (Err "chunks and embeddings count mismatch", [])
  else
    match indexInChroma doc chunks embeddings with
    | (Err err, added) => (Err ("failed to index in ChromaDB: " +:+ err), added)
    | (Panic p, added) => (Panic p, added)
    | (Ok _, added) =>
        match indexInElasticsearch doc chunks with
        | (Err err, puts) => (Err ("failed to index in Elasticsearch: " +:+ err), added ++ puts)
        | (Panic p, puts) => (Panic p, added ++ puts)
        | (Ok _, puts) => (Ok tt, added ++ puts)
        end
    end.

End Index.

(** *** What the properties speak of *)

(** The URLs of the [PUT] requests among what was sent, in order. *)
Definition putURLs (l : list sent) : list string :=
  omap (fun s => match s with ElasticPut url _ => Some url | ChromaAdd _ _ _ => None end) l.

(** A hit for a chunk this program indexed: its chunk id is the one
    [createChunk] gave the chunk. *)
Definition indexedHit (Sum256 : string -> list Byte.byte) (hit : Indexer.Hit) : Prop :=
  exists id text startPos endPos,
    Indexer.SourceChunkID hit = Chunker.ID (Chunker.createChunk Sum256 id text startPos endPos).

(** Two chunks, a collection that takes everything, and an
    Elasticsearch that answers the first request with 201 and the
    second with 500. *)
Definition chunkA : Chunker.Chunk := Chunker.mkChunk "aa" "alpha" 0 5 [].
Definition chunkB : Chunker.Chunk := Chunker.mkChunk "bb" "beta" 6 10 [].

Definition takesAll (ids texts : list string) (metadatas : list (list attribute))
  : outcome unit := Ok tt.

Definition failsOnB (url body : string) : outcome Z :=
  if bool_decide (url = "http://es/ai_search_documents/_doc/bb") then Ok 500 else Ok 201.

(** *** [Index] *)

Section IndexFacts.

Variable collection :
  option (list string -> list string -> list (list attribute) -> outcome unit).
Variable Marshal : ElasticsearchDoc -> outcome string.
Variable NewRequest : string -> string -> outcome unit.
Variable Do : string -> string -> outcome Z.
Variable ElasticURL : string.

(** The requests to Elasticsearch are for the first chunks, in order,
    and for all of them when the loop succeeds. *)
Lemma indexInElasticsearch_puts doc chunks :
  exists n,
    (n <= length chunks)%nat /\
    putURLs (indexInElasticsearch Marshal NewRequest Do ElasticURL doc chunks).2
    = putURL ElasticURL <$> take n chunks /\
    ((indexInElasticsearch Marshal NewRequest Do ElasticURL doc chunks).1 = Ok tt ->
     n = length chunks).
Proof.
  induction chunks as [|chunk rest IH]; simpl.
  - exists O. split; [done|]. by split.
  - destruct (Marshal _) as [jsonData| |];
      try (exists O; split; [lia|split; [done|done]]).
    destruct (NewRequest _ _) as [[]| |];
      try (exists O; split; [lia|split; [done|done]]).
    destruct (Do _ _) as [status| |];
      try (exists 1%nat; split; [simpl; lia|split; [done|done]]).
    destruct (bool_decide (status <> 200) && bool_decide (status <> 201));
      [exists 1%nat; split; [simpl; lia|split; [done|done]]|].
    destruct IH as (n & Hn & Hputs & Hall).
    destruct (indexInElasticsearch _ _ _ _ _ rest) as [result puts]. simpl in *.
    exists (S n). split; [lia|]. split; [by rewrite Hputs|].
    intros Hr. by rewrite (Hall Hr).
Qed.

(** After a successful [Index] every chunk was put, in order. *)
Lemma Index_ok_puts doc chunks embeddings sent :
  Index collection Marshal NewRequest Do ElasticURL doc chunks embeddings = (Ok tt, sent) ->
  putURLs sent = putURL ElasticURL <$> chunks.
Proof.
  unfold Index. case_bool_decide; [done|]. unfold indexInChroma.
  destruct collection as [add|]; [|done].
  destruct (add _ _ _) as [[]| |]; [|done|done].
  destruct (indexInElasticsearch_puts doc chunks) as (n & Hn & Hputs & Hall).
  destruct (indexInElasticsearch Marshal NewRequest Do ElasticURL doc chunks)
    as [[[]| |] puts]; [|done|done].
  intros [= <-]. simpl in *. rewrite Hputs, (Hall eq_refl). by rewrite firstn_all.
Qed.

End IndexFacts.

(** [Index] sends nothing when the numbers of chunks and embeddings
    differ or when the ChromaDB collection was never created, and fails.
    Otherwise it sends one [Add] and then one [PUT] per chunk, in
    order, stopping at the first that fails: an error can leave the
    document in ChromaDB and some of its chunks in Elasticsearch.
    The embeddings count only by their number. *)
Theorem Index_sends_in_order collection Marshal NewRequest Do ElasticURL doc chunks embeddings :
  (len chunks <> len embeddings ->
   Index collection Marshal NewRequest Do ElasticURL doc chunks embeddings
   = (Err "chunks and embeddings count mismatch", [])) /\
  (collection = None -> len chunks = len embeddings ->
   Index collection Marshal NewRequest Do ElasticURL doc chunks embeddings
   = (Err "failed to index in ChromaDB: ChromaDB collection not initialized", [])) /\
  (exists n,
     (n <= length chunks)%nat /\
     putURLs (Index collection Marshal NewRequest Do ElasticURL doc chunks embeddings).2
     = putURL ElasticURL <$> take n chunks /\
     ((Index collection Marshal NewRequest Do ElasticURL doc chunks embeddings).1 = Ok tt ->
      n = length chunks /\ len chunks = len embeddings)) /\
  (forall embeddings',
     len embeddings' = len embeddings ->
     Index collection Marshal NewRequest Do ElasticURL doc chunks embeddings'
     = Index collection Marshal NewRequest Do ElasticURL doc chunks embeddings).
Proof.
  split; [|split; [|split]].
  - intros Hne. unfold Index. by rewrite bool_decide_eq_true_2.
  - intros -> Heq. unfold Index. by rewrite bool_decide_eq_false_2 by (by intros ?).
  - unfold Index. case_bool_decide as Hlen.
    + exists O. split; [simpl; lia|]. by split.
    + unfold indexInChroma.
      destruct collection as [add|]; [|exists O; split; [simpl; lia|by split]].
      destruct (add _ _ _) as [[]| |]; try (exists O; split; [simpl; lia|by split]).
      destruct (indexInElasticsearch_puts Marshal NewRequest Do ElasticURL doc chunks)
        as (n & Hn & Hputs & Hall).
      destruct (indexInElasticsearch _ _ _ _ _ chunks) as [[[]| |] puts]; simpl in *;
        exists n; (split; [done|]); (split; [done|]); try done.
      intros _. split; [by apply Hall|done].
  - intros embeddings' Heq. unfold Index, indexInChroma. by rewrite Heq.
Qed.

(** The second of two chunks is refused by Elasticsearch: [Index]
    fails after the collection took both chunks and Elasticsearch the
    first. *)
Example Index_partial :
  Index (Some takesAll) (fun d => Ok (EsChunkID d)) (fun _ _ => Ok tt) failsOnB "http://es"
        (mkDocument "d" "u" "t" "c" []) [chunkA; chunkB] [[]; []]
  = (Err "failed to index in Elasticsearch: Elasticsearch request failed with status 500",
     [ChromaAdd ["aa"; "bb"] ["alpha"; "beta"]
        (chunkMetadata (mkDocument "d" "u" "t" "c" []) <$> [chunkA; chunkB]);
      ElasticPut "http://es/ai_search_documents/_doc/aa" "aa";
      ElasticPut "http://es/ai_search_documents/_doc/bb" "bb"]).
Proof. vm_compute. reflexivity. Qed.

(** When [GetOrCreateCollection] fails at start-up the indexer is
    built all the same, with no collection. From then on no search
    returns results and no document is indexed: [Search] fails before
    it asks Elasticsearch, [Index] sends nothing. *)
Theorem no_collection_no_service err Embed elasticHits range query limit
    Marshal NewRequest Do ElasticURL doc chunks embeddings :
  exists collection,
    createChromaCollection (Err err) = Ok collection /\
    (forall results,
       Indexer.Search Embed (Query <$> collection) elasticHits range query limit
       <> Ok results) /\
    (forall queryEmbedding,
       Embed query = Ok queryEmbedding ->
       Indexer.Search Embed (Query <$> collection) elasticHits range query limit
       = Err "failed to search ChromaDB: ChromaDB collection not initialized") /\
    (Index (Add <$> collection) Marshal NewRequest Do ElasticURL doc chunks embeddings).2 = [] /\
    (Index (Add <$> collection) Marshal NewRequest Do ElasticURL doc chunks embeddings).1
    <> Ok tt.
Proof.
  exists None. split; [done|]. split; [|split; [|split]].
  - intros results. unfold Indexer.Search. by destruct (Embed query).
  - intros queryEmbedding He. unfold Indexer.Search. by rewrite He.
  - unfold Index. by case_bool_decide.
  - unfold Index. by case_bool_decide.
Qed.

(** The chunk ids of the vector results are positions, those of the
    chunks this program indexes are hexadecimal: a vector result and a
    hit for an indexed chunk never have the same chunk id, so the two
    lists [Search] fuses share none. *)
Theorem vector_ids_never_chunk_ids Sum256 queryResult vectorResults hits :
  Indexer.chromaResults queryResult = Ok vectorResults ->
  Forall (indexedHit Sum256) hits ->
  Indexer.disjointIds vectorResults (Indexer.elasticResults hits).
Proof.
  intros Hv Hhits r1 r2 H1 H2 Heq.
  assert (Hpos : exists k : nat, Indexer.ChunkID r1 = "chunk_" +:+ pretty k).
  { unfold Indexer.chromaResults in Hv.
    destruct (Indexer.DocumentsGroups queryResult) as [|[|d ds] ?];
      try (injection Hv as <-; by apply elem_of_nil in H1).
    destruct (Indexer.MetadatasGroups queryResult) as [|metadatas ?];
      destruct (Indexer.DistancesGroups queryResult) as [|distances ?];
      try discriminate Hv.
    injection Hv as <-.
    change (r1 ∈ Indexer.chromaLoop 0 (d :: ds) metadatas distances) in H1.
    apply Indexer.chromaLoop_ids in H1 as (k & _ & Hk). by exists k. }
  destruct Hpos as [k Hk].
  unfold Indexer.elasticResults in H2. apply list_elem_of_fmap in H2 as (hit & -> & Hhit).
  rewrite Forall_forall in Hhits. destruct (Hhits _ Hhit) as (id & text & s & e & Hid).
  simpl in Heq. rewrite Hk, Hid in Heq.
  pose proof (Chunker.hexEncode_allHex
                (take 8 (Sum256 (pretty id +:+ "-" +:+ text)))) as Hhex.
  simpl in Heq. rewrite <- Heq in Hhex. discriminate Hhex.
Qed.

Lemma vector_ids_never_chunk_ids_witness :
  Indexer.chromaResults (Indexer.mkQueryResult [["one"; "two"]] [[[]; []]] [[Indexer.f32 1 10; Indexer.f32 2 10]])
  = Ok (Indexer.chromaLoop 0 ["one"; "two"] [[]; []] [Indexer.f32 1 10; Indexer.f32 2 10]) /\
  Indexer.disjointIds
    (Indexer.chromaLoop 0 ["one"; "two"] [[]; []] [Indexer.f32 1 10; Indexer.f32 2 10])
    (Indexer.elasticResults
       [Indexer.mkHit 1 "doc" (Chunker.ID (Chunker.createChunk Chunker.zeroHash 0 "one" 0 3))
                      "one" []]).
Proof.
  split; [reflexivity|].
  apply (vector_ids_never_chunk_ids Chunker.zeroHash
           (Indexer.mkQueryResult [["one"; "two"]] [[[]; []]] [[Indexer.f32 1 10; Indexer.f32 2 10]])).
  - reflexivity.
  - constructor; [|constructor]. by exists 0, "one", 0, 3.
Defined.

End Indexing.

(** ** internal/cli: what [runCrawl] does with a page *)

Module Pipeline.
Import Go.

(** [store.Document] as [runCrawl] fills it (the two time stamps are
    left to the store). *)
Record StoreDocument : Type := mkStoreDocument {
  ID : string;
  URL : string;
  Title : string;
  Content : string;
  Meta : list Indexing.attribute
}.

(** The fields of [config.Config] that reach the chunker and the
    embedder. *)
Record Config : Type := mkConfig {
  ChunkSize : Z;
  OverlapSize : Z;
  MinChunkSize : Z;
  EmbeddingModel : string;
  EmbeddingAPIKey : string;
  EmbeddingBaseURL : string
}.

Definition chunkerConfig (cfg : Config) : Chunker.Config :=
  Chunker.mkConfig (ChunkSize cfg) (OverlapSize cfg) (MinChunkSize cfg).

Definition embedderConfig (cfg : Config) : Embeddings.Config :=
  Embeddings.mkConfig (EmbeddingModel cfg) 10 30 (EmbeddingAPIKey cfg) (EmbeddingBaseURL cfg).

(** How the body of the loop ends for a page: with one of its five
    [continue]s, at its end (the number is the one it prints), or in
    a panic. *)
Inductive pageEnd : Type :=
| SaveDocumentFailed (err : string)
| NoChunks
| EmbeddingsFailed (err : string)
| SaveChunksFailed (err : string)
| IndexFailed (err : string)
| Indexed (chunks : Z)
| Panicked (p : string).

Section RunCrawl.

(** The store, [url.URL.String] and what the chunker, the embedder and
    the indexer take as given. *)
Variable URLString : Parser.URL -> string.
Variable SaveDocument : StoreDocument -> outcome unit.
Variable SaveChunks : string -> list Chunker.Chunk -> outcome unit.

Variable Sum256 : string -> list Byte.byte.
Variable ReplaceAllString : string -> string -> string -> string.
Variable Split : string -> string -> Z -> list string.

Variable request : Type.
Variable NewRequest : string -> list string -> outcome request.
Variable Do : request -> outcome Embeddings.Reply.
Variable Decode : string -> outcome (list Embeddings.Datum).

Variable collection :
  option (list string -> list string -> list (list Indexing.attribute) -> outcome unit).
Variable Marshal : Indexing.ElasticsearchDoc -> outcome string.
Variable NewPut : string -> string -> outcome unit.
Variable DoPut : string -> string -> outcome Z.
Variable ElasticURL : string.

Variable cfg : Config.

Definition textChunker : Chunker.Config := Chunker.NewTextChunker (chunkerConfig cfg).

Definition embedder : Embeddings.Config := Embeddings.NewEmbedder (embedderConfig cfg).

Definition Chunk : string -> outcome (list Chunker.Chunk) :=
  Chunker.textChunker_Chunk Sum256 ReplaceAllString Split textChunker.

Definition storeDocument (page : Crawler.Page) : StoreDocument :=
  mkStoreDocument (Crawler.ContentHash page) (URLString (Crawler.PageURL page))
    (Crawler.Title page) (Crawler.Content page)
    [Indexing.StringAttribute "meta_desc" (Crawler.MetaDesc page);
     Indexing.IntAttribute "links_count" (len (Crawler.Links page));
     Indexing.IntAttribute "depth" (Crawler.Depth page);
     Indexing.StringAttribute "content_hash" (Crawler.ContentHash page)].

(** The body of [case page, ok := <-pageChan] for a page: how it ends,
    and what [Index] sent. [None]: [EmbedBatch] is still running when
    the fuel is used up. [Chunk] returns no error; a failure of its
    model is a panic. *)
Definition processPage (fuel : nat) (page : Crawler.Page)
  : option (pageEnd * list Indexing.sent) :=
  let doc := storeDocument page in
  match SaveDocument doc with
  | Err err => Some (SaveDocumentFailed err, [])
  | Panic p => Some (Panicked p, [])
  | Ok _ =>
      match Chunk (Crawler.Content page) with
      | Err p | Panic p => Some (Panicked p, [])
      | Ok chunks =>
          if len chunks =? 0 then Some (NoChunks, [])
          else
            let chunkTexts := Chunker.Text <$> chunks in
            match Embeddings.EmbedBatch request NewRequest Do Decode embedder fuel chunkTexts with
            | None => None
            | Some (Err err, _) => Some (EmbeddingsFailed err, [])
            | Some (Panic p, _) => Some (Panicked p, [])
            | Some (Ok embeddings, _) =>
                match SaveChunks (ID doc) chunks with
                | Err err => Some (SaveChunksFailed err, [])
                | Panic p => Some (Panicked p, [])
                | Ok _ =>
                    let indexDoc :=
                      Indexing.mkDocument (ID doc) (URL doc) (Title doc) (Content doc)
                                          (Meta doc) in
                    match Indexing.Index collection Marshal NewPut DoPut ElasticURL
                                         indexDoc chunks embeddings with
                    | (Err err, sent) => Some (IndexFailed err, sent)
                    | (Panic p, sent) => Some (Panicked p, sent)
                    | (Ok _, sent) => Some (Indexed (len chunks), sent)
                    end
                end
            end
      end
  end.

End RunCrawl.

(** A store that keeps everything, and a page of three sentences. *)
Definition keeps {A : Type} (x : A) : outcome unit := Ok tt.

Definition keepsChunks (id : string) (chunks : list Chunker.Chunk) : outcome unit := Ok tt.

Definition threeSentences : Crawler.Page :=
  Crawler.mkPage Crawler.pageA "Home" "Hello world.  This is it! And more? yes. no" "" []
                 "hash" 0.

Definition smallChunks : Config := mkConfig 20 5 3 "m" "key" "https://api.example/v1".

Definition processThree : nat -> Crawler.Page -> option (pageEnd * list Indexing.sent) :=
  processPage Parser.plainString keeps keepsChunks
    Chunker.zeroHash Chunker.plainReplaceAllString Chunker.plainSplit
    (list string) Embeddings.plainRequest Embeddings.alwaysOK Embeddings.oneDatum
    (Some Indexing.takesAll) (fun d => Ok (Indexing.EsChunkID d)) (fun _ _ => Ok tt)
    (fun _ _ => Ok 201) "http://es" smallChunks.

(** *** The page pipeline *)

(** [runCrawl] gives [Index] as many embeddings as chunks, so the
    check of [Index] on the two numbers never fails there; and a page
    it counts as indexed had at least one chunk, every chunk was
    embedded, saved and put into Elasticsearch, in order, and the
    number it prints is the number of chunks. *)
Theorem runCrawl_indexes_every_chunk URLString SaveDocument SaveChunks Sum256 ReplaceAllString
    Split request NewRequest Do Decode collection Marshal NewPut DoPut ElasticURL cfg
    fuel page result sent :
  (forall chunks,
     Chunk Sum256 ReplaceAllString Split cfg (Crawler.Content page) = Ok chunks ->
     len chunks < 2 ^ 62) ->
  processPage URLString SaveDocument SaveChunks Sum256 ReplaceAllString Split request
              NewRequest Do Decode collection Marshal NewPut DoPut ElasticURL cfg fuel page
  = Some (result, sent) ->
  result <> IndexFailed "chunks and embeddings count mismatch" /\
  (forall n, result = Indexed n ->
     exists chunks,
       Chunk Sum256 ReplaceAllString Split cfg (Crawler.Content page) = Ok chunks /\
       n = len chunks /\ 0 < n /\
       SaveChunks (Crawler.ContentHash page) chunks = Ok tt /\
       Indexing.putURLs sent = Indexing.putURL ElasticURL <$> chunks).
Proof.
  intros Hbound. unfold processPage.
  destruct (SaveDocument _) as [[]| |]; [|by intros [= <- <-]..].
  destruct (Chunk _ _ _ _ _) as [chunks| |] eqn:Ec; [|by intros [= <- <-]..].
  specialize (Hbound chunks eq_refl).
  destruct (len chunks =? 0) eqn:E0; [by intros [= <- <-]|].
  apply Z.eqb_neq in E0.
  destruct (Embeddings.EmbedBatch _ _ _ _ _ _ _) as [[[embeddings| |] batches]|] eqn:Ee;
    [|by intros [= <- <-]..|done].
  apply Embeddings.EmbedBatch_ok_length in Ee;
    [|simpl; lia|unfold len in *; rewrite length_fmap; lia].
  rewrite length_fmap in Ee.
  simpl. destruct (SaveChunks _ _) as [[]| |] eqn:Es; [|by intros [= <- <-]..].
  destruct (Indexing.Index _ _ _ _ _ _ _ _) as [[[]| |] sent'] eqn:Ei; intros [= <- <-].
  - split; [done|]. intros n [= <-]. exists chunks.
    split; [done|]. split; [done|]. split; [unfold len in *; lia|]. split; [done|].
    by apply Indexing.Index_ok_puts in Ei.
  - split; [|done]. intros [= ->].
    unfold Indexing.Index in Ei. case_bool_decide as Hne.
    + apply Hne. unfold len. by rewrite Ee.
    + unfold Indexing.indexInChroma in Ei.
      destruct collection as [add|]; [|discriminate Ei].
      destruct (add _ _ _) as [[]| |]; [|discriminate Ei|discriminate Ei].
      destruct (Indexing.indexInElasticsearch _ _ _ _ _ _) as [[[]| |] puts];
        discriminate Ei.
  - split; done.
Qed.

Lemma runCrawl_indexes_every_chunk_witness :
  exists sent,
    processThree 2 threeSentences = Some (Indexed 3, sent) /\
    length (Indexing.putURLs sent) = 3%nat.
Proof.
  assert (Hrun : exists sent, processThree 2 threeSentences = Some (Indexed 3, sent))
    by (eexists; vm_compute; reflexivity).
  destruct Hrun as [sent Hrun]. exists sent. split; [exact Hrun|].
  assert (Hbound : forall chunks,
             Chunk Chunker.zeroHash Chunker.plainReplaceAllString Chunker.plainSplit
                   smallChunks (Crawler.Content threeSentences) = Ok chunks ->
             len chunks < 2 ^ 62).
  { assert (Hthree : exists three,
               Chunk Chunker.zeroHash Chunker.plainReplaceAllString Chunker.plainSplit
                     smallChunks (Crawler.Content threeSentences) = Ok three /\
               length three = 3%nat)
      by (eexists; split; [vm_compute; reflexivity|reflexivity]).
    destruct Hthree as (three & Hthree & Hlen).
    intros chunks Hc. rewrite Hthree in Hc. injection Hc as <-.
    unfold len. rewrite Hlen. reflexivity. }
  destruct (proj2 (runCrawl_indexes_every_chunk _ _ _ _ _ _ _ _ _ _ _ _ _ _ _ _ _ _ _ _
                     Hbound Hrun) 3 eq_refl) as (chunks & Hc & Hn & _ & _ & ->).
  rewrite length_fmap. unfold len in Hn. lia.
Defined.

End Pipeline.

(** ** internal/parser: the HTML parser *)

Module Html.
Import Parser.

(** [html.Node]: its type, data, attributes and children. *)
Inductive NodeType : Type :=
| ErrorNode | TextNode | DocumentNode | ElementNode | CommentNode | DoctypeNode.

#[global] Instance NodeType_eq_dec : EqDecision NodeType.
Proof. solve_decision. Defined.

Record Attribute : Type := mkAttribute {
  Key : string;
  Val : string
}.

#[local] Unset Elimination Schemes.
Inductive Node : Type :=
| mkNode (type : NodeType) (data : string) (attr : list Attribute) (children : list Node).
#[local] Set Elimination Schemes.

Definition Data (n : Node) : string := match n with mkNode _ data _ _ => data end.

(** [parser.ParsedContent] is the record the crawler receives. *)
Abbreviation ParsedContent := Crawler.ParsedContent.
Abbreviation mkParsedContent := Crawler.mkParsedContent.
Abbreviation Title := Crawler.ParsedTitle.
Abbreviation Text := Crawler.ParsedText.
Abbreviation MetaDesc := Crawler.ParsedMetaDesc.
Abbreviation Links := Crawler.ParsedLinks.
Abbreviation ContentHash := Crawler.ParsedHash.

(** The loop of [extractMeta] over the attributes. *)
Definition metaAttr (st : string * string) (attr : Attribute) : string * string :=
  let '(name, content) := st in
  if bool_decide (Key attr = "name") then (Val attr, content)
  else if bool_decide (Key attr = "content") then (name, Val attr)
  else (name, content).

Definition extractMeta (attr : list Attribute) (parsed : ParsedContent) : ParsedContent :=
  let '(name, content) := foldl metaAttr ("", "") attr in
  if bool_decide (name = "description") && bool_decide (content <> "")
  then mkParsedContent (Title parsed) (Text parsed) content (Links parsed) (ContentHash parsed)
  else parsed.

(** The loop of [extractLink]: the value of the first [href]. *)
Fixpoint firstHref (attr : list Attribute) : string :=
  match attr with
  | [] => ""
  | a :: rest => if bool_decide (Key a = "href") then Val a else firstHref rest
  end.

(** Appending the text of a text node. *)
Definition addText (data : string) (text : string) : string :=
  let content := Strings.TrimSpace data in
  if bool_decide (content <> "") then text +:+ content +:+ " " else text.

Section HtmlParser.

(** [html.Parse] (on the reader it is given), [url.Parse],
    [URL.ResolveReference] and SHA-256 in hexadecimal are taken as
    given. [url.Parse] answers with a URL or an error. *)
Variable htmlParse : Crawler.Body -> outcome Node.
Variable Parse : string -> outcome URL.
Variable ResolveReference : URL -> URL -> URL.
Variable sha256hex : string -> string.

Definition extractLink (attr : list Attribute) (parsed : ParsedContent) (baseURL : URL)
  : ParsedContent :=
  let href := firstHref attr in
  if bool_decide (href <> "") then
    match Parse href with
    | Ok linkURL =>
        mkParsedContent (Title parsed) (Text parsed) (MetaDesc parsed)
                        (Links parsed ++ [ResolveReference baseURL linkURL])
                        (ContentHash parsed)
    | Err _ | Panic _ => parsed
    end
  else parsed.

(** [extractData]: the [ParsedContent] after the node and its
    descendants were visited. *)
Fixpoint extractData (n : Node) (parsed : ParsedContent) (baseURL : URL) : ParsedContent :=
  match n with
  | mkNode type data attr children =>
      if bool_decide (type = ElementNode)
         && (bool_decide (data = "script") || bool_decide (data = "style"))
      then parsed
      else
        let parsed :=
          if bool_decide (type = ElementNode) then
            if bool_decide (data = "title") then
              match children with
              | first :: _ =>
                  mkParsedContent (Strings.TrimSpace (Data first)) (Text parsed)
                                  (MetaDesc parsed) (Links parsed) (ContentHash parsed)
              | [] => parsed
              end
            else if bool_decide (data = "meta") then extractMeta attr parsed
            else if bool_decide (data = "a") then extractLink attr parsed baseURL
            else parsed
          else if bool_decide (type = TextNode) then
            mkParsedContent (Title parsed) (addText data (Text parsed)) (MetaDesc parsed)
                            (Links parsed) (ContentHash parsed)
          else parsed in
        foldl (fun parsed c => extractData c parsed baseURL) parsed children
  end.

(** [extractText]: the builder after the node and its descendants. *)
Fixpoint extractText (n : Node) (text : string) : string :=
  match n with
  | mkNode type data attr children =>
      let text := if bool_decide (type = TextNode) then addText data text else text in
      if bool_decide (type = ElementNode)
         && (bool_decide (data = "script") || bool_decide (data = "style"))
      then text
      else foldl (fun text c => extractText c text) text children
  end.

Definition ParseHTML (content : Crawler.Body) (baseURL : URL) : outcome ParsedContent :=
  match htmlParse content with
  | Err err => Err ("failed to parse HTML: " +:+ err)
  | Panic p => Panic p
  | Ok doc =>
      let parsed := extractData doc (mkParsedContent "" "" "" [] "") baseURL in
      Ok (mkParsedContent (Title parsed) (Text parsed) (MetaDesc parsed) (Links parsed)
                          (sha256hex (Text parsed)))
  end.

Definition ParseText (content : Crawler.Body) : outcome string :=
  match htmlParse content with
  | Err err => Err ("failed to parse HTML: " +:+ err)
  | Panic p => Panic p
  | Ok doc => Ok (Strings.TrimSpace (extractText doc ""))
  end.

End HtmlParser.

(** *** What the properties speak of *)

(** A link [extractLink] can add: the reference of a non-empty [href]
    that parses, resolved against the base URL. *)
Definition resolvedHref (Parse : string -> outcome URL) (ResolveReference : URL -> URL -> URL)
    (baseURL link : URL) : Prop :=
  exists href linkURL,
    href <> "" /\ Parse href = Ok linkURL /\ link = ResolveReference baseURL linkURL.

(** The [<a>] elements of a tree outside [script] and [style]. *)
Fixpoint anchors (n : Node) : nat :=
  match n with
  | mkNode type data attr children =>
      if bool_decide (type = ElementNode)
         && (bool_decide (data = "script") || bool_decide (data = "style"))
      then O
      else ((if bool_decide (type = ElementNode) && bool_decide (data = "a") then 1 else 0)
            + foldr (fun c total => anchors c + total) 0 children)%nat
  end.

(** A page: a title, a script, a paragraph with a link, and a link
    with an empty [href]. *)
Definition text (data : string) : Node := mkNode TextNode data [] [].
Definition element (data : string) (attr : list Attribute) (children : list Node) : Node :=
  mkNode ElementNode data attr children.

Definition samplePage : Node :=
  mkNode DocumentNode "" []
    [element "html" []
       [element "head" []
          [element "title" [] [text " Home "];
           element "script" [] [text "var x = 1;"]];
        element "body" []
          [element "p" [] [text "Read "; element "a" [mkAttribute "href" "/b"] [text "more"]];
           element "a" [mkAttribute "href" ""; mkAttribute "href" "/c"] [text "skip"]]]].

(** *** Induction on trees *)

Lemma Node_forall_ind (P : Node -> Prop) :
  (forall type data attr children,
     Forall P children -> P (mkNode type data attr children)) ->
  forall n, P n.
Proof.
  intros H. fix IH 1. intros [type data attr children]. apply H.
  induction children as [|c cs IHcs]; constructor; [apply IH|apply IHcs].
Qed.

Section HtmlFacts.

Variable htmlParse : Crawler.Body -> outcome Node.
Variable Parse : string -> outcome URL.
Variable ResolveReference : URL -> URL -> URL.
Variable sha256hex : string -> string.
Variable baseURL : URL.

Abbreviation extractData' n parsed := (extractData Parse ResolveReference n parsed baseURL).

Lemma extractMeta_Text attr parsed : Text (extractMeta attr parsed) = Text parsed.
Proof.
  unfold extractMeta. destruct (foldl metaAttr _ attr) as [name content].
  by destruct (bool_decide _ && bool_decide _).
Qed.

Lemma extractLink_Text attr parsed :
  Text (extractLink Parse ResolveReference attr parsed baseURL) = Text parsed.
Proof.
  unfold extractLink. case_bool_decide; [|done]. by destruct (Parse _).
Qed.

(** Both walks add the same text. *)
Lemma extractData_Text n : forall parsed,
  Text (extractData' n parsed) = extractText n (Text parsed).
Proof.
  induction n as [type data attr children IH] using Node_forall_ind. intros parsed. simpl.
  destruct (bool_decide (type = ElementNode)) eqn:Ee.
  - apply bool_decide_eq_true in Ee. subst type. simpl.
    destruct (bool_decide (data = "script") || bool_decide (data = "style")); [done|].
    set (parsed1 := if bool_decide (data = "title") then _ else _).
    assert (Ht : Text parsed1 = Text parsed).
    { unfold parsed1. repeat case_bool_decide; try done.
      - by destruct children.
      - apply extractMeta_Text.
      - apply extractLink_Text. }
    rewrite <- Ht. clear Ht. generalize parsed1. clear parsed1.
    induction IH as [|c cs Hc _ IHcs]; intros p; simpl; [done|].
    by rewrite IHcs, Hc.
  - simpl.
    set (parsed1 := if bool_decide (type = TextNode) then _ else parsed).
    assert (Ht : Text parsed1
                 = if bool_decide (type = TextNode) then addText data (Text parsed)
                   else Text parsed).
    { unfold parsed1. by destruct (bool_decide (type = TextNode)). }
    rewrite <- Ht. clear Ht. generalize parsed1. clear parsed1.
    induction IH as [|c cs Hc _ IHcs]; intros p; simpl; [done|].
    by rewrite IHcs, Hc.
Qed.

Lemma extractMeta_Links attr parsed : Links (extractMeta attr parsed) = Links parsed.
Proof.
  unfold extractMeta. destruct (foldl metaAttr _ attr) as [name content].
  by destruct (bool_decide _ && bool_decide _).
Qed.

(** A walk adds links at the end, at most one per anchor, each a
    resolved [href]. *)
Lemma extractData_Links n : forall parsed,
  exists added,
    Links (extractData' n parsed) = Links parsed ++ added /\
    (length added <= anchors n)%nat /\
    Forall (resolvedHref Parse ResolveReference baseURL) added.
Proof.
  induction n as [type data attr children IH] using Node_forall_ind. intros parsed. simpl.
  destruct (bool_decide (type = ElementNode)
            && (bool_decide (data = "script") || bool_decide (data = "style"))) eqn:Eskip.
  { exists []. rewrite app_nil_r. split; [done|]. split; [simpl; lia|constructor]. }
  set (parsed1 := if bool_decide (type = ElementNode) then _ else _).
  assert (H1 : exists added1,
             Links parsed1 = Links parsed ++ added1 /\
             (length added1
              <= if bool_decide (type = ElementNode) && bool_decide (data = "a") then 1 else 0)%nat /\
             Forall (resolvedHref Parse ResolveReference baseURL) added1).
  { unfold parsed1.
    destruct (bool_decide (type = ElementNode)) eqn:Ee; simpl.
    - destruct (bool_decide (data = "title")) eqn:Htitle.
      { exists []. rewrite app_nil_r. split; [by destruct children|]. split; [simpl; lia|constructor]. }
      destruct (bool_decide (data = "meta")) eqn:Hmeta.
      { exists []. rewrite app_nil_r, extractMeta_Links.
        split; [done|]. split; [simpl; lia|constructor]. }
      destruct (bool_decide (data = "a")) eqn:Ha.
      + unfold extractLink. destruct (bool_decide (firstHref attr <> "")) eqn:Hhref.
        * apply bool_decide_eq_true in Hhref.
          destruct (Parse (firstHref attr)) as [linkURL| |] eqn:Ep.
          -- exists [ResolveReference baseURL linkURL]. split; [done|]. split; [simpl; lia|].
             constructor; [|constructor]. by exists (firstHref attr), linkURL.
          -- exists []. rewrite app_nil_r. split; [done|]. split; [simpl; lia|constructor].
          -- exists []. rewrite app_nil_r. split; [done|]. split; [simpl; lia|constructor].
        * exists []. rewrite app_nil_r. split; [done|]. split; [simpl; lia|constructor].
      + exists []. rewrite app_nil_r. split; [done|]. split; [simpl; lia|constructor].
    - exists []. rewrite app_nil_r.
      split; [by destruct (bool_decide (type = TextNode))|]. split; [simpl; lia|constructor]. }
  destruct H1 as (added1 & Hl1 & Hn1 & Hr1).
  assert (H2 : forall p, exists added,
             Links (foldl (fun parsed c => extractData' c parsed) p children)
             = Links p ++ added /\
             (length added <= foldr (fun c total => anchors c + total) 0 children)%nat /\
             Forall (resolvedHref Parse ResolveReference baseURL) added).
  { clear Hl1. induction IH as [|c cs Hc _ IHcs]; intros p; simpl.
    - exists []. rewrite app_nil_r. split; [done|]. split; [simpl; lia|constructor].
    - destruct (Hc p) as (a1 & Ha1 & Hna1 & Hra1).
      destruct (IHcs (extractData' c p)) as (a2 & Ha2 & Hna2 & Hra2).
      exists (a1 ++ a2). split; [by rewrite Ha2, Ha1, app_assoc|].
      split; [rewrite length_app; lia|by apply Forall_app]. }
  destruct (H2 parsed1) as (added2 & Hl2 & Hn2 & Hr2).
  exists (added1 ++ added2). split; [by rewrite Hl2, Hl1, app_assoc|].
  split; [rewrite length_app; lia|by apply Forall_app].
Qed.

End HtmlFacts.

(** [ParseHTML] and [ParseText] read the same text: [ParseText]
    returns the text of [ParseHTML] with the space at its end trimmed,
    and both fail on the same contents. The hash [ParseHTML] records
    is the one of that text. *)
Theorem ParseText_is_ParseHTML_text htmlParse Parse ResolveReference sha256hex content baseURL :
  match ParseHTML htmlParse Parse ResolveReference sha256hex content baseURL with
  | Ok parsed =>
      ParseText htmlParse content = Ok (Strings.TrimSpace (Text parsed)) /\
      ContentHash parsed = sha256hex (Text parsed)
  | Err err => ParseText htmlParse content = Err err
  | Panic p => ParseText htmlParse content = Panic p
  end.
Proof.
  unfold ParseHTML, ParseText. destruct (htmlParse content) as [doc| |]; try done.
  simpl. split; [|done]. by rewrite extractData_Text.
Qed.

(** Every link [ParseHTML] returns is the reference of a non-empty
    [href] resolved against the base URL, and there are at most as
    many links as the document has [<a>] elements outside [script] and
    [style]. *)
Theorem ParseHTML_links_resolved htmlParse Parse ResolveReference sha256hex content baseURL
    doc parsed :
  htmlParse content = Ok doc ->
  ParseHTML htmlParse Parse ResolveReference sha256hex content baseURL = Ok parsed ->
  Forall (resolvedHref Parse ResolveReference baseURL) (Links parsed) /\
  (length (Links parsed) <= anchors doc)%nat.
Proof.
  unfold ParseHTML. intros -> [= <-]. simpl.
  destruct (extractData_Links Parse ResolveReference baseURL doc
              (mkParsedContent "" "" "" [] "")) as (added & -> & Hn & Hr).
  by split.
Qed.

Lemma ParseHTML_links_resolved_witness :
  exists parsed,
    ParseHTML (fun _ => Ok samplePage) plainParse (fun base ref => setHost ref (Host base))
              (fun s => s) (Crawler.mkBody "<html>" None) (mkURL "https" "a.example" "/" "" "") = Ok parsed /\
    Text parsed = "Home Read more skip " /\
    length (Links parsed) = 1%nat /\
    (length (Links parsed) <= anchors samplePage)%nat.
Proof.
  eexists. split; [vm_compute; reflexivity|]. split; [reflexivity|]. split; [reflexivity|].
  lazymatch goal with
  | |- (length (Links ?parsed) <= _)%nat =>
      exact (proj2 (ParseHTML_links_resolved (fun _ => Ok samplePage) plainParse
                      (fun base ref => setHost ref (Host base)) (fun s => s)
                      (Crawler.mkBody "<html>" None)
                      (mkURL "https" "a.example" "/" "" "") samplePage parsed
                      eq_refl eq_refl))
  end.
Defined.

End Html.

(** ** internal/parser: further properties of [Normalize] and [IsValid] *)

Module Normalizing.
Import Parser.

(** What [Normalize] guarantees of the URL it returns. *)
Definition normalized (u : URL) : Prop :=
  Scheme u <> "http" /\ Fragment u = "" /\ Path u <> "" /\
  Strings.ToLower (Host u) = Host u.

(** An [http] URL with the port 80 spelled out. *)
Definition httpPort80 : string := "http://Example.com:80/x".

Lemma ToLower_substring n m s :
  Strings.ToLower (String.substring n m s) = String.substring n m (Strings.ToLower s).
Proof.
  revert n m. induction s as [|c s IH]; intros [|n] [|m]; simpl; rewrite ?IH; done.
Qed.

Lemma ToLower_length s : String.length (Strings.ToLower s) = String.length s.
Proof. induction s as [|c s IH]; simpl; [done|]. by rewrite IH. Qed.

Lemma lower_substring n m s :
  Strings.ToLower s = s -> Strings.ToLower (String.substring n m s) = String.substring n m s.
Proof. intros H. by rewrite ToLower_substring, H. Qed.

(** The host name of a lower-case host is in lower case. *)
Lemma lower_Hostname hostPort :
  Strings.ToLower hostPort = hostPort ->
  Strings.ToLower (splitHostPort hostPort).1 = (splitHostPort hostPort).1.
Proof.
  intros H. unfold splitHostPort.
  set (split := match Strings.LastIndexByte hostPort (Ascii.ascii_of_nat 58) with
                | Some colon => _
                | None => _
                end).
  assert (Hs : Strings.ToLower split.1 = split.1).
  { unfold split. destruct (Strings.LastIndexByte _ _) as [colon|]; [|done].
    destruct (validOptionalPort _); [|done]. simpl. by apply lower_substring. }
  destruct split as [host port]. simpl in *.
  destruct (Strings.HasPrefix host "[" && Strings.HasSuffix host "]"); simpl; [|done].
  by apply lower_substring.
Qed.

Section NormalizeFacts.

Variable Parse : string -> outcome URL.
Variable ResolveReference : URL -> URL -> URL.
Variable QueryEncode : string -> string.

Lemma Normalize_normalized rawURL baseURL u :
  Normalize Parse ResolveReference QueryEncode rawURL baseURL = Ok u -> normalized u.
Proof.
  unfold Normalize. destruct (Parse rawURL) as [p| |]; try done.
  set (u0 := match baseURL with Some base => ResolveReference base p | None => p end).
  set (u1 := if decide (Scheme u0 = "http") then setScheme u0 "https" else u0).
  assert (H1 : Scheme u1 <> "http").
  { unfold u1. destruct (decide (Scheme u0 = "http")); [done|done]. }
  set (u2 := setHost u1 (Strings.ToLower (Host u1))).
  assert (H2 : Scheme u2 <> "http" /\ Strings.ToLower (Host u2) = Host u2).
  { split; [done|]. simpl. apply ToLower_idemp. }
  set (u3 := if decide (Scheme u2 = "https" /\ Port u2 = "443") then setHost u2 (Hostname u2)
             else if decide (Scheme u2 = "http" /\ Port u2 = "80") then setHost u2 (Hostname u2)
             else u2).
  assert (H3 : Scheme u3 <> "http" /\ Strings.ToLower (Host u3) = Host u3).
  { destruct H2 as [Hs Hh]. unfold u3.
    destruct (decide (Scheme u2 = "https" /\ Port u2 = "443")).
    - split; [done|]. simpl. by apply lower_Hostname.
    - destruct (decide (Scheme u2 = "http" /\ Port u2 = "80")) as [[Hhttp _]|]; [done|].
      by split. }
  intros [= <-]. destruct H3 as [Hs Hh]. unfold normalized. simpl.
  split; [|split; [done|split]].
  - by destruct (decide (Strings.TrimSuffix (Path u3) "/" = "")).
  - by destruct (decide (Strings.TrimSuffix (Path u3) "/" = "")).
  - by destruct (decide (Strings.TrimSuffix (Path u3) "/" = "")).
Qed.

End NormalizeFacts.

(** Every URL [Normalize] returns has a scheme other than [http], no
    fragment, a path that is not empty and a host in lower case; if
    [IsValid] accepts it, its scheme is [https] and its host is not
    empty. *)
Theorem Normalize_result_shape Parse ResolveReference QueryEncode rawURL baseURL u :
  Normalize Parse ResolveReference QueryEncode rawURL baseURL = Ok u ->
  Scheme u <> "http" /\ Fragment u = "" /\ Path u <> "" /\
  Strings.ToLower (Host u) = Host u /\
  (forall QueryGet, IsValid QueryGet u = true -> Scheme u = "https" /\ Host u <> "").
Proof.
  intros H. destruct (Normalize_normalized _ _ _ _ _ _ H) as (Hs & Hf & Hp & Hh).
  repeat split; try done.
  - unfold IsValid in H0.
    destruct (decide (Scheme u = "")); [done|].
    destruct (decide (Scheme u <> "http" /\ Scheme u <> "https")) as [|Hn]; [done|].
    destruct (decide (Scheme u = "https")); [done|]. exfalso. apply Hn. by split.
  - unfold IsValid in H0.
    destruct (decide (Scheme u = "")); [done|].
    destruct (decide (Scheme u <> "http" /\ Scheme u <> "https")); [done|].
    by destruct (decide (Host u = "")).
Qed.

Lemma Normalize_result_shape_witness :
  exists u,
    plainNormalize "HTTP://Example.COM/a/#top" = Ok u /\
    Scheme u <> "http" /\ Fragment u = "" /\ Host u = "example.com".
Proof.
  eexists. split; [vm_compute; reflexivity|].
  lazymatch goal with
  | |- Scheme ?res <> _ /\ _ =>
      destruct (Normalize_result_shape plainParse (fun _ ref => ref) plainQueryEncode
                  "HTTP://Example.COM/a/#top" None res eq_refl) as (Hs & Hf & _)
  end.
  split; [exact Hs|]. split; [exact Hf|reflexivity].
Defined.

(** The scheme [http] is rewritten to [https] before the default ports
    are looked at, so the port 80 of an [http] URL is never removed,
    with a base URL or without: when the parsed URL (resolved against
    the base, if there is one) has the scheme [http] and the port 80,
    the URL comes back with the scheme [https] and its host and port
    as they were, in lower case. *)
Theorem Normalize_keeps_port_80 Parse ResolveReference QueryEncode rawURL baseURL parsed
    resolved :
  Parse rawURL = Ok parsed ->
  resolved = match baseURL with
             | Some base => ResolveReference base parsed
             | None => parsed
             end ->
  Scheme resolved = "http" ->
  (splitHostPort (Strings.ToLower (Host resolved))).2 = "80" ->
  exists u,
    Normalize Parse ResolveReference QueryEncode rawURL baseURL = Ok u /\
    Scheme u = "https" /\ Host u = Strings.ToLower (Host resolved) /\ Port u = "80".
Proof.
  intros Hp Hres Hs Hport. unfold Normalize. rewrite Hp, <- Hres. clear Hp Hres.
  destruct (decide (Scheme resolved = "http")) as [_|]; [|done].
  destruct (decide (Scheme (setHost (setScheme resolved "https")
                              (Strings.ToLower (Host (setScheme resolved "https")))) = "https" /\
                    Port (setHost (setScheme resolved "https")
                            (Strings.ToLower (Host (setScheme resolved "https")))) = "443"))
    as [[_ H443]|_].
  { unfold Port in H443. simpl in H443. rewrite Hport in H443. discriminate H443. }
  destruct (decide (Scheme (setHost (setScheme resolved "https")
                              (Strings.ToLower (Host (setScheme resolved "https")))) = "http" /\ _))
    as [[Hhttp _]|_]; [discriminate Hhttp|].
  simpl.
  destruct (decide (Strings.TrimSuffix (Path resolved) "/" = ""));
    (eexists; split; [reflexivity|]); unfold Port; simpl;
    (split; [done|split; [done|exact Hport]]).
Qed.

Lemma Normalize_keeps_port_80_witness :
  (exists u,
     Normalize plainParse (fun base ref => ref) plainQueryEncode httpPort80
               (Some (mkURL "https" "a.example" "/" "" "")) = Ok u /\
     Scheme u = "https" /\ Host u = "example.com:80" /\ Port u = "80") /\
  (exists u,
     plainNormalize httpPort80 = Ok u /\
     Scheme u = "https" /\ Host u = "example.com:80" /\ Port u = "80").
Proof.
  split.
  - apply (Normalize_keeps_port_80 plainParse (fun base ref => ref) plainQueryEncode httpPort80
             (Some (mkURL "https" "a.example" "/" "" ""))
             (mkURL "http" "Example.com:80" "/x" "" "")
             (mkURL "http" "Example.com:80" "/x" "" "")); reflexivity.
  - apply (Normalize_keeps_port_80 plainParse (fun base ref => ref) plainQueryEncode httpPort80
             None
             (mkURL "http" "Example.com:80" "/x" "" "")
             (mkURL "http" "Example.com:80" "/x" "" "")); reflexivity.
Defined.

End Normalizing.

(** ** internal/crawler: further properties of the worker pool *)

Module Frontier.
Import Parser Crawler.

(** *** What the properties speak of *)

(** The links a worker holds satisfy [good]: those of the page it
    fetched, and those it has yet to enqueue. *)
Definition linksOK (good : URL -> Prop) (w : workerState) : Prop :=
  match w with
  | Fetched _ (Ok page) => Forall good (Links page)
  | Enqueueing _ links => Forall good links
  | _ => True
  end.

Definition enqueuedOK (good : URL -> Prop) (ev : event) : Prop :=
  match ev with
  | EvEnqueue _ child => good (url child)
  | _ => True
  end.

(** What [Normalize] and [IsValid] together let through. *)
Definition followable (QueryGet : string -> string -> string) (u : URL) : Prop :=
  IsValid QueryGet u = true /\ Scheme u = "https" /\ Host u <> "" /\
  Fragment u = "" /\ Path u <> "" /\ Strings.ToLower (Host u) = Host u.

(** No worker has returned. *)
Definition running (ws : list workerState) : Prop := Forall (fun w => w <> Returned) ws.

Definition isReturn (ev : event) : Prop := ev = EvReturn.

(** As long as [ctx] is not done, no worker has returned. *)
Definition cancelInv (st : state) (tr : list event) : Prop :=
  ctxDone st.1 = false -> running st.2 /\ Forall (fun ev => ev <> EvReturn) tr.

(** *** Links *)

Section Links.

Variable ParseHTML : Body -> URL -> outcome ParsedContent.
Variable Normalize : string -> option URL -> outcome URL.
Variable IsValid : URL -> bool.
Variable URLString : URL -> string.
Variable sha256hex : string -> string.
Variable unrepresentable : float -> Z.
Variable maxDepth : Z.
Variable good : URL -> Prop.

Hypothesis Normalize_good :
  forall rawURL baseURL u, Normalize rawURL baseURL = Ok u -> IsValid u = true -> good u.

Lemma normalizeLinks_good links targetURL :
  Forall good (normalizeLinks Normalize IsValid URLString links targetURL).
Proof.
  apply Forall_forall. intros u Hu. unfold normalizeLinks in Hu.
  apply list_elem_of_omap in Hu as (link & _ & Hl).
  destruct (Normalize _ _) as [normalized| |] eqn:En; try done.
  destruct (IsValid normalized) eqn:Ev; [|done].
  injection Hl as <-. by eapply Normalize_good.
Qed.

Lemma fetchAndParse_good c do targetURL page :
  fetchAndParse ParseHTML Normalize IsValid URLString sha256hex c do targetURL = Ok page ->
  Forall good (Links page).
Proof.
  unfold fetchAndParse, parseResponse. intros H.
  destruct do as [resp| |]; try done.
  destruct (bool_decide (StatusCode resp <> StatusOK)); [done|].
  destruct (negb _); [done|].
  destruct (ParseHTML _ _) as [parsed| |]; try done.
  injection H as <-. simpl. apply normalizeLinks_good.
Qed.

Lemma workerStep_linksOK o s w s' w' evs :
  linksOK good w ->
  workerStep ParseHTML Normalize IsValid URLString sha256hex unrepresentable maxDepth o s w
  = Some (s', w', evs) ->
  linksOK good w' /\ Forall (enqueuedOK good) evs.
Proof.
  intros Hw Hstep.
  destruct w as [|t|t|t|t|t|t ticker|t ticker since|t|t r|t links|]; simpl in Hstep.
  - destruct (ctxDone s && (takeDone o || bool_decide (urlChan s = []))).
    + simplify_eq. split; [done|by repeat constructor].
    + destruct (urlChan s) as [|urlData rest]; [done|]. simplify_eq.
      split; [done|by repeat constructor].
  - case_bool_decide; simplify_eq; (split; [done|by repeat constructor]).
  - simplify_eq. split; [done|by repeat constructor].
  - destruct (RespectRobots (config (self s))); [|simplify_eq; split; [done|constructor]].
    destruct (GetRobots _ _ _ _) as [[robots cache] reqs].
    destruct (CanCrawl robots (Path (url t))); simplify_eq;
      (split; [done|by repeat constructor]).
  - limiter_step Hstep; (split; [done|by repeat constructor]).
  - limiter_step Hstep; (split; [done|by repeat constructor]).
  - limiter_step Hstep; (split; [done|by repeat constructor]).
  - limiter_step Hstep; (split; [done|by repeat constructor]).
  - simplify_eq. split; [|by repeat constructor]. simpl.
    destruct (fetchAndParse _ _ _ _ _ _ _ _) as [page| |] eqn:Ef; try done.
    by eapply fetchAndParse_good.
  - destruct r as [page|e|p]; [| |done].
    + destruct (len (pageChan s) <? pageChanCap); [|done]. simplify_eq.
      split; [|by repeat constructor].
      destruct (depth t <? maxDepth); simpl; done.
    + destruct (len (errorChan s) <? errorChanCap); [|done]. simplify_eq.
      split; [done|by repeat constructor].
  - destruct links as [|link rest]; [simplify_eq; split; [done|constructor]|].
    destruct (ctxDone s && (takeDone o || negb (len (urlChan s) <? urlChanCap)));
      [simplify_eq; split; [done|by repeat constructor]|].
    destruct (negb (len (urlChan s) <? urlChanCap)); [done|]. simplify_eq.
    simpl in Hw. apply Forall_cons in Hw as [Hlink Hrest].
    split; [done|]. by repeat constructor.
  - done.
Qed.

Lemma run_linksOK acts st st' tr :
  Forall (linksOK good) st.2 ->
  run ParseHTML Normalize IsValid URLString sha256hex unrepresentable maxDepth st acts
  = Some (st', tr) ->
  Forall (linksOK good) st'.2 /\ Forall (enqueuedOK good) tr.
Proof.
  revert st tr. induction acts as [|a acts IH]; intros st tr Hst Hrun; simpl in Hrun.
  - simplify_eq. by split.
  - destruct (step _ _ _ _ _ _ _ st a) as [[st1 evs]|] eqn:Es; [|done].
    destruct (run _ _ _ _ _ _ _ st1 acts) as [[st2 tr2]|] eqn:Er; [|done]. simplify_eq.
    assert (H1 : Forall (linksOK good) st1.2 /\ Forall (enqueuedOK good) evs).
    { destruct st as [s ws]. simpl in *. destruct a as [i o| | |].
      - destruct (ws !! i) as [w|] eqn:Ei; [|done].
        destruct (workerStep _ _ _ _ _ _ _ o s w) as [[[s1 w1] evs1]|] eqn:Ew; [|done].
        simplify_eq. simpl.
        destruct (workerStep_linksOK _ _ _ _ _ _ (Forall_lookup_1 _ _ _ _ Hst Ei) Ew)
          as [Hw1 Hev].
        split; [by apply Forall_insert|done].
      - simplify_eq. by split.
      - destruct (pageChan s); [done|]. simplify_eq. by split.
      - destruct (errorChan s); [done|]. simplify_eq. by split. }
    destruct H1 as [H1 H2]. destruct (IH _ _ H1 Er) as [H3 H4].
    split; [done|]. by apply Forall_app.
Qed.

End Links.

(** With the normalizer of internal/parser, every URL a crawl puts on
    the frontier has passed [IsValid] after [Normalize]: it is an
    [https] URL with a lower-case host, no fragment and a path that is
    not empty. Only the start URL enters the frontier unchecked. *)
Theorem crawl_enqueues_followable_links ParseHTML Parse ResolveReference QueryEncode QueryGet
    URLString sha256hex unrepresentable maxDepth c startURL acts st tr parent child :
  run ParseHTML (Normalize Parse ResolveReference QueryEncode) (IsValid QueryGet)
      URLString sha256hex unrepresentable maxDepth (Crawl c startURL) acts = Some (st, tr) ->
  EvEnqueue parent child ∈ tr ->
  followable QueryGet (url child).
Proof.
  intros Hrun Hin.
  assert (Hgood : forall rawURL baseURL u,
            Normalize Parse ResolveReference QueryEncode rawURL baseURL = Ok u ->
            IsValid QueryGet u = true -> followable QueryGet u).
  { intros rawURL baseURL u Hn Hv.
    destruct (Normalizing.Normalize_normalized _ _ _ _ _ _ Hn) as (Hs & Hf & Hp & Hh).
    assert (Hv' := Hv). unfold IsValid in Hv'.
    destruct (decide (Scheme u = "")); [done|].
    destruct (decide (Scheme u <> "http" /\ Scheme u <> "https")) as [|Hnot]; [done|].
    destruct (decide (Host u = "")); [done|].
    repeat split; try done.
    destruct (decide (Scheme u = "https")); [done|]. exfalso. apply Hnot. by split. }
  assert (Hinit : Forall (linksOK (followable QueryGet)) (Crawl c startURL).2)
    by (apply Forall_replicate; exact I).
  destruct (run_linksOK _ _ _ _ _ _ _ _ Hgood _ _ _ _ Hinit Hrun) as [_ Hev].
  rewrite Forall_forall in Hev. exact (Hev _ Hin).
Qed.

Lemma crawl_enqueues_followable_links_witness :
  exists st tr,
    siteRun 1 (Crawl (siteCrawler 1) pageA) (moves 0 11) = Some (st, tr) /\
    EvEnqueue (mkTarget pageA 0) (mkTarget pageB 1) ∈ tr /\
    followable (fun _ _ => "") pageB.
Proof.
  eexists _, _. split; [vm_compute; reflexivity|].
  lazymatch goal with
  | |- EvEnqueue _ _ ∈ ?tr /\ _ =>
      assert (Hrun : exists st, siteRun 1 (Crawl (siteCrawler 1) pageA) (moves 0 11)
                                = Some (st, tr))
        by (eexists; vm_compute; reflexivity);
      assert (Hin : EvEnqueue (mkTarget pageA 0) (mkTarget pageB 1) ∈ tr)
        by (apply list_elem_of_In; vm_compute; tauto)
  end.
  destruct Hrun as [st Hrun].
  split; [exact Hin|].
  exact (crawl_enqueues_followable_links siteParseHTML plainParse (fun _ ref => ref)
           plainQueryEncode (fun _ _ => "") plainString siteHash (fun _ => 0) 1
           (siteCrawler 1) pageA (moves 0 11) st _ (mkTarget pageA 0) (mkTarget pageB 1)
           Hrun Hin).
Defined.

(** *** Returning *)

Section Cancel.

Variable ParseHTML : Body -> URL -> outcome ParsedContent.
Variable Normalize : string -> option URL -> outcome URL.
Variable IsValid : URL -> bool.
Variable URLString : URL -> string.
Variable sha256hex : string -> string.
Variable unrepresentable : float -> Z.
Variable maxDepth : Z.

(** A worker leaves [ctx] as it is, and returns only when it is done. *)
Lemma workerStep_ctx o s w s' w' evs :
  workerStep ParseHTML Normalize IsValid URLString sha256hex unrepresentable maxDepth o s w
  = Some (s', w', evs) ->
  ctxDone s' = ctxDone s /\
  (ctxDone s = false -> w <> Returned -> w' <> Returned /\ Forall (fun ev => ev <> EvReturn) evs).
Proof.
  intros Hstep.
  destruct w as [|t|t|t|t|t|t ticker|t ticker since|t|t r|t links|]; simpl in Hstep.
  - destruct (ctxDone s) eqn:Ec; simpl in Hstep.
    + destruct (takeDone o || bool_decide (urlChan s = [])).
      * simplify_eq. by split.
      * destruct (urlChan s); [done|]. simplify_eq. by split.
    + destruct (urlChan s); [done|]. simplify_eq. split; [done|].
      intros _ _. split; [done|by repeat constructor].
  - case_bool_decide; simplify_eq; (split; [done|]); intros _ _;
      (split; [done|by repeat constructor]).
  - simplify_eq. split; [done|]. intros _ _. split; [done|by repeat constructor].
  - destruct (RespectRobots (config (self s))).
    + destruct (GetRobots _ _ _ _) as [[robots cache] reqs].
      destruct (CanCrawl robots (Path (url t))); simplify_eq; (split; [done|]); intros _ _;
        (split; [done|by repeat constructor]).
    + simplify_eq. split; [done|]. intros _ _. split; [done|by repeat constructor].
  - limiter_step Hstep; (split; [done|]); intros _ _; (split; [done|by repeat constructor]).
  - limiter_step Hstep; (split; [done|]); intros _ _; (split; [done|by repeat constructor]).
  - limiter_step Hstep; (split; [done|]); intros _ _; (split; [done|by repeat constructor]).
  - limiter_step Hstep; (split; [done|]); intros _ _; (split; [done|by repeat constructor]).
  - simplify_eq. split; [done|]. intros _ _. split; [done|by repeat constructor].
  - destruct r as [page|e|p]; [| |done].
    + destruct (len (pageChan s) <? pageChanCap); [|done]. simplify_eq. split; [done|].
      intros _ _. split; [by destruct (depth t <? maxDepth)|by repeat constructor].
    + destruct (len (errorChan s) <? errorChanCap); [|done]. simplify_eq. split; [done|].
      intros _ _. split; [done|by repeat constructor].
  - destruct links as [|link rest].
    + simplify_eq. split; [done|]. intros _ _. split; [done|by repeat constructor].
    + destruct (ctxDone s) eqn:Ec; simpl in Hstep.
      * destruct (takeDone o || negb (len (urlChan s) <? urlChanCap)).
        -- simplify_eq. by split.
        -- destruct (negb (len (urlChan s) <? urlChanCap)); [done|]. simplify_eq. by split.
      * destruct (negb (len (urlChan s) <? urlChanCap)); [done|]. simplify_eq.
        split; [done|]. intros _ _. split; [done|by repeat constructor].
  - done.
Qed.

Lemma step_cancelInv st tr a st' evs :
  cancelInv st tr ->
  step ParseHTML Normalize IsValid URLString sha256hex unrepresentable maxDepth st a
  = Some (st', evs) ->
  cancelInv st' (tr ++ evs) /\ (a <> Cancel -> ctxDone st'.1 = ctxDone st.1).
Proof.
  intros Hinv Hstep. destruct st as [s ws]. simpl in *. destruct a as [i o| | |].
  - destruct (ws !! i) as [w|] eqn:Ei; [|done].
    destruct (workerStep _ _ _ _ _ _ _ o s w) as [[[s1 w1] evs1]|] eqn:Ew; [|done].
    simplify_eq. destruct (workerStep_ctx _ _ _ _ _ _ Ew) as [Hc Hw].
    split; [|done]. intros Hd. simpl in Hd. rewrite Hc in Hd.
    destruct (Hinv Hd) as [Hrun Htr].
    destruct (Hw Hd (Forall_lookup_1 _ _ _ _ Hrun Ei)) as [Hw1 Hev].
    split; [by apply Forall_insert|by apply Forall_app].
  - simplify_eq. split; [|done]. intros Hd. done.
  - destruct (pageChan s); [done|]. simplify_eq. split; [|done].
    intros Hd. rewrite app_nil_r. by apply Hinv.
  - destruct (errorChan s); [done|]. simplify_eq. split; [|done].
    intros Hd. rewrite app_nil_r. by apply Hinv.
Qed.

Lemma run_cancelInv acts st tr st' tr' :
  cancelInv st tr ->
  run ParseHTML Normalize IsValid URLString sha256hex unrepresentable maxDepth st acts
  = Some (st', tr') ->
  cancelInv st' (tr ++ tr') /\ (Cancel ∉ acts -> ctxDone st'.1 = ctxDone st.1).
Proof.
  revert st tr tr'. induction acts as [|a acts IH]; intros st tr tr' Hinv Hrun; simpl in Hrun.
  - simplify_eq. rewrite app_nil_r. by split.
  - destruct (step _ _ _ _ _ _ _ st a) as [[st1 evs]|] eqn:Es; [|done].
    destruct (run _ _ _ _ _ _ _ st1 acts) as [[st2 tr2]|] eqn:Er; [|done]. simplify_eq.
    destruct (step_cancelInv _ _ _ _ _ Hinv Es) as [H1 H2].
    destruct (IH _ _ _ H1 Er) as [H3 H4].
    split; [by rewrite app_assoc|].
    intros Hno. apply not_elem_of_cons in Hno as [Ha Hacts].
    rewrite H4, H2; done.
Qed.

End Cancel.

(** A worker returns only after [ctx] is done: as long as nothing
    cancels the context no worker of a crawl returns, however little
    is left to do. ([urlChan] is closed after [wg.Wait()], when every
    worker has returned, so the branch of the worker for a closed
    channel never makes a worker return first.) *)
Theorem workers_return_only_after_cancel ParseHTML Normalize IsValid URLString sha256hex
    unrepresentable maxDepth c startURL acts st tr :
  run ParseHTML Normalize IsValid URLString sha256hex unrepresentable maxDepth
      (Crawl c startURL) acts = Some (st, tr) ->
  (EvReturn ∈ tr -> ctxDone st.1 = true) /\
  (Returned ∈ st.2 -> ctxDone st.1 = true) /\
  (Cancel ∉ acts -> ctxDone st.1 = false /\ (EvReturn ∉ tr) /\ (Returned ∉ st.2)).
Proof.
  intros Hrun.
  assert (Hinit : cancelInv (Crawl c startURL) []).
  { intros _. split; [|constructor]. apply Forall_replicate. done. }
  destruct (run_cancelInv _ _ _ _ _ _ _ _ _ _ _ _ Hinit Hrun) as [Hinv Hctx].
  simpl in Hinv.
  assert (Hno : ctxDone st.1 = false -> (EvReturn ∉ tr) /\ (Returned ∉ st.2)).
  { intros Hd. destruct (Hinv Hd) as [Hr Ht]. unfold running in Hr.
    rewrite Forall_forall in Hr. rewrite Forall_forall in Ht.
    split; intros Hin; [by apply (Ht _ Hin)|by apply (Hr _ Hin)]. }
  split; [|split].
  - intros Hin. destruct (ctxDone st.1) eqn:E; [done|]. by destruct (Hno eq_refl) as [H _].
  - intros Hin. destruct (ctxDone st.1) eqn:E; [done|]. by destruct (Hno eq_refl) as [_ H].
  - intros Hc. assert (ctxDone st.1 = false) as Hd by (by rewrite Hctx).
    split; [done|]. by apply Hno.
Qed.

Lemma workers_return_only_after_cancel_witness :
  exists st tr,
    siteRun 0 (Crawl (siteCrawler 1) pageA) (moves 0 10) = Some (st, tr) /\
    quiescent st /\ (Returned ∉ st.2) /\ (EvReturn ∉ tr).
Proof.
  eexists _, _. split; [vm_compute; reflexivity|].
  split; [split; simpl; [reflexivity|constructor; [left; reflexivity|constructor]]|].
  lazymatch goal with
  | |- (Returned ∉ ?ws) /\ (EvReturn ∉ ?tr) =>
      assert (Hrun : exists s, siteRun 0 (Crawl (siteCrawler 1) pageA) (moves 0 10)
                               = Some ((s, ws), tr))
        by (eexists; vm_compute; reflexivity)
  end.
  destruct Hrun as [s Hrun].
  destruct (workers_return_only_after_cancel siteParseHTML siteNormalize siteIsValid
              plainString siteHash (fun _ => 0) 0 (siteCrawler 1) pageA (moves 0 10)
              _ _ Hrun) as (_ & _ & Hno).
  assert (Hc : Cancel ∉ moves 0 10).
  { unfold moves, schedule. cbn [replicate imap]. intros Hin.
    repeat (apply elem_of_cons in Hin as [Hin|Hin]; [discriminate Hin|]).
    by apply elem_of_nil in Hin. }
  destruct (Hno Hc) as (_ & H1 & H2). split; [exact H2|exact H1].
Defined.

(** *** No worker *)

(** A crawler whose number of workers is not positive starts no
    worker: whatever happens, nothing is fetched or reported, and the
    start URL is never taken from the frontier. (Such a crawler comes
    from [SetMaxWorkers], which stores any number, or from a negative
    number given to [NewCrawler].) *)
Theorem no_worker_no_crawl ParseHTML Normalize IsValid URLString sha256hex unrepresentable
    maxDepth c startURL acts st tr :
  MaxWorkers (config c) <= 0 ->
  run ParseHTML Normalize IsValid URLString sha256hex unrepresentable maxDepth
      (Crawl c startURL) acts = Some (st, tr) ->
  tr = [] /\ st.2 = [] /\ urlChan st.1 = [mkTarget startURL 0] /\ pageChan st.1 = [].
Proof.
  intros Hw. unfold Crawl.
  replace (Z.to_nat (MaxWorkers (config c))) with O by lia. simpl.
  generalize false. revert st tr.
  induction acts as [|a acts IH]; intros st tr done Hrun; simpl in Hrun.
  - simplify_eq. by repeat split.
  - destruct a as [i o| | |]; simpl in Hrun; try done.
    destruct (run _ _ _ _ _ _ _ _ acts) as [[st2 tr2]|] eqn:Er; [|done]. simplify_eq.
    by apply (IH _ _ true).
Qed.

Lemma no_worker_no_crawl_witness :
  exists st,
    siteRun 1 (Crawl (SetMaxWorkers (siteCrawler 1) 0) pageA) [Cancel] = Some (st, []) /\
    urlChan st.1 = [mkTarget pageA 0].
Proof.
  eexists. split; [vm_compute; reflexivity|].
  lazymatch goal with
  | |- urlChan ?st.1 = _ =>
      destruct (no_worker_no_crawl siteParseHTML siteNormalize siteIsValid plainString
                  siteHash (fun _ => 0) 1 (SetMaxWorkers (siteCrawler 1) 0) pageA [Cancel]
                  st []) as (_ & _ & Hq & _)
  end.
  - simpl. lia.
  - vm_compute. reflexivity.
  - exact Hq.
Defined.

End Frontier.

(** ** internal/server: further properties of the search handler *)

Module Handler.
Import Indexer Server.

(** A [GET /api/search?q=go&limit=many] request. *)
Definition wordLimitRequest : Request := mkRequest "GET" None "go" "many".

(** A [GET] request whose [limit] parameter is not a decimal integer
    is served like one without the parameter, with a limit of 10. *)
Theorem handleSearch_unreadable_limit Retrieve r :
  Method r = "GET" -> paramQ r <> "" -> Strconv.Atoi (paramLimit r) = None ->
  handleSearch Retrieve r
  = handleSearch Retrieve (mkRequest "GET" (Body r) (paramQ r) "") /\
  handleSearch Retrieve r
  = match Retrieve (paramQ r) 10 with
    | Err _ => Status 500 "Search failed"
    | Panic p => Aborted p
    | Ok results => SearchResponse (paramQ r) results (len results)
    end.
Proof.
  intros Hm Hq Ha. unfold handleSearch, parseRequest. simpl. rewrite Hm, Ha.
  destruct (decide ("GET" = "OPTIONS")) as [H|_]; [discriminate H|].
  destruct (decide ("GET" <> "GET" /\ "GET" <> "POST")) as [[H _]|_]; [done|].
  destruct (decide ("GET" = "POST")) as [H|_]; [discriminate H|].
  destruct (decide (paramQ r = "")); [done|].
  destruct (decide (paramLimit r = "")); split; reflexivity.
Qed.

Lemma handleSearch_unreadable_limit_witness :
  handleSearch (fun query limit => Ok (take (Z.to_nat limit) Retriever.threeResults))
               wordLimitRequest
  = SearchResponse "go" Retriever.threeResults 3.
Proof.
  rewrite (proj2 (handleSearch_unreadable_limit
                    (fun query limit => Ok (take (Z.to_nat limit) Retriever.threeResults))
                    wordLimitRequest eq_refl ltac:(discriminate) eq_refl)).
  reflexivity.
Defined.

End Handler.

(** ** internal/crawler: further properties of robots.txt *)

Module RobotsFacts.
Import Parser Crawler.

(** A robots.txt with a group for another crawler, an empty
    [Disallow] and a closed directory. *)
Definition mixedRobots : Body :=
  mkBody ("User-agent: other" +:+ String (Ascii.ascii_of_nat 10) "Disallow: /"
          +:+ String (Ascii.ascii_of_nat 10) "User-agent: *"
          +:+ String (Ascii.ascii_of_nat 10) "Disallow:"
          +:+ String (Ascii.ascii_of_nat 10) "Disallow: /private"
          +:+ String (Ascii.ascii_of_nat 10) "Crawl-delay: 2") None.

Definition answersWith (body : Body) (robotsURL : string) : outcome Response :=
  Ok (mkResponse 200 "text/plain" body).

Lemma prefix_append d p q : String.prefix d p = true -> String.prefix d (p +:+ q) = true.
Proof.
  revert p. induction d as [|c d IH]; intros p H.
  - by destruct (p +:+ q).
  - destruct p as [|c' p]; [done|].
    change (String c' p +:+ q) with (String c' (p +:+ q)). simpl in *.
    destruct (Ascii.ascii_dec c c'); [|done]. by apply IH.
Qed.

Lemma parseRobotsLine_inv userAgent st text :
  UserAgent (robots st) = userAgent -> Forall (fun path => path <> "") (Disallow (robots st)) ->
  UserAgent (robots (parseRobotsLine userAgent st text)) = userAgent /\
  Forall (fun path => path <> "") (Disallow (robots (parseRobotsLine userAgent st text))).
Proof.
  intros Hu Hd. unfold parseRobotsLine.
  destruct (bool_decide _ || Strings.HasPrefix _ "#"); [done|].
  destruct (Strings.HasPrefix _ "user-agent:"); [done|].
  destruct (negb (inUserAgentSection st)); [done|].
  destruct (Strings.HasPrefix _ "disallow:").
  - case_bool_decide as Hp; [|done]. simpl. split; [done|].
    apply Forall_app. split; [done|]. by constructor.
  - destruct (Strings.HasPrefix _ "crawl-delay:"); [|done].
    by destruct (Strconv.Atoi _).
Qed.

(** The policy [parseRobotsTxt] builds carries the user agent it was
    asked for and no empty [Disallow] path, so an empty [Disallow]
    line closes nothing; and [CanCrawl] refuses every path that
    continues a refused one. *)
Theorem robots_policy_prefixes body userAgent :
  UserAgent (parseRobotsTxt body userAgent).1 = userAgent /\
  Forall (fun path => path <> "") (Disallow (parseRobotsTxt body userAgent).1) /\
  (forall r urlPath rest,
     CanCrawl r urlPath = false -> CanCrawl r (urlPath +:+ rest) = false) /\
  (forall urlPath, CanCrawl (permissive userAgent) urlPath = true).
Proof.
  assert (Hinv : forall lines st,
            UserAgent (robots st) = userAgent ->
            Forall (fun path => path <> "") (Disallow (robots st)) ->
            UserAgent (robots (foldl (parseRobotsLine userAgent) st lines)) = userAgent /\
            Forall (fun path => path <> "")
                   (Disallow (robots (foldl (parseRobotsLine userAgent) st lines)))).
  { induction lines as [|l ls IH]; intros st Hu Hd; simpl; [done|].
    destruct (parseRobotsLine_inv userAgent st l Hu Hd) as [Hu' Hd']. by apply IH. }
  unfold parseRobotsTxt. destruct (scanLines body) as [lines err]. simpl.
  destruct (Hinv lines (mkRobotsScan (permissive userAgent) "" false)) as [Hu Hd];
    [done|constructor|].
  split; [done|]. split; [done|]. split; [|done].
  intros r urlPath rest Hc. unfold CanCrawl in *.
  apply negb_false_iff in Hc. apply negb_false_iff.
  apply existsb_exists in Hc as (d & Hd1 & Hd2). apply existsb_exists.
  exists d. split; [done|]. by apply prefix_append.
Qed.

(** The policy of [mixedRobots]: one path, [/private]. *)
Example mixedRobots_policy :
  parseRobotsTxt mixedRobots "ai-search/1.0"
  = (mkRobots "ai-search/1.0" ["/private"] (2 * Second), None).
Proof. vm_compute. reflexivity. Qed.

(** The lemmas of the crawler at work on the examples. *)
Lemma single_worker_fetches_once_witness :
  exists st tr,
    siteRun 1 (Crawl (siteCrawler 1) pageA) (moves 0 23) = Some (st, tr) /\
    fetchedStrings plainString tr = ["https://a.example/"; "https://a.example/b"] /\
    NoDup (fetchedStrings plainString tr).
Proof.
  eexists _, _. split; [vm_compute; reflexivity|]. split; [vm_compute; reflexivity|].
  lazymatch goal with
  | |- NoDup (fetchedStrings _ ?tr) =>
      assert (Hrun : exists st, siteRun 1 (Crawl (siteCrawler 1) pageA) (moves 0 23)
                                = Some (st, tr))
        by (eexists; vm_compute; reflexivity)
  end.
  destruct Hrun as [st Hrun].
  exact (single_worker_fetches_once siteParseHTML siteNormalize siteIsValid plainString
           siteHash (fun _ => 0) 1 (siteCrawler 1) pageA (moves 0 23) st _
           eq_refl Hrun).
Defined.

Lemma GetRobots_success_cached_witness :
  GetRobotsTwice ∅ (answersWith mixedRobots) "a.example" "ai-search/1.0"
  = ((mkRobots "ai-search/1.0" ["/private"] (2 * Second),
      mkRobots "ai-search/1.0" ["/private"] (2 * Second)),
     <["a.example" := mkRobots "ai-search/1.0" ["/private"] (2 * Second)]> ∅,
     ["https://a.example/robots.txt"]).
Proof.
  apply (GetRobots_success_cached ∅ (answersWith mixedRobots) "a.example" "ai-search/1.0"
           (mkResponse 200 "text/plain" mixedRobots)
           (mkRobots "ai-search/1.0" ["/private"] (2 * Second))).
  - apply lookup_empty.
  - reflexivity.
  - exact mixedRobots_policy.
Defined.

End RobotsFacts.
